(** * VisionLLaMA_AR: causal masks, rotary tables and attention variants

    A shallow embedding of the rotary-embedding and attention-masking core of
    [deit/my_models.py] (and of the script [deit/my_py/test.py]).

    Conventions.
    - An integer tensor is a [list nat]; a float mask is a list of rows of
      [mask_val]; a real tensor is a nested list over [R] (exact real
      arithmetic stands for the float computation on tensor entries).
    - The ratio [rpe_ratio] is a Python [float], a binary64 number
      ([Float64.float]), and the rotary widths [int(... * rpe_ratio)] and
      [int(rpe_ratio * C // num_heads)] are computed with the IEEE
      arithmetic of CPython: the rounding of the product decides the
      integer.  The quotient [2 * hidden_dim / 3] of [LLaMAMLP] and the
      root [token_num ** 0.5] of [RAttention] are kept exact.
    - A Python statement that can raise is a computation in [result]; the
      constructor of [py_error] names the exception and the place.
    - Module attributes that are assigned lazily are [option] fields of a
      record; a forward pass returns its result together with the new
      record. *)

From Stdlib Require Import ZArith QArith Qround Reals Lra Lia SpecFloat.
From stdpp Require Import base tactics option list.

Local Open Scope nat_scope.

(** ** Python exceptions *)

Inductive py_error : Type :=
  | ZeroDivisionError
  | AssertionError
  | TypeError
  | ValueError
  | OverflowError
  | IndexError
  | UnboundLocalError
  | AttributeError_casual_mask      (* [self.casual_mask] was never assigned *)
  | AttributeError_None_shape       (* [None.shape] *)
  | RuntimeError_shape              (* reshape / view with a wrong element count *)
  | RuntimeError_arange             (* arange with a negative upper bound *)
  | RuntimeError_broadcast          (* operands that do not broadcast *)
  | RuntimeError_matmul.            (* inner dimensions differ *)

Inductive result (A : Type) : Type :=
  | Ok (a : A)
  | Raise (e : py_error).
Arguments Ok {A} a.
Arguments Raise {A} e.

Definition result_bind {A B} (m : result A) (f : A → result B) : result B :=
  match m with
  | Ok a => f a
  | Raise e => Raise e
  end.

Notation "'do' x <- m ; k" := (result_bind m (λ x, k))
  (at level 10, x name, m at level 100, k at level 200).
Notation "'do' ' p <- m ; k" := (result_bind m (λ p, k))
  (at level 10, p pattern, m at level 100, k at level 200).

Definition is_ok {A} (m : result A) : bool :=
  match m with Ok _ => true | Raise _ => false end.

(** ** Python floats

    A Python [float] is an IEEE binary64 number: [spec_float] with a
    mantissa of 53 bits.  The operations are those of CPython's
    [floatobject.c]. *)

Module Float64.

Definition prec : Z := 53.
Definition emax : Z := 1024.

Definition float : Type := spec_float.

(** The nearest float to an integer (ties to even), infinite beyond the
    range. *)
Definition of_Z (z : Z) : float := binary_normalize prec emax z 0 false.

Definition mul : float → float → float := SFmul prec emax.
Definition add : float → float → float := SFadd prec emax.
Definition sub : float → float → float := SFsub prec emax.
Definition div : float → float → float := SFdiv prec emax.

(** The float written [p / q] in a source text, for integers [p] and [q]
    that are floats themselves: [decimal 29 100] is the literal [0.29]. *)
Definition decimal (p : Z) (q : positive) : float :=
  div (of_Z p) (of_Z (Z.pos q)).

(** The exact value of a finite float. *)
Definition to_Q (x : float) : Q :=
  match x with
  | S754_finite s m e =>
      (inject_Z (cond_Zopp s (Z.pos m)) * Qpower 2 e)%Q
  | _ => 0%Q
  end.

(** The conversion of an [int] operand of a float operation:
    [OverflowError: int too large to convert to float]. *)
Definition of_int (z : Z) : result float :=
  match of_Z z with
  | S754_infinity _ => Raise OverflowError
  | x => Ok x
  end.

(** [int(x)] truncates towards zero; it raises [ValueError] for a NaN and
    [OverflowError] for an infinity. *)
Definition to_int (x : float) : result Z :=
  match x with
  | S754_nan => Raise ValueError
  | S754_infinity _ => Raise OverflowError
  | S754_zero _ => Ok 0%Z
  | S754_finite s m e => Ok (cond_Zopp s (Z.shiftl (Z.pos m) e))
  end.

(** C's [x != 0], [x < 0] and [copysign(0.0, x)]. *)
Definition nonzero (x : float) : bool := negb (SFeqb x (S754_zero false)).
Definition negative (x : float) : bool := SFltb x (S754_zero false).
Definition sign_zero (x : float) : float :=
  match x with
  | S754_zero s | S754_infinity s | S754_finite s _ _ => S754_zero s
  | S754_nan => S754_zero false
  end.

(** C's [fmod(x, y)]: the exact remainder of the division truncated
    towards zero, with the sign of [x]. *)
Definition fmod (x y : float) : float :=
  match x, y with
  | S754_nan, _ | _, S754_nan | S754_infinity _, _ | _, S754_zero _ => S754_nan
  | _, S754_infinity _ | S754_zero _, _ => x
  | S754_finite sx mx ex, S754_finite _ my ey =>
      let e := Z.min ex ey in
      let r := Z.rem (Z.shiftl (Z.pos mx) (ex - e))
                     (Z.shiftl (Z.pos my) (ey - e)) in
      binary_normalize prec emax (cond_Zopp sx r) e sx
  end.

(** C's [floor(x)]. *)
Definition floor (x : float) : float :=
  match x with
  | S754_finite s m e =>
      if (0 <=? e)%Z then x
      else binary_normalize prec emax (Z.shiftl (cond_Zopp s (Z.pos m)) e) 0 s
  | _ => x
  end.

(** [vx // wx] on floats: [float_floor_div] and [_float_div_mod]. *)
Definition floordiv (vx wx : float) : result float :=
  if SFeqb wx (S754_zero false) then Raise ZeroDivisionError
  else
    let quotient := div vx wx in
    let mod_ := fmod vx wx in
    let div := div (sub vx mod_) wx in
    (* the remainder gets the sign of the denominator *)
    let div :=
      if nonzero mod_ && negb (eqb (negative wx) (negative mod_))
      then sub div (of_Z 1) else div in
    (* snap quotient to nearest integral value *)
    if nonzero div then
      let floordiv := floor div in
      if SFltb (decimal 1 2) (sub div floordiv)
      then Ok (add floordiv (of_Z 1)) else Ok floordiv
    else Ok (sign_zero quotient).

End Float64.

(** ** Additive attention masks *)

(** The two values a mask tensor holds: [0.] and [float('-inf')]. *)
Inductive mask_val : Type :=
  | zero_bias
  | neg_inf.

Global Instance mask_val_eq_dec : EqDecision mask_val.
Proof. solve_decision. Defined.

Abbreviation mask := (list (list mask_val)).

(** [torch.full((n, m), v)] *)
Definition full {A} (n m : nat) (v : A) : list (list A) :=
  replicate n (replicate m v).

(** [torch.arange(0, n)] *)
Definition arange (n : nat) : list nat := seq 0 n.

(** [t[b] = 0.] for a boolean tensor [b] of the shape of [t]. *)
Definition masked_assign_zero (t : mask) (b : list (list bool)) : mask :=
  zip_with (zip_with (λ v (c : bool), if c then zero_bias else v)) t b.

(** Entry [(i, j)] of a rank-2 tensor. *)
Definition at2 {A} (t : list (list A)) (i j : nat) : option A :=
  t !! i ≫= λ row, row !! j.

(** ** GSAttention: the grouped causal mask (lines 682-699 of my_models.py) *)

Module GSAttention_mask.

Section Mask.
Variables (H W sr_ratio N_reduce : nat).

Definition flat_patch_pos : list nat := arange (H * W).
Definition x_pos : list nat := (λ p, p / (sr_ratio * H)) <$> flat_patch_pos.
Definition origin_x_pos : list nat := (λ p, p / H) <$> flat_patch_pos.
Definition origin_y_pos : list nat := (λ p, p mod H) <$> flat_patch_pos.
Definition flat_patch_pos_for_y : list nat :=
  zip_with (λ ox oy, ox + oy * H) origin_x_pos origin_y_pos.
Definition y_pos : list nat :=
  (λ p, p / (sr_ratio * H)) <$> flat_patch_pos_for_y.
Definition token_visible_num : list nat :=
  zip_with (λ x y, x * sr_ratio + y + 1) x_pos y_pos.

Definition col_indices : list nat := arange N_reduce.

(** [mask = col_indices < token_visible_num.unsqueeze(1)] *)
Definition visible : list (list bool) :=
  (λ t, (λ c, bool_decide (c < t)) <$> col_indices) <$> token_visible_num.

Definition causal_mask : mask :=
  masked_assign_zero (full (H * W) N_reduce neg_inf) visible.
End Mask.

(** The part of [GSAttention.forward] that produces the mask:
    [N_reduce = int(H * W // self.sr_ratio // self.sr_ratio)] on Python
    integers raises for [sr_ratio = 0]; the tensor divisions by
    [sr_ratio * H] only meet a zero divisor on an empty tensor. *)
Definition forward_causal_mask (sr_ratio H W : nat) : result mask :=
  if decide (sr_ratio = 0) then Raise ZeroDivisionError
  else
    let N_reduce := H * W / sr_ratio / sr_ratio in
    Ok (causal_mask H W sr_ratio N_reduce).

(** The closed form of the claim. *)
Definition x_block (H sr_ratio i : nat) : nat := i / (sr_ratio * H).
Definition y_block (H sr_ratio i : nat) : nat :=
  (i / H + i mod H * H) / (sr_ratio * H).
Definition visible_count (H sr_ratio i : nat) : nat :=
  x_block H sr_ratio i * sr_ratio + y_block H sr_ratio i + 1.

End GSAttention_mask.

(** ** The script deit/my_py/test.py *)

Module TestPy.
Definition H : nat := 4.
Definition W : nat := 4.
Definition sr_ratio : nat := 2.
Definition N_reduce : nat := 4.

Definition flat_patch_pos : list nat := arange (H * W).
Definition x_pos : list nat := (λ p, p / (sr_ratio * H)) <$> flat_patch_pos.
Definition origin_x_pos : list nat := (λ p, p / H) <$> flat_patch_pos.
Definition origin_y_pos : list nat := (λ p, p mod H) <$> flat_patch_pos.
Definition flat_patch_pos_for_y : list nat :=
  zip_with (λ ox oy, ox + oy * H) origin_x_pos origin_y_pos.
Definition y_pos : list nat :=
  (λ p, p / (sr_ratio * H)) <$> flat_patch_pos_for_y.
Definition token_visible_num : list nat :=
  zip_with (λ x y, x * sr_ratio + y + 1) x_pos y_pos.
Definition causal_mask : mask :=
  masked_assign_zero (full (H * W) N_reduce neg_inf)
    ((λ t, (λ c, bool_decide (c < t)) <$> arange N_reduce) <$> token_visible_num).
End TestPy.

(** ** create_causal_mask (lines 309-321) *)

(** [torch.triu(torch.ones(size, size), diagonal=d)]: entry [(i, j)] is kept
    (1) when [j - i >= d] and zeroed otherwise. *)
Definition triu_ones (size d : nat) : list (list nat) :=
  (λ i, (λ j, if decide (i + d ≤ j) then 1 else 0) <$> arange size) <$> arange size.

(** [mask.masked_fill(mask == 1, -inf).masked_fill(mask == 0, 0.0)]: both
    fills test the 0/1 tensor [mask]; an entry equal to 1 becomes [-inf],
    the others (all equal to 0) become [0.0]. *)
Definition create_causal_mask (size : nat) : mask :=
  (λ row : list nat,
     (λ v : nat, if decide (v = 1) then neg_inf else zero_bias) <$> row)
  <$> triu_ones size 1.


(** ** Complex tensors *)

(** A complex number is its pair (real part, imaginary part), the layout
    of [torch.view_as_real]. *)
Definition complex : Type := R * R.

(** [torch.polar(abs, angle)] *)
Definition polar (abs angle : R) : complex :=
  ((abs * cos angle)%R, (abs * sin angle)%R).

Definition Cmul (a b : complex) : complex :=
  ((a.1 * b.1 - a.2 * b.2)%R, (a.1 * b.2 + a.2 * b.1)%R).

(** The magnitude [|z|]. *)
Definition Cabs (z : complex) : R := sqrt (z.1 * z.1 + z.2 * z.2).

(** [torch.arange(0, n, step)] *)
Definition arange_step (n step : nat) : list nat :=
  (λ k, k * step) <$> seq 0 ((n + step - 1) / step).

(** [torch.outer(a, b)] *)
Definition outer (a b : list R) : list (list R) :=
  (λ x, (λ y, (x * y)%R) <$> b) <$> a.

(** [torch.polar(torch.ones_like(f), f)] *)
Definition polar_ones (f : list (list R)) : list (list complex) :=
  (λ row : list R, polar 1%R <$> row) <$> f.

(** [t.reshape(rows, -1)] on the elements of [t] in row-major order: the
    inferred dimension is ambiguous for [rows = 0], and the element count
    must be a multiple of [rows]. *)
Definition reshape_rows {A} (rows : nat) (flat : list A) : result (list (list A)) :=
  if decide (rows = 0) then Raise RuntimeError_shape
  else if decide (length flat mod rows = 0)
       then Ok (reshape (replicate rows (length flat / rows)) flat)
       else Raise RuntimeError_shape.

(** [torch.cat([x.unsqueeze(-1), y.unsqueeze(-1)], dim=-1)]: shape N, F, 2. *)
Definition cat_pairs {A} (x y : list (list A)) : list (list (list A)) :=
  zip_with (zip_with (λ a b, [a; b])) x y.

(** ** Frequency tables (lines 201-252); [theta ** e] is [Rpower theta e]
    (its value for [theta > 0]). *)

Definition precompute_freqs_cis (dim end_ : nat) (theta scale : R)
  : list (list complex) :=
  let freqs := (λ a : nat, (1 / Rpower theta (INR a / INR dim))%R)
                 <$> take (dim / 2) (arange_step dim 2) in
  let t := (λ p, INR p) <$> arange end_ in
  let t := (λ p : R, (p * scale)%R) <$> t in
  let freqs := outer t freqs in
  polar_ones freqs.

(** [torch.arange(0 if not use_cls else -1, end)] *)
Definition arange_cls (use_cls : bool) (end_ : nat) : list Z :=
  if use_cls then seqZ (-1) (Z.of_nat end_ + 1) else seqZ 0 (Z.of_nat end_).

(** [%] and [//] of an integer tensor by the Python integer [d]: floor
    semantics; a zero divisor raises as soon as the tensor has an element. *)
Definition tensor_mod (t : list Z) (d : Z) : result (list Z) :=
  if decide (d = 0%Z ∧ t ≠ []) then Raise ZeroDivisionError
  else Ok ((λ p, p `mod` d)%Z <$> t).
Definition tensor_floordiv (t : list Z) (d : Z) : result (list Z) :=
  if decide (d = 0%Z ∧ t ≠ []) then Raise ZeroDivisionError
  else Ok ((λ p, p `div` d)%Z <$> t).

Definition precompute_freqs_cis_2d (dim end_ : nat) (theta scale : R)
    (use_cls : bool) (cls_pos : Z) : result (list (list complex)) :=
  let H := Z.of_nat (Nat.sqrt end_) in
  let flat_patch_pos := arange_cls use_cls end_ in
  do x_pos <- tensor_mod flat_patch_pos H;
  do y_pos <- tensor_floordiv flat_patch_pos H;
  let x_pos := (λ p : Z, (IZR p * scale)%R) <$> x_pos in
  let y_pos := (λ p : Z, (IZR p * scale)%R) <$> y_pos in
  let x_pos := if use_cls && negb (cls_pos =? -1)%Z
               then <[0 := IZR cls_pos]> x_pos else x_pos in
  let y_pos := if use_cls && negb (cls_pos =? -1)%Z
               then <[0 := IZR cls_pos]> y_pos else y_pos in
  let freqs := (λ a : nat, (1 / Rpower theta (INR a / INR dim))%R)
                 <$> take (dim / 4) (arange_step dim 4) in
  let x_freqs := outer x_pos freqs in
  let y_freqs := outer y_pos freqs in
  let x_cis := polar_ones x_freqs in
  let y_cis := polar_ones y_freqs in
  let freqs_cis := cat_pairs x_cis y_cis in
  reshape_rows (if use_cls then end_ + 1 else end_) (mjoin (mjoin freqs_cis)).

Definition precompute_freqs_cis_2d_general (dim end_ : nat) (step : Z) (W : nat)
    (bias theta scale : R) (use_cls : bool) : result (list (list complex)) :=
  let W := if decide (W = 0) then Nat.sqrt end_ else W in
  let W := Z.of_nat W in
  let flat_patch_pos := arange_cls use_cls end_ in
  do x_pos <- tensor_mod flat_patch_pos W;
  let x_pos := (λ p : Z, (bias + IZR (p * step)%Z)%R) <$> x_pos in
  do y_pos <- tensor_floordiv flat_patch_pos W;
  let y_pos := (λ p : Z, (bias + IZR (p * step)%Z)%R) <$> y_pos in
  let freqs := (λ a : nat, (1 / Rpower theta (INR a / INR dim))%R)
                 <$> take (dim / 4) (arange_step dim 4) in
  let x_pos := (λ p : R, (scale * p)%R) <$> x_pos in
  let y_pos := (λ p : R, (scale * p)%R) <$> y_pos in
  let x_freqs := outer x_pos freqs in
  let y_freqs := outer y_pos freqs in
  let x_cis := polar_ones x_freqs in
  let y_cis := polar_ones y_freqs in
  let freqs_cis := cat_pairs x_cis y_cis in
  reshape_rows (if use_cls then end_ + 1 else end_) (mjoin (mjoin freqs_cis)).

(** ** Tensors

    A tensor is its shape and the function from an index (one coordinate
    per dimension) to the element.  Every operation first computes the shape
    of the result or raises, exactly as the library does; the elements are
    given by index arithmetic. *)

Module Torch.

Record tensor (A : Type) : Type := mk_tensor {
  shape : list nat;
  get : list nat → A;
}.
Arguments mk_tensor {A} shape get.
Arguments shape {A} t.
Arguments get {A} t idx.

Definition numel (s : list nat) : nat := foldr Nat.mul 1 s.

(** Row-major offset of an index, and back. *)
Fixpoint ravel (s idx : list nat) : nat :=
  match s, idx with
  | _ :: s', i :: idx' => i * numel s' + ravel s' idx'
  | _, _ => 0
  end.

Fixpoint unravel (s : list nat) (off : nat) : list nat :=
  match s with
  | [] => []
  | _ :: s' => off / numel s' :: unravel s' (off mod numel s')
  end.

(** The shape without its last dimension, and the last dimension. *)
Definition init_dims (s : list nat) : list nat := take (length s - 1) s.
Definition last_dim (s : list nat) : nat := default 0 (last s).

(** An index with its last coordinate changed. *)
Definition map_last (f : nat → nat) (idx : list nat) : list nat :=
  init_dims idx ++ [f (last_dim idx)].

(** [t.reshape(s)] and [t.view(s)] *)
Definition reshape {A} (t : tensor A) (s : list nat) : result (tensor A) :=
  if decide (numel (shape t) = numel s)
  then Ok {| shape := s;
             get := λ idx, get t (unravel (shape t) (ravel s idx)) |}
  else Raise RuntimeError_shape.

(** [t.reshape(pre..., -1, post...)] *)
Definition reshape_infer {A} (t : tensor A) (pre post : list nat)
  : result (tensor A) :=
  let newsize := numel pre * numel post in
  if decide (newsize = 0) then Raise RuntimeError_shape
  else if decide (numel (shape t) mod newsize = 0)
  then reshape t (pre ++ [numel (shape t) / newsize] ++ post)
  else Raise RuntimeError_shape.

(** [t.flatten(start)] *)
Definition flatten {A} (t : tensor A) (start : nat) : result (tensor A) :=
  if decide (start < length (shape t))
  then reshape t (take start (shape t) ++ [numel (drop start (shape t))])
  else Raise IndexError.

Fixpoint index_of (d : nat) (l : list nat) : nat :=
  match l with
  | [] => 0
  | x :: l' => if decide (x = d) then 0 else S (index_of d l')
  end.

(** [t.permute(perm)] *)
Definition permute {A} (t : tensor A) (perm : list nat) : result (tensor A) :=
  if decide (perm ≡ₚ seq 0 (length (shape t)))
  then Ok {| shape := (λ p, default 0 (shape t !! p)) <$> perm;
             get := λ idx, get t ((λ d, default 0 (idx !! index_of d perm))
                                    <$> seq 0 (length perm)) |}
  else Raise RuntimeError_shape.

Definition swap (i j : nat) (l : list nat) : list nat :=
  <[i := default 0 (l !! j)]> (<[j := default 0 (l !! i)]> l).

(** [t.transpose(i, j)] *)
Definition transpose {A} (t : tensor A) (i j : nat) : result (tensor A) :=
  if decide (i < length (shape t) ∧ j < length (shape t))
  then Ok {| shape := swap i j (shape t); get := λ idx, get t (swap i j idx) |}
  else Raise IndexError.

(** [t[k]] *)
Definition select0 {A} (t : tensor A) (k : nat) : result (tensor A) :=
  match shape t with
  | d :: s => if decide (k < d)
              then Ok {| shape := s; get := λ idx, get t (k :: idx) |}
              else Raise IndexError
  | [] => Raise IndexError
  end.

(** [t.unsqueeze(0)] *)
Definition unsqueeze0 {A} (t : tensor A) : tensor A :=
  {| shape := 1 :: shape t; get := λ idx, get t (tail idx) |}.

(** Python slice bounds on a dimension of size [d]: [:r] keeps
    [slice_stop d r] entries, [r:] starts at [slice_stop d r]. *)
Definition slice_stop (d : nat) (r : Z) : nat :=
  if decide (0 ≤ r)%Z then Z.to_nat r `min` d else d - Z.to_nat (- r).

(** [t[..., :r]] *)
Definition slice_last_to {A} (t : tensor A) (r : Z) : tensor A :=
  {| shape := map_last (λ d, slice_stop d r) (shape t); get := get t |}.

(** [t[..., r:]] *)
Definition slice_last_from {A} (t : tensor A) (r : Z) : tensor A :=
  let start := slice_stop (last_dim (shape t)) r in
  {| shape := map_last (λ d, d - start) (shape t);
     get := λ idx, get t (map_last (λ c, c + start) idx) |}.

(** [t.narrow(dim, start, len)] *)
Definition narrow {A} (t : tensor A) (dim start len : nat) : tensor A :=
  {| shape := <[dim := len]> (shape t);
     get := λ idx, get t (<[dim := default 0 (idx !! dim) + start]> idx) |}.

(** [t.split((a, b, c), dim)] *)
Definition split3 {A} (t : tensor A) (a b c dim : nat)
  : result (tensor A * tensor A * tensor A) :=
  match shape t !! dim with
  | Some d =>
      if decide (a + b + c = d)
      then Ok (narrow t dim 0 a, narrow t dim a b, narrow t dim (a + b) c)
      else Raise RuntimeError_shape
  | None => Raise IndexError
  end.

(** The coordinates of an element of an operand of shape [s] that is
    broadcast to the index [idx] of the result. *)
Definition bidx (s idx : list nat) : list nat :=
  zip_with (λ d i, if decide (d = 1) then 0 else i) s
    (drop (length idx - length s) idx).

(** [t.expand(s)] for a target of the rank of [t]. *)
Definition expand {A} (t : tensor A) (s : list nat) : result (tensor A) :=
  if decide (length s = length (shape t) ∧
             Forall2 (λ d e, d = e ∨ d = 1) (shape t) s)
  then Ok {| shape := s; get := λ idx, get t (bidx (shape t) idx) |}
  else Raise RuntimeError_broadcast.

Fixpoint broadcast_rev (a b : list nat) : result (list nat) :=
  match a, b with
  | [], l | l, [] => Ok l
  | x :: a', y :: b' =>
      do r <- broadcast_rev a' b';
      if decide (x = y) then Ok (x :: r)
      else if decide (x = 1) then Ok (y :: r)
      else if decide (y = 1) then Ok (x :: r)
      else Raise RuntimeError_broadcast
  end.

(** [torch.broadcast_shapes(s1, s2)]: dimensions are aligned from the
    right. *)
Definition broadcast_shapes (s1 s2 : list nat) : result (list nat) :=
  do r <- broadcast_rev (reverse s1) (reverse s2);
  Ok (reverse r).

(** An elementwise binary operation with broadcasting. *)
Definition map2 {A B C} (f : A → B → C) (a : tensor A) (b : tensor B)
  : result (tensor C) :=
  do s <- broadcast_shapes (shape a) (shape b);
  Ok {| shape := s;
        get := λ idx, f (get a (bidx (shape a) idx)) (get b (bidx (shape b) idx)) |}.

Definition map1 {A B} (f : A → B) (a : tensor A) : tensor B :=
  {| shape := shape a; get := λ idx, f (get a idx) |}.

(** [torch.cat((a, b), dim=-1)] *)
Definition cat_last {A} (a b : tensor A) : result (tensor A) :=
  if decide (shape a ≠ [] ∧ shape b ≠ [] ∧
             init_dims (shape a) = init_dims (shape b))
  then Ok {| shape := init_dims (shape a)
                      ++ [last_dim (shape a) + last_dim (shape b)];
             get := λ idx,
               if decide (last_dim idx < last_dim (shape a))
               then get a idx
               else get b (map_last (λ c, c - last_dim (shape a)) idx) |}
  else Raise RuntimeError_shape.

Fixpoint sum_n (f : nat → R) (n : nat) : R :=
  match n with
  | 0 => 0%R
  | S m => (sum_n f m + f m)%R
  end.

(** [a @ b] for operands of rank at least 2; the leading dimensions
    broadcast. *)
Definition matmul (a b : tensor R) : result (tensor R) :=
  let ra := length (shape a) in
  let rb := length (shape b) in
  if decide (2 ≤ ra ∧ 2 ≤ rb) then
    let ba := take (ra - 2) (shape a) in
    let bb := take (rb - 2) (shape b) in
    let n := default 0 (shape a !! (ra - 2)) in
    let k := default 0 (shape a !! (ra - 1)) in
    let k' := default 0 (shape b !! (rb - 2)) in
    let m := default 0 (shape b !! (rb - 1)) in
    if decide (k = k') then
      do batch <- broadcast_shapes ba bb;
      Ok {| shape := batch ++ [n; m];
            get := λ idx,
              let bi := take (length idx - 2) idx in
              let i := default 0 (idx !! (length idx - 2)) in
              let j := default 0 (idx !! (length idx - 1)) in
              sum_n (λ l, (get a (bidx ba bi ++ [i; l])
                           * get b (bidx bb bi ++ [l; j]))%R) k |}
    else Raise RuntimeError_matmul
  else Raise RuntimeError_matmul.

(** [nn.Linear]: weight [out_features x in_features] and bias. *)
Record Linear : Type := {
  in_features : nat;
  out_features : nat;
  weight : nat → nat → R;
  bias : nat → R;
}.

Definition linear (l : Linear) (x : tensor R) : result (tensor R) :=
  if decide (shape x ≠ [] ∧ last_dim (shape x) = in_features l)
  then Ok {| shape := init_dims (shape x) ++ [out_features l];
             get := λ idx,
               let o := last_dim idx in
               (sum_n (λ i, (get x (init_dims idx ++ [i]) * weight l o i)%R)
                  (in_features l) + bias l o)%R |}
  else Raise RuntimeError_matmul.

(** [torch.view_as_complex] and [torch.view_as_real] *)
Definition view_as_complex (t : tensor R) : result (tensor complex) :=
  if decide (shape t ≠ [] ∧ last_dim (shape t) = 2)
  then Ok {| shape := init_dims (shape t);
             get := λ idx, (get t (idx ++ [0]), get t (idx ++ [1])) |}
  else Raise RuntimeError_shape.

Definition view_as_real (t : tensor complex) : tensor R :=
  {| shape := shape t ++ [2];
     get := λ idx,
       let z := get t (init_dims idx) in
       if decide (last_dim idx = 0) then z.1 else z.2 |}.

(** An attention score after the additive mask: [None] is [-inf]. *)
Definition add_mask_val (a : R) (m : mask_val) : option R :=
  match m with
  | zero_bias => Some a
  | neg_inf => None
  end.

Definition exp_x (v : option R) : R :=
  match v with
  | Some r => exp r
  | None => 0%R
  end.

(** [t.softmax(dim=-1)] *)
Definition softmax (t : tensor (option R)) : tensor R :=
  {| shape := shape t;
     get := λ idx,
       (exp_x (get t idx)
        / sum_n (λ j, exp_x (get t (map_last (λ _, j) idx)))
            (last_dim (shape t)))%R |}.

(** A rank-2 tensor given by its rows. *)
Definition of_rows {A} (d : A) (rows : list (list A)) : tensor A :=
  {| shape := [length rows; length (default [] (rows !! 0))];
     get := λ idx,
       default d (rows !! default 0 (idx !! 0) ≫= λ row,
                  row !! default 0 (idx !! 1)) |}.

End Torch.

(** ** Rotary application (lines 255-283) *)

Section Rotary.
Import Torch.

Definition reshape_for_broadcast (freqs_cis x : tensor complex)
  : result (tensor complex) :=
  let ndim := length (shape x) in
  if decide (1 < ndim) then                       (* assert 0 <= 1 < ndim *)
    match last (shape freqs_cis) with
    | None => Raise IndexError
    | Some c =>
        do shape <-
          (if decide (c = last_dim (shape x) ∧ ndim = 4) then
             Ok (imap (λ i d, if decide (i = 2 ∨ i = 0) then 1 else d) (shape x))
           else if decide (c ≠ last_dim (shape x)) then
             Ok (imap (λ i d, if decide (i ≠ 0) then d else 1) (shape x))
           else if decide (ndim = 3) then
             Ok (imap (λ i d, if decide (i = 0) then 1 else d) (shape x))
           else Raise UnboundLocalError);
        reshape freqs_cis shape
    end
  else Raise AssertionError.

(** [torch.view_as_complex(x.float().reshape(x.shape[:-1]..., -1, 2))] *)
Definition complex_pairs (x : tensor R) : result (tensor complex) :=
  do x2 <- reshape_infer x (init_dims (shape x)) [2];
  view_as_complex x2.

Definition apply_rotary_emb (xq xk : tensor R) (freqs_cis : tensor complex)
  : result (tensor R * tensor R) :=
  do xq_ <- complex_pairs xq;
  do xk_ <- complex_pairs xk;
  do freqs_cis <- reshape_for_broadcast freqs_cis xq_;
  do xq_rot <- map2 Cmul xq_ freqs_cis;
  do xq_out <- flatten (view_as_real xq_rot) 3;
  do xk_rot <- map2 Cmul xk_ freqs_cis;
  do xk_out <- flatten (view_as_real xk_rot) 3;
  Ok (xq_out, xk_out).

(** [x = torch.cat((x_rot, x[..., r:]), dim=-1)] for both [q] and [k],
    where [x_rot] is the rotated [x[..., :r]]. *)
Definition rotate_prefix (r : Z) (q k : tensor R) (freqs_cis : tensor complex)
  : result (tensor R * tensor R) :=
  do ' (q_rot, k_rot) <-
    apply_rotary_emb (slice_last_to q r) (slice_last_to k r) freqs_cis;
  do q' <- cat_last q_rot (slice_last_from q r);
  do k' <- cat_last k_rot (slice_last_from k r);
  Ok (q', k').

End Rotary.

(** ** The other rotary applications (lines 285-307) *)

Section Rotary_variants.
Import Torch.

(** As [apply_rotary_emb], with [flatten(2)]. *)
Definition apply_rotary_emb_mhsa (xq xk : tensor R) (freqs_cis : tensor complex)
  : result (tensor R * tensor R) :=
  do xq_ <- complex_pairs xq;
  do xk_ <- complex_pairs xk;
  do freqs_cis <- reshape_for_broadcast freqs_cis xq_;
  do xq_rot <- map2 Cmul xq_ freqs_cis;
  do xq_out <- flatten (view_as_real xq_rot) 2;
  do xk_rot <- map2 Cmul xk_ freqs_cis;
  do xk_out <- flatten (view_as_real xk_rot) 2;
  Ok (xq_out, xk_out).

Definition apply_rotary_emb_single (xq : tensor R) (freqs_cis : tensor complex)
  : result (tensor R) :=
  do xq_ <- complex_pairs xq;
  do freqs_cis <- reshape_for_broadcast freqs_cis xq_;
  do xq_rot <- map2 Cmul xq_ freqs_cis;
  flatten (view_as_real xq_rot) 3.

End Rotary_variants.

(** ** timm's Attention (an external class): the attributes its constructor
    sets, and its forward pass; dropout is the identity (rate 0, or
    evaluation mode). *)

Record Attention : Type := {
  num_heads : nat;
  scale : R;
  qkv : Torch.Linear;
  proj : Torch.Linear;
}.

Section Attention_forward.
Import Torch.

(** [attn.softmax(dim=-1)] followed by [(attn @ v).transpose(1, 2)
    .reshape(B, N, C)] and the output projection. *)
Definition attend (self : Attention) (B N C : nat)
    (attn : tensor (option R)) (v : tensor R) : result (tensor R) :=
  let attn := softmax attn in
  do x <- matmul attn v;
  do x <- transpose x 1 2;
  do x <- reshape x [B; N; C];
  linear (proj self) x.

(** [self.qkv(x).reshape(B, N, 3, self.num_heads, C // self.num_heads)] *)
Definition project_qkv (self : Attention) (B N C : nat) (x : tensor R)
  : result (tensor R) :=
  do qkv <- linear (qkv self) x;
  if decide (num_heads self = 0) then Raise ZeroDivisionError
  else reshape qkv [B; N; 3; num_heads self; C / num_heads self].

(** [(q @ k.transpose(-2, -1)) * self.scale] for rank-4 [q], [k]. *)
Definition scores (self : Attention) (q k : tensor R) : result (tensor R) :=
  do kt <- transpose k 2 3;
  do attn <- matmul q kt;
  Ok (map1 (λ a, (a * scale self)%R) attn).

Definition Attention_forward (self : Attention) (x : tensor R)
  : result (tensor R) :=
  match shape x with
  | [B; N; C] =>
      do qkv <- project_qkv self B N C x;
      do qkv <- permute qkv [2; 0; 3; 1; 4];
      do q <- select0 qkv 0;
      do k <- select0 qkv 1;
      do v <- select0 qkv 2;
      do attn <- scores self q k;
      attend self B N C (map1 Some attn) v
  | _ => Raise ValueError                    (* the unpacking of the shape *)
  end.

End Attention_forward.

(** ** RAttention (lines 323-401) *)

(** [row[pos_list] = 0.]: index assignment with a list of positions; an
    index out of range raises. *)
Fixpoint index_assign_zero (row : list mask_val) (pos_list : list nat)
  : result (list mask_val) :=
  match pos_list with
  | [] => Ok row
  | p :: ps =>
      if decide (p < length row)
      then index_assign_zero (<[p := zero_bias]> row) ps
      else Raise IndexError
  end.

(** [for i, pos_list in enumerate(total): t[i, pos_list] = 0] *)
Fixpoint assign_rows (t : mask) (total : list (list nat)) : result mask :=
  match total, t with
  | [], _ => Ok t
  | _ :: _, [] => Raise IndexError
  | pos_list :: total', row :: t' =>
      do row' <- index_assign_zero row pos_list;
      do t'' <- assign_rows t' total';
      Ok (row' :: t'')
  end.

(** [new_mask = torch.full((n + 1, n + 1), 0.); new_mask[1:, 1:] = m] *)
Definition pad_cls (n : nat) (m : mask) : mask :=
  replicate (n + 1) zero_bias :: ((λ row, zero_bias :: row) <$> m).


Module RAttention.
Import Torch.

Record config : Type := {
  enable_rpe : bool;
  rpe_ratio : Float64.float;
  token_num : option nat;
  casual_attn_1d : bool;
  casual_attn_2d : bool;
  use_cls_token : bool;
}.

(** The module after construction; [casual_mask = None] stands for an
    attribute that was never assigned. *)
Record t : Type := {
  base : Attention;
  cfg : config;
  casual_mask : option mask;
}.

(** [H = token_num ** 0.5] is a float, and the constructor never rounds
    it to an integer: [x_pos = flat_patch_pos // H] and
    [y_pos = flat_patch_pos % H] are float tensors, and [row * H + col] is
    a float.  [H] is the real root of [token_num] (exact real arithmetic
    stands for the float computation), and the three integers that the
    constructor takes with [int(...)] are computed exactly.  For a
    position [p] and [x = p // H]:
    - [int(x)] is the integer part of [p / H];
    - [int(y)], for [y = p % H = p - x * H], is [p] minus the least
      integer that is not below [x * H];
    - [int(row * H + col)] is [col] plus the integer part of [row * H].
    [k * H] is the root of [k * k * token_num]: [Nat.sqrt] is its integer
    part and [Nat.sqrt_up] the least integer not below it (the lemmas
    [int_floordiv_root_spec], [int_mod_root_spec] and
    [int_mul_root_add_spec] of [Root_facts] state the three integers over
    [R]).  On a square grid, [token_num = H * H], they are [p / H],
    [p mod H] and [row * H + col]. *)
Definition int_floordiv_root (p token_num : nat) : nat :=
  Nat.sqrt (p * p / token_num).

Definition int_mod_root (p token_num : nat) : nat :=
  let x := int_floordiv_root p token_num in
  p - Nat.sqrt_up (x * x * token_num).

Definition int_mul_root_add (row token_num col : nat) : nat :=
  Nat.sqrt (row * row * token_num) + col.

(** Lines 336-348; [x_pos] and [y_pos] hold the integers [int(x)] and
    [int(y)] of the loop. *)
Definition total_visible_pos (token_num : nat) : list (list nat) :=
  let flat_patch_pos := arange token_num in
  let x_pos := (λ p, int_floordiv_root p token_num) <$> flat_patch_pos in
  let y_pos := (λ p, int_mod_root p token_num) <$> flat_patch_pos in
  zip_with (λ x y,
      row ← seq 0 (x + 1);
      col ← seq 0 (y + 1);
      [int_mul_root_add row token_num col])
    x_pos y_pos.

Definition casual_mask_2d (token_num : nat) : result mask :=
  assign_rows (full token_num token_num neg_inf) (total_visible_pos token_num).

(** [__init__]; [b] is the module as the parent constructor leaves it. *)
Definition init (b : Attention) (c : config) : result t :=
  if casual_attn_2d c then
    match token_num c with
    | None => Raise AssertionError            (* assert token_num != None *)
    | Some n =>
        do m <- casual_mask_2d n;
        if use_cls_token c
        then Ok {| base := b; cfg := c; casual_mask := Some (pad_cls n m) |}
        else Ok {| base := b; cfg := c; casual_mask := Some m |}
    end
  else if casual_attn_1d c then
    match token_num c with
    | None => Raise TypeError                 (* torch.ones(None, None) *)
    | Some n =>
        let casual_mask := create_causal_mask n in   (* a local variable *)
        if use_cls_token c
        then Ok {| base := b; cfg := c;
                   casual_mask := Some (pad_cls n casual_mask) |}
        else Ok {| base := b; cfg := c; casual_mask := None |}
    end
  else Ok {| base := b; cfg := c; casual_mask := None |}.

(** [rpe_dim = int(self.rpe_ratio * C // self.num_heads)]: the product
    [self.rpe_ratio * C] is a float, [//] is the floor division of floats
    and [int] truncates its result. *)
Definition rpe_dim (self : t) (C : nat) : result Z :=
  do c <- Float64.of_int (Z.of_nat C);
  do h <- Float64.of_int (Z.of_nat (num_heads (base self)));
  do d <- Float64.floordiv (Float64.mul (rpe_ratio (cfg self)) c) h;
  Float64.to_int d.

(** Lines 375-376: projection and split into [q], [k], [v]. *)
Definition projected_qkv (self : t) (B N C : nat) (x : tensor R)
  : result (tensor R * tensor R * tensor R) :=
  do qkv <- project_qkv (base self) B N C x;
  do qkv <- permute qkv [2; 0; 1; 3; 4];
  do q <- select0 qkv 0;
  do k <- select0 qkv 1;
  do v <- select0 qkv 2;
  Ok (q, k, v).

(** Lines 375-381: projection, split and partial rotation. *)
Definition rotated_qkv (self : t) (B N C : nat) (x : tensor R)
    (freqs_cis : tensor complex) : result (tensor R * tensor R * tensor R) :=
  do ' (q, k, v) <- projected_qkv self B N C x;
  do rpe_dim <- rpe_dim self C;
  do ' (q, k) <-
    (if decide (0 < rpe_dim)%Z
     then rotate_prefix rpe_dim q k freqs_cis
     else Ok (q, k));
  Ok (q, k, v).

(** Lines 383-387: the scaled scores, before any mask. *)
Definition forward_scores (self : t) (B N C : nat) (x : tensor R)
    (freqs_cis : tensor complex) : result (tensor R * tensor R) :=
  do ' (q, k, v) <- rotated_qkv self B N C x freqs_cis;
  do q <- transpose q 1 2;
  do k <- transpose k 1 2;
  do v <- transpose v 1 2;
  do attn <- scores (base self) q k;
  Ok (attn, v).

(** Lines 388-389:
    [attn = attn + self.casual_mask.unsqueeze(0).unsqueeze(0)]. *)
Definition add_casual_mask (self : t) (attn : tensor R)
  : result (tensor (option R)) :=
  if casual_attn_2d (cfg self) || casual_attn_1d (cfg self) then
    match casual_mask self with
    | None => Raise AttributeError_casual_mask
    | Some m =>
        map2 add_mask_val attn (unsqueeze0 (unsqueeze0 (of_rows zero_bias m)))
    end
  else Ok (map1 Some attn).

Definition forward (self : t) (x : tensor R) (freqs_cis : tensor complex)
  : result (tensor R) :=
  match shape x with
  | [B; N; C] =>
      if enable_rpe (cfg self) then
        do ' (attn, v) <- forward_scores self B N C x freqs_cis;
        do attn <- add_casual_mask self attn;
        attend (base self) B N C attn v
      else Attention_forward (base self) x
  | _ => Raise ValueError                    (* the unpacking of the shape *)
  end.

(** The visibility rule of the claim. *)
Definition sees (H i j : nat) : bool :=
  bool_decide (j / H ≤ i / H) && bool_decide (j mod H ≤ i mod H).

End RAttention.

(** [int(n * ratio)] for the integer [n] and the float [ratio]: [n] is
    converted to a float, the product is rounded to a float and truncated
    towards zero. *)
Definition int_mul (n : nat) (ratio : Float64.float) : result Z :=
  do x <- Float64.of_int (Z.of_nat n);
  Float64.to_int (Float64.mul x ratio).

(** ** GQA (lines 766-847) *)

(** What [GQA.scaled_dot_product_attention] tests before it picks a
    kernel. *)
Record runtime : Type := {
  FlashAttention2Available : bool;
  device_is_cuda : bool;
  dtype_is_half : bool;                (* torch.float16 or torch.bfloat16 *)
}.

Section Kernels.
Import Torch.

(** The bias of [is_causal=True]: key [j] is hidden from query [i] when
    [j > i]. *)
Definition causal_bias (L S : nat) : tensor mask_val :=
  {| shape := [L; S];
     get := λ idx,
       if decide (default 0 (idx !! 1) ≤ default 0 (idx !! 0))
       then zero_bias else neg_inf |}.

(** [torch.nn.functional.scaled_dot_product_attention(q, k, v,
    attn_mask, dropout_p=0.0, scale, is_causal)], a library function,
    after its documentation: [softmax(q @ k^T * scale + bias) @ v] with
    the layout (B, heads, L, E). *)
Definition F_scaled_dot_product_attention (q k v : tensor R)
    (attn_mask : option (tensor mask_val)) (scale : R) (is_causal : bool)
  : result (tensor R) :=
  let r := length (shape q) in
  if decide (2 ≤ r ∧ 2 ≤ length (shape k)) then
    do kt <- transpose k (length (shape k) - 2) (length (shape k) - 1);
    do attn <- matmul q kt;
    let attn := map1 (λ a, (a * scale)%R) attn in
    let L := default 0 (shape q !! (r - 2)) in
    let S := default 0 (shape k !! (length (shape k) - 2)) in
    do attn <-
      (if is_causal then map2 add_mask_val attn (causal_bias L S)
       else match attn_mask with
            | Some m => map2 add_mask_val attn m
            | None => Ok (map1 Some attn)
            end);
    matmul (softmax attn) v
  else Raise RuntimeError_matmul.

(** [flash_attn.flash_attn_func(q, k, v, dropout_p=0.0, softmax_scale,
    causal)], a library function, after its documentation: the same
    attention on the layout (B, T, heads, E). *)
Definition flash_attn_func (q k v : tensor R) (softmax_scale : R)
    (causal : bool) : result (tensor R) :=
  do q <- transpose q 1 2;
  do k <- transpose k 1 2;
  do v <- transpose v 1 2;
  do y <- F_scaled_dot_product_attention q k v None softmax_scale causal;
  transpose y 1 2.

End Kernels.

Module GQA.
Import Torch.

Record t : Type := {
  num_heads : nat;
  query_groups : nat;
  head_dim : nat;
  rpe_ratio : Float64.float;
  scale : R;
  qkv : Linear;
  proj : Linear;
}.

(** [head_dim ** -0.5]: [0 ** -0.5] raises [ZeroDivisionError]. *)
Definition pow_minus_half (head_dim : nat) : result R :=
  if decide (head_dim = 0) then Raise ZeroDivisionError
  else Ok (Rpower (INR head_dim) (- (1 / 2))).

(** [qk_scale or head_dim ** -0.5]: the power is evaluated when
    [qk_scale] is [None] or [0.]. *)
Definition qk_scale_or (qk_scale : option R) (head_dim : nat) : result R :=
  match qk_scale with
  | Some s => if Req_dec_T s 0 then pow_minus_half head_dim else Ok s
  | None => pow_minus_half head_dim
  end.

(** [__init__]; the weights of the two linear layers are arguments. *)
Definition init (dim num_heads : nat) (qk_scale : option R)
    (rpe_ratio : Float64.float)
    (query_groups : nat)
    (qkv_weight proj_weight : nat → nat → R) (qkv_bias proj_bias : nat → R)
  : result t :=
  if decide (num_heads = 0) then Raise ZeroDivisionError
  else
    let head_dim := dim / num_heads in
    do scale <- qk_scale_or qk_scale head_dim;
    let shape := (num_heads + 2 * query_groups) * head_dim in
    Ok {| num_heads := num_heads;
          query_groups := query_groups;
          head_dim := head_dim;
          rpe_ratio := rpe_ratio;
          scale := scale;
          qkv := {| in_features := dim; out_features := shape;
                    weight := qkv_weight; bias := qkv_bias |};
          proj := {| in_features := dim; out_features := dim;
                     weight := proj_weight; bias := proj_bias |} |}.

(** Lines 826-847. *)
Definition scaled_dot_product_attention (rt : runtime) (self : t)
    (q k v : tensor R) (mask : option (tensor mask_val)) : result (tensor R) :=
  do scale <- pow_minus_half (head_dim self);
  if FlashAttention2Available rt && bool_decide (mask = None)
     && device_is_cuda rt && dtype_is_half rt
  then
    do q <- transpose q 1 2;
    do k <- transpose k 1 2;
    do v <- transpose v 1 2;
    flash_attn_func q k v scale false
  else
    do y <- F_scaled_dot_product_attention q k v mask scale
              (bool_decide (mask = None));
    transpose y 1 2.

(** Lines 793-812: projection and split into query, key and value
    heads. *)
Definition projected_qkv (self : t) (B T : nat) (x : tensor R)
  : result (tensor R * tensor R * tensor R) :=
  do qkv <- linear (qkv self) x;
  if decide (query_groups self = 0) then Raise ZeroDivisionError
  else
    let q_per_kv := num_heads self / query_groups self in
    let total_qkv := q_per_kv + 2 in
    do qkv <- reshape qkv [B; T; query_groups self; total_qkv; head_dim self];
    do qkv <- permute qkv [0; 2; 3; 1; 4];
    do ' (q, k, v) <- split3 qkv q_per_kv 1 1 2;
    do ' (k, v) <-
      (if decide (query_groups self ≠ 1) then
         do k <- expand k [B; query_groups self; q_per_kv; T; head_dim self];
         do v <- expand v [B; query_groups self; q_per_kv; T; head_dim self];
         Ok (k, v)
       else Ok (k, v));
    do q <- reshape_infer q [B] [T; head_dim self];
    do k <- reshape_infer k [B] [T; head_dim self];
    do v <- reshape_infer v [B] [T; head_dim self];
    Ok (q, k, v).

(** [rope_dim = int(self.head_dim * self.rpe_ratio)] *)
Definition rope_dim (self : t) : result Z :=
  int_mul (head_dim self) (rpe_ratio self).

(** Lines 793-817: projection, split and partial rotation. *)
Definition rotated_qkv (self : t) (B T : nat) (x : tensor R)
    (freqs_cis : tensor complex) : result (tensor R * tensor R * tensor R) :=
  do ' (q, k, v) <- projected_qkv self B T x;
  do rope_dim <- rope_dim self;
  do ' (q, k) <- rotate_prefix rope_dim q k freqs_cis;
  Ok (q, k, v).

Definition forward (rt : runtime) (self : t) (x : tensor R)
    (freqs_cis : tensor complex) : result (tensor R) :=
  match shape x with
  | [B; T; C] =>
      do ' (q, k, v) <- rotated_qkv self B T x freqs_cis;
      do y <- scaled_dot_product_attention rt self q k v None;
      do y <- reshape y [B; T; C];
      linear (proj self) y
  | _ => Raise ValueError                    (* the unpacking of the shape *)
  end.

End GQA.

(** ** The lazily built frequency tables of the pyramid attention
    modules (lines 431-442, 527-535, 615-640)

    A cached table is the value of the [precompute_...] call that built it;
    [t.shape[0]] is the number of its rows.  The function [refresh] of each
    module is the opening part of its [forward]: it returns the module with
    the attributes as that part leaves them, and [Raise] when a statement of
    it raises (the attributes assigned before stay assigned). *)

(** A table width handed to [torch.arange(0, dim, 4)]. *)
Definition arange_bound (dim : Z) : result nat :=
  if decide (dim < 0)%Z then Raise RuntimeError_arange else Ok (Z.to_nat dim).

Module MHSAttention.

Record t : Type := {
  dim : nat;
  num_heads : nat;
  rpe_ratio : Float64.float;
  use_cls_token : bool;
  freqs_cis : option (list (list complex));
}.

Definition set_freqs_cis (self : t) (tbl : list (list complex)) : t :=
  {| dim := dim self; num_heads := num_heads self; rpe_ratio := rpe_ratio self;
     use_cls_token := use_cls_token self; freqs_cis := Some tbl |}.

(** [precompute_freqs_cis_2d(int(self.dim // self.num_heads *
    self.rpe_ratio), N, use_cls=self.use_cls_token)] *)
Definition table (self : t) (N : nat) : result (list (list complex)) :=
  do d <- int_mul (dim self / num_heads self) (rpe_ratio self);
  do d <- arange_bound d;
  precompute_freqs_cis_2d d N 10000 1 (use_cls_token self) (-1).

Definition refresh (self : t) (N : nat) : t * result unit :=
  match freqs_cis self with
  | None =>
      match table self N with
      | Ok tbl => (set_freqs_cis self tbl, Ok ())
      | Raise e => (self, Raise e)
      end
  | Some cached =>
      if decide (N ≠ length cached) then
        match table self N with
        | Ok tbl => (set_freqs_cis self tbl, Ok ())
        | Raise e => (self, Raise e)
        end
      else (self, Ok ())
  end.

(** The module after forward calls with the token counts [Ns], in order. *)
Definition run (self : t) (Ns : list nat) : t :=
  foldl (λ s N, (refresh s N).1) self Ns.

(** Lines 446-466 of [forward], for [x] of shape [(B, N, C)]:
    [x.view(B, H, W, C)], the projection by the layer [self.qkv], the split
    and [q.reshape(B * self.num_heads, -1, C // self.num_heads)] (and the
    same for [k] and [v]). *)
Definition projected_qkv (self : t) (qkv : Torch.Linear) (B N C H W : nat)
    (x : Torch.tensor R)
  : result (Torch.tensor R * Torch.tensor R * Torch.tensor R) :=
  do x <- Torch.reshape x [B; H; W; C];
  do qkv <- Torch.linear qkv x;
  if decide (num_heads self = 0) then Raise ZeroDivisionError
  else
    let nh := num_heads self in
    do qkv <- Torch.reshape qkv [B; H * W; 3; nh; C / nh];
    do qkv <- Torch.permute qkv [2; 0; 1; 3; 4];
    do q <- Torch.select0 qkv 0;
    do k <- Torch.select0 qkv 1;
    do v <- Torch.select0 qkv 2;
    do q <- Torch.reshape_infer q [B * nh] [C / nh];
    do k <- Torch.reshape_infer k [B * nh] [C / nh];
    do v <- Torch.reshape_infer v [B * nh] [C / nh];
    Ok (q, k, v).

End MHSAttention.

Module GroupAttention.

Record t : Type := {
  dim : nat;
  num_heads : nat;
  ws : nat;
  rpe_ratio : Float64.float;
  use_cls_token : bool;
  freqs_cis : option (list (list complex));
}.

Definition set_freqs_cis (self : t) (tbl : list (list complex)) : t :=
  {| dim := dim self; num_heads := num_heads self; ws := ws self;
     rpe_ratio := rpe_ratio self; use_cls_token := use_cls_token self;
     freqs_cis := Some tbl |}.

(** [precompute_freqs_cis_2d(int(self.dim // self.num_heads *
    self.rpe_ratio), self.ws * self.ws, use_cls=self.use_cls_token)] *)
Definition table (self : t) : result (list (list complex)) :=
  do d <- int_mul (dim self / num_heads self) (rpe_ratio self);
  do d <- arange_bound d;
  precompute_freqs_cis_2d d (ws self * ws self) 10000 1 (use_cls_token self) (-1).

Definition refresh (self : t) (N : nat) : t * result unit :=
  match freqs_cis self with
  | None =>
      match table self with
      | Ok tbl => (set_freqs_cis self tbl, Ok ())
      | Raise e => (self, Raise e)
      end
  | Some cached =>
      if decide (N ≠ length cached) then
        match table self with
        | Ok tbl => (set_freqs_cis self tbl, Ok ())
        | Raise e => (self, Raise e)
        end
      else (self, Ok ())
  end.

(** The module after forward calls with the token counts [Ns], in order. *)
Definition run (self : t) (Ns : list nat) : t :=
  foldl (λ s N, (refresh s N).1) self Ns.

(** Lines 539-540: [pad_r = (self.ws - W % self.ws) % self.ws] and the
    same for [pad_b] with [H]; [n] is [W] or [H]. *)
Definition pad (self : t) (n : nat) : result nat :=
  if decide (ws self = 0) then Raise ZeroDivisionError
  else Ok ((ws self - n mod ws self) mod ws self).

End GroupAttention.

Module GSAttention.

Record t : Type := {
  dim : nat;
  num_heads : nat;
  sr_ratio : nat;
  rpe_ratio : Float64.float;
  use_cls_token : bool;
  auto_scale : bool;
  use_ntk : option R;                   (* [None] is [False] *)
  casual_attn : bool;
  q_freqs_cis : option (list (list complex));
  k_freqs_cis : option (list (list complex));
}.

Definition set_q_freqs_cis (self : t) (tbl : list (list complex)) : t :=
  {| dim := dim self; num_heads := num_heads self; sr_ratio := sr_ratio self;
     rpe_ratio := rpe_ratio self; use_cls_token := use_cls_token self;
     auto_scale := auto_scale self; use_ntk := use_ntk self;
     casual_attn := casual_attn self;
     q_freqs_cis := Some tbl; k_freqs_cis := k_freqs_cis self |}.

Definition set_k_freqs_cis (self : t) (tbl : list (list complex)) : t :=
  {| dim := dim self; num_heads := num_heads self; sr_ratio := sr_ratio self;
     rpe_ratio := rpe_ratio self; use_cls_token := use_cls_token self;
     auto_scale := auto_scale self; use_ntk := use_ntk self;
     casual_attn := casual_attn self;
     q_freqs_cis := q_freqs_cis self; k_freqs_cis := Some tbl |}.

(** [rpe_dim = int(self.dim // self.num_heads * self.rpe_ratio)] *)
Definition rpe_dim (self : t) : result Z :=
  int_mul (dim self / num_heads self) (rpe_ratio self).

(** Lines 619-626: [scale] and [theta]. *)
Definition scale_theta (self : t) (H : nat) (base_size : R) : result (R * R) :=
  do scale <-
    (if auto_scale self
     then if decide (H = 0) then Raise ZeroDivisionError
          else Ok (base_size / INR H)%R
     else Ok 1%R);
  match use_ntk self with
  | Some factor => Ok (1%R, (10000 * factor)%R)
  | None => Ok (scale, 10000%R)
  end.

(** [precompute_freqs_cis_2d_general(rpe_dim, N, W=W, theta=theta,
    use_cls=self.use_cls_token, scale=scale)] *)
Definition q_table (self : t) (rpe_dim : Z) (N W : nat) (theta scale : R)
  : result (list (list complex)) :=
  do d <- arange_bound rpe_dim;
  precompute_freqs_cis_2d_general d N 1 W 0 theta scale (use_cls_token self).

(** [precompute_freqs_cis_2d_general(rpe_dim, N_reduce, W=W,
    step=self.sr_ratio, bias=1.0 - 1.0 / self.sr_ratio,
    use_cls=self.use_cls_token, scale=scale)]; [theta] is the default. *)
Definition k_table (self : t) (rpe_dim : Z) (N_reduce W : nat) (scale : R)
  : result (list (list complex)) :=
  do d <- arange_bound rpe_dim;
  precompute_freqs_cis_2d_general d N_reduce (Z.of_nat (sr_ratio self)) W
    (1 - 1 / INR (sr_ratio self)) 10000 scale (use_cls_token self).

(** Lines 628-632. *)
Definition refresh_q (self : t) (rpe_dim : Z) (N W : nat) (theta scale : R)
  : t * result unit :=
  if bool_decide (q_freqs_cis self = None) && bool_decide (0 < rpe_dim)%Z
  then
    match q_table self rpe_dim N W theta scale with
    | Ok tbl => (set_q_freqs_cis self tbl, Ok ())
    | Raise e => (self, Raise e)
    end
  else
    match q_freqs_cis self with
    | None => (self, Raise AttributeError_None_shape)
    | Some cached =>
        if decide (N ≠ length cached) then
          match q_table self rpe_dim N W theta scale with
          | Ok tbl => (set_q_freqs_cis self tbl, Ok ())
          | Raise e => (self, Raise e)
          end
        else (self, Ok ())
    end.

(** Lines 634-640. *)
Definition refresh_k (self : t) (rpe_dim : Z) (N N_reduce W : nat) (scale : R)
  : t * result unit :=
  if bool_decide (k_freqs_cis self = None) && bool_decide (0 < rpe_dim)%Z
  then
    match k_table self rpe_dim N_reduce W scale with
    | Ok tbl => (set_k_freqs_cis self tbl, Ok ())
    | Raise e => (self, Raise e)
    end
  else
    match k_freqs_cis self with
    | None => (self, Raise AttributeError_None_shape)
    | Some cached =>
        if decide (N / sr_ratio self ^ 2 ≠ length cached) then
          match k_table self rpe_dim N_reduce W scale with
          | Ok tbl => (set_k_freqs_cis self tbl, Ok ())
          | Raise e => (self, Raise e)
          end
        else (self, Ok ())
    end.

(** Lines 616-640 of [forward(x, H, W, base_size)] for [x] with [N]
    tokens. *)
Definition refresh (self : t) (N H W : nat) (base_size : R) : t * result unit :=
  if decide (sr_ratio self = 0) then (self, Raise ZeroDivisionError)
  else
    let N_reduce := H * W / sr_ratio self / sr_ratio self in
    match rpe_dim self with
    | Raise e => (self, Raise e)
    | Ok rpe_dim =>
        match scale_theta self H base_size with
        | Raise e => (self, Raise e)
        | Ok (scale, theta) =>
            match refresh_q self rpe_dim N W theta scale with
            | (self, Raise e) => (self, Raise e)
            | (self, Ok _) => refresh_k self rpe_dim N N_reduce W scale
            end
        end
    end.

End GSAttention.

(** ** find_multiple and LLaMAMLP (lines 100-120) *)

(** [n % k] on Python integers has the sign of the divisor, as
    [Z.modulo]; a zero divisor raises. *)
Definition find_multiple (n k : Z) : result Z :=
  if decide (k = 0)%Z then Raise ZeroDivisionError
  else if decide (n `mod` k = 0)%Z then Ok n
  else Ok (n + k - n `mod` k)%Z.

(** [int(x)] for a quotient [x] of integers, kept exact: truncation
    towards zero. *)
Definition int_of (x : Q) : Z := (Qnum x ÷ Z.pos (Qden x))%Z.

(** [F.silu(x) = x * sigmoid(x)] *)
Definition silu (x : R) : R := (x * (1 / (1 + exp (- x))))%R.

Module LLaMAMLP.
Import Torch.

Record t : Type := {
  c_fc1 : Linear;
  c_fc2 : Linear;
  c_proj : Linear;
}.

(** Lines 109-112; [2 * hidden_dim / 3] is a float division. *)
Definition n_hidden (in_features : nat) : result Z :=
  let n_embd := Z.of_nat in_features in
  let hidden_dim := (4 * n_embd)%Z in
  let n_hidden := int_of (inject_Z (2 * hidden_dim) / inject_Z 3) in
  find_multiple n_hidden 256.

(** [__init__]; the weights of the three layers are arguments, and
    [bias=False] is the bias 0.  The arguments [hidden_features],
    [out_features], [act_layer] and [drop] are not read. *)
Definition init (in_features : nat) (w1 w2 w3 : nat → nat → R) : result t :=
  do h <- n_hidden in_features;
  let h := Z.to_nat h in
  Ok {| c_fc1 := {| in_features := in_features; out_features := h;
                    weight := w1; bias := λ _, 0%R |};
        c_fc2 := {| in_features := in_features; out_features := h;
                    weight := w2; bias := λ _, 0%R |};
        c_proj := {| in_features := h; out_features := in_features;
                     weight := w3; bias := λ _, 0%R |} |}.

Definition forward (self : t) (x : tensor R) : result (tensor R) :=
  do a <- linear (c_fc1 self) x;
  do b <- linear (c_fc2 self) x;
  do x <- map2 Rmult (map1 silu a) b;
  linear (c_proj self) x.

End LLaMAMLP.

(** ** RMSNorm (lines 73-84) *)

(** [torch.rsqrt(y)], for [y > 0]. *)
Definition rsqrt (y : R) : R := (1 / sqrt y)%R.

Module RMSNorm.
Import Torch.

Record t : Type := {
  eps : R;
  weight : tensor R;
}.

(** [self.weight = nn.Parameter(torch.ones(dim))] *)
Definition init (dim : nat) (eps : R) : t :=
  {| eps := eps; weight := {| shape := [dim]; get := λ _, 1%R |} |}.

(** [x.pow(2).mean(-1, keepdim=True)]; a tensor without dimensions is
    its own mean. *)
Definition pow2_mean (x : tensor R) : tensor R :=
  match shape x with
  | [] => {| shape := []; get := λ idx, (get x idx * get x idx)%R |}
  | _ =>
      {| shape := map_last (λ _, 1) (shape x);
         get := λ idx,
           (sum_n (λ c, (get x (map_last (λ _, c) idx)
                         * get x (map_last (λ _, c) idx))%R)
              (last_dim (shape x))
            / INR (last_dim (shape x)))%R |}
  end.

Definition _norm (self : t) (x : tensor R) : result (tensor R) :=
  map2 Rmult x (map1 (λ m, rsqrt (m + eps self)) (pow2_mean x)).

Definition forward (self : t) (x : tensor R) : result (tensor R) :=
  do output <- _norm self x;
  map2 Rmult output (weight self).

End RMSNorm.

(** ** LAMABlock (lines 140-163)

    The attributes of a constructed block: the two norms (the default
    [norm_layer] of the class is [RMSNorm]), the attention [RAttention] of
    [RBlockRMSNorm.__init__], the [LLaMAMLP] that [LAMABlock.__init__] puts in
    place of the inherited one, and the two layer scales of
    [LSRBlockRMSNorm.__init__].  [forward] is the one of [LSRBlockRMSNorm]
    (lines 150-153); [drop_path] is the identity (rate 0, or evaluation
    mode). *)

Module LAMABlock.
Import Torch.

Record t : Type := {
  norm1 : RMSNorm.t;
  attn : RAttention.t;
  norm2 : RMSNorm.t;
  mlp : LLaMAMLP.t;
  gamma_1 : tensor R;
  gamma_2 : tensor R;
}.

Definition forward (self : t) (x : tensor R) (freqs_cis : tensor complex)
  : result (tensor R) :=
  do h <- RMSNorm.forward (norm1 self) x;
  do a <- RAttention.forward (attn self) h freqs_cis;
  do a <- map2 Rmult (gamma_1 self) a;
  do x <- map2 Rplus x a;
  do h <- RMSNorm.forward (norm2 self) x;
  do m <- LLaMAMLP.forward (mlp self) h;
  do m <- map2 Rmult (gamma_2 self) m;
  map2 Rplus x m.


End LAMABlock.

(** ** VisionTransformerRotate: the shared 1D table (lines 908-953)

    The attributes the table depends on, and the table.  [forward_table]
    is the part of [forward_features] that builds the table and slices it
    for the blocks (lines 916-925); it comes after the patch embedding, an
    external module. *)

Module VisionTransformerRotate.

Record t : Type := {
  embed_dim : nat;
  num_heads : nat;
  num_patches : nat;                     (* self.patch_embed.num_patches *)
  scale : R;
  freqs_cis : option (list (list complex));
}.

Definition set_scale (self : t) (s : R) : t :=
  {| embed_dim := embed_dim self; num_heads := num_heads self;
     num_patches := num_patches self; scale := s;
     freqs_cis := freqs_cis self |}.

Definition set_freqs_cis (self : t) (tbl : list (list complex)) : t :=
  {| embed_dim := embed_dim self; num_heads := num_heads self;
     num_patches := num_patches self; scale := scale self;
     freqs_cis := Some tbl |}.

(** [precompute_freqs_cis(self.embed_dim // self.num_heads,
    self.patch_embed.num_patches * 2, scale=scale, theta=theta)] *)
Definition table (self : t) (theta scale : R) : result (list (list complex)) :=
  if decide (num_heads self = 0) then Raise ZeroDivisionError
  else Ok (precompute_freqs_cis (embed_dim self / num_heads self)
             (num_patches self * 2) theta scale).

(** Lines 916-925; the result is [self.freqs_cis[0:num_patches, :]]. *)
Definition forward_table (self : t) : t * result (list (list complex)) :=
  match freqs_cis self with
  | None =>
      match table self 10000 (scale self) with
      | Ok tbl => (set_freqs_cis self tbl, Ok (take (num_patches self) tbl))
      | Raise e => (self, Raise e)
      end
  | Some tbl => (self, Ok (take (num_patches self) tbl))
  end.

Definition reset_scale (self : t) (s : R) : t * result unit :=
  let self := set_scale self s in
  match freqs_cis self with
  | Some _ =>
      match table self 10000 s with
      | Ok tbl => (set_freqs_cis self tbl, Ok ())
      | Raise e => (self, Raise e)
      end
  | None => (self, Ok ())
  end.

(** [theta * ((factor * scale) - (factor - 1)) ** (embed_dim /
    (embed_dim - 2))]: the division is the one of two integers (it raises
    for a divisor 0), and [x ** y] is [Rpower x y], its value for
    [x > 0]. *)
Definition reset_ntk_scale (self : t) (s factor : R) : t * result unit :=
  let self := set_scale self s in
  if decide (num_heads self = 0) then (self, Raise ZeroDivisionError)
  else
    let embed_dim := embed_dim self / num_heads self in
    if decide (embed_dim = 2) then (self, Raise ZeroDivisionError)
    else
      let theta :=
        (10000 * Rpower (factor * s - (factor - 1))
                   (INR embed_dim / (INR embed_dim - 2)))%R in
      match freqs_cis self with
      | Some _ =>
          match table self theta 1 with
          | Ok tbl => (set_freqs_cis self tbl, Ok ())
          | Raise e => (self, Raise e)
          end
      | None => (self, Ok ())
      end.

(** A call of one of the three methods, and the module after a sequence
    of calls. *)
Inductive call : Type :=
  | Forward
  | ResetScale (s : R)
  | ResetNtkScale (s factor : R).

Definition step (self : t) (c : call) : t :=
  match c with
  | Forward => (forward_table self).1
  | ResetScale s => (reset_scale self s).1
  | ResetNtkScale s factor => (reset_ntk_scale self s factor).1
  end.

Definition run (self : t) (calls : list call) : t := foldl step self calls.

Definition is_ntk (c : call) : bool :=
  match c with ResetNtkScale _ _ => true | _ => false end.

(** No call of [reset_ntk_scale] among [calls]. *)
Definition no_ntk (calls : list call) : bool :=
  forallb (λ c, negb (is_ntk c)) calls.

(** The module [s] has the configuration of [s0], and its table, when
    there is one, is the table of its scale. *)
Definition cache_inv (s0 s : t) : Prop :=
  embed_dim s = embed_dim s0 ∧ num_heads s = num_heads s0 ∧
  num_patches s = num_patches s0 ∧
  (freqs_cis s = None ∨
   freqs_cis s
   = Some (precompute_freqs_cis (embed_dim s0 / num_heads s0)
             (num_patches s0 * 2) 10000 (scale s))).

End VisionTransformerRotate.

(** ** VisionLLaMA: the shared 2D table (lines 1016-1078) *)

Module VisionLLaMA.

Record t : Type := {
  embed_dim : nat;
  num_heads : nat;
  num_patches : nat;
  share_rpe : bool;
  rpe_ratio : Float64.float;
  use_cls_token : bool;
  theta : R;
  auto_scale : bool;
  cls_pos : Z;
  scale : R;
  freqs_cis : option (list (list complex));
}.

Definition set_scale (self : t) (s : R) : t :=
  {| embed_dim := embed_dim self; num_heads := num_heads self;
     num_patches := num_patches self; share_rpe := share_rpe self;
     rpe_ratio := rpe_ratio self; use_cls_token := use_cls_token self;
     theta := theta self; auto_scale := auto_scale self;
     cls_pos := cls_pos self; scale := s; freqs_cis := freqs_cis self |}.

Definition set_freqs_cis (self : t) (tbl : list (list complex)) : t :=
  {| embed_dim := embed_dim self; num_heads := num_heads self;
     num_patches := num_patches self; share_rpe := share_rpe self;
     rpe_ratio := rpe_ratio self; use_cls_token := use_cls_token self;
     theta := theta self; auto_scale := auto_scale self;
     cls_pos := cls_pos self; scale := scale self; freqs_cis := Some tbl |}.

(** [precompute_freqs_cis_2d(int(self.embed_dim // self.num_heads *
    self.rpe_ratio), self.patch_embed.num_patches, ...)] when [share_rpe],
    and with [int(self.embed_dim * self.rpe_ratio)] otherwise. *)
Definition table (self : t) (scale : R) (cls_pos : Z)
  : result (list (list complex)) :=
  do d <-
    (if share_rpe self
     then if decide (num_heads self = 0) then Raise ZeroDivisionError
          else int_mul (embed_dim self / num_heads self) (rpe_ratio self)
     else int_mul (embed_dim self) (rpe_ratio self));
  do d <- arange_bound d;
  precompute_freqs_cis_2d d (num_patches self) (theta self) scale
    (use_cls_token self) cls_pos.

(** Lines 1020-1053 of [forward_features] for an image of height [H]:
    the table is built when there is none, and sliced for the blocks. *)
Definition forward_table (self : t) (H : nat)
  : t * result (list (list complex)) :=
  match (if auto_scale self
         then if decide (H = 0) then Raise ZeroDivisionError
              else Ok (224 / INR H)%R
         else Ok 1%R) with
  | Raise e => (self, Raise e)
  | Ok scale =>
      let n := if use_cls_token self then num_patches self + 1
               else num_patches self in
      match freqs_cis self with
      | None =>
          match table self scale (cls_pos self) with
          | Ok tbl => (set_freqs_cis self tbl, Ok (take n tbl))
          | Raise e => (self, Raise e)
          end
      | Some tbl => (self, Ok (take n tbl))
      end
  end.

(** Lines 1065-1077: the calls of [precompute_freqs_cis_2d] pass neither
    [scale] nor [cls_pos], so the defaults 1.0 and -1 apply. *)
Definition reset_scale (self : t) (s : R) : t * result unit :=
  let self := set_scale self s in
  match freqs_cis self with
  | None =>
      match table self 1 (-1) with
      | Ok tbl => (set_freqs_cis self tbl, Ok ())
      | Raise e => (self, Raise e)
      end
  | Some _ => (self, Ok ())
  end.

(** [reset_ntk_scale] is inherited from [VisionTransformerRotate] (lines
    941-953): it calls the 1D [precompute_freqs_cis]. *)
Definition reset_ntk_scale (self : t) (s factor : R) : t * result unit :=
  let self := set_scale self s in
  if decide (num_heads self = 0) then (self, Raise ZeroDivisionError)
  else
    let embed_dim := embed_dim self / num_heads self in
    if decide (embed_dim = 2) then (self, Raise ZeroDivisionError)
    else
      let theta :=
        (10000 * Rpower (factor * s - (factor - 1))
                   (INR embed_dim / (INR embed_dim - 2)))%R in
      match freqs_cis self with
      | Some _ =>
          (set_freqs_cis self
             (precompute_freqs_cis embed_dim (num_patches self * 2) theta 1),
           Ok ())
      | None => (self, Ok ())
      end.

Inductive call : Type :=
  | Forward (H : nat)
  | ResetScale (s : R)
  | ResetNtkScale (s factor : R).

Definition step (self : t) (c : call) : t :=
  match c with
  | Forward H => (forward_table self H).1
  | ResetScale s => (reset_scale self s).1
  | ResetNtkScale s factor => (reset_ntk_scale self s factor).1
  end.

Definition run (self : t) (calls : list call) : t := foldl step self calls.

Definition is_ntk (c : call) : bool :=
  match c with ResetNtkScale _ _ => true | _ => false end.

(** No call of [reset_ntk_scale] among [calls]. *)
Definition no_ntk (calls : list call) : bool :=
  forallb (λ c, negb (is_ntk c)) calls.

(** The number of rows handed to the blocks (line 1052). *)
Definition rows (self : t) : nat :=
  if use_cls_token self then num_patches self + 1 else num_patches self.

End VisionLLaMA.

(** ** The block classes and the calls that build the blocks
    (lines 87-171, 714-763, 901-906, 1123-1127)

    A constructor call with keyword arguments binds every keyword to the
    parameter of that name; none of the block constructors takes
    [**kwargs], so a keyword that is no parameter raises [TypeError] before
    the body runs.  What the bodies do is not modelled here. *)

Module Blocks.

(** The parameter names of the block constructors. *)
Inductive param : Type :=
  | dim | num_heads | mlp_ratio | qkv_bias | qk_scale | drop | attn_drop
  | drop_path | act_layer | norm_layer | init_values | enable_rpe | rpe_ratio
  | token_num | casual_attn_1d | casual_attn_2d | use_cls_token | sr_ratio
  | ws | auto_scale | use_ntk | casual_attn.

Global Instance param_eq_dec : EqDecision param.
Proof. solve_decision. Defined.

Inductive blk_cls : Type :=
  | RBlock | RBlockRMSNorm | LSRBlockRMSNorm | LAMABlock | LAMABlockNoLS
  | GroupBlock | GroupBlockWoLS.

Global Instance blk_cls_eq_dec : EqDecision blk_cls.
Proof. solve_decision. Defined.

Definition common : list param :=
  [dim; num_heads; mlp_ratio; qkv_bias; qk_scale; drop; attn_drop; drop_path;
   act_layer; norm_layer].

(** The parameters of [__init__], after [self]. *)
Definition parameters (c : blk_cls) : list param :=
  match c with
  | RBlock | LAMABlockNoLS => common ++ [enable_rpe]
  | RBlockRMSNorm =>
      common ++ [enable_rpe; rpe_ratio; token_num; casual_attn_1d;
                 casual_attn_2d; use_cls_token]
  | LSRBlockRMSNorm | LAMABlock =>
      common ++ [init_values; enable_rpe; rpe_ratio; token_num;
                 casual_attn_1d; casual_attn_2d; use_cls_token]
  | GroupBlock =>
      common ++ [init_values; enable_rpe; rpe_ratio; use_cls_token; sr_ratio;
                 ws; auto_scale; use_ntk; casual_attn]
  | GroupBlockWoLS =>
      common ++ [init_values; enable_rpe; rpe_ratio; use_cls_token; sr_ratio;
                 ws; auto_scale]
  end.

(** The parameters without default value. *)
Definition required : list param := [dim; num_heads].

Definition bind (c : blk_cls) (keywords : list param) : result unit :=
  if forallb (λ k, bool_decide (k ∈ parameters c)) keywords
     && forallb (λ k, bool_decide (k ∈ keywords)) required
  then Ok () else Raise TypeError.

(** The keywords of [blk_cls(...)] in [VisionTransformerRotate.__init__]
    (lines 901-905). *)
Definition VisionTransformerRotate_keywords : list param :=
  [dim; num_heads; mlp_ratio; qkv_bias; qk_scale; drop; attn_drop; drop_path;
   norm_layer; enable_rpe; token_num; casual_attn_1d; casual_attn_2d;
   use_cls_token].

(** The keywords of [blk_cls(...)] in [PyramidVisionLLaMA.__init__]
    (lines 1123-1127). *)
Definition PyramidVisionLLaMA_keywords : list param :=
  [dim; num_heads; qkv_bias; qk_scale; drop; attn_drop; drop_path; norm_layer;
   sr_ratio; ws; use_cls_token; rpe_ratio; enable_rpe; auto_scale; use_ntk;
   casual_attn].

(** [[blk_cls(...) for i in range(n)]]: the calls, in order. *)
Fixpoint build (c : blk_cls) (keywords : list param) (n : nat) : result unit :=
  match n with
  | 0 => Ok ()
  | S m => do _ <- bind c keywords; build c keywords m
  end.

End Blocks.

(** ** Specification predicates and sample data *)

(** Channels [r], [r + 1], ... of every vector of [x'] are those of [x],
    and [x'] has the shape of [x]. *)
Definition suffix_untouched (r : nat) (x x' : Torch.tensor R) : Prop :=
  Torch.shape x' = Torch.shape x ∧
  ∀ idx c, r ≤ c → Torch.get x' (idx ++ [c]) = Torch.get x (idx ++ [c]).

(** A frequency table as a rank-2 tensor. *)
Definition as_tensor (rows : list (list complex)) : Torch.tensor complex :=
  Torch.of_rows (A := complex) (0%R, 0%R) rows.

(** The part of the dot product of vector [i] of [u] and vector [j] of
    [v] that comes from the channels [2c] and [2c + 1]. *)
Definition pair_dot (u v : Torch.tensor R) (i j : list nat) (c : nat) : R :=
  let c0 := 2 * c in
  let c1 := 2 * c + 1 in
  (Torch.get u (i ++ [c0]) * Torch.get v (j ++ [c0])
   + Torch.get u (i ++ [c1]) * Torch.get v (j ++ [c1]))%R.

(** Two lists, element by element in turn: the layout of a row of the 2D
    tables (x phasor, y phasor, x phasor, ...). *)
Definition interleave {A} (xs ys : list A) : list A :=
  mjoin (zip_with (λ a b, [a; b]) xs ys).

(** The frequencies of the 2D tables. *)
Definition channels (dim : nat) (theta : R) : list R :=
  (λ a : nat, (1 / Rpower theta (INR a / INR dim))%R)
    <$> take (dim / 4) (arange_step dim 4).

(** Channel [c] of a vector [g] whose first [2 F] channels are rotated,
    pair by pair, by row [n] of the table [f]. *)
Definition rot_val (f : Torch.tensor complex) (F : nat) (g : nat → R)
    (n c : nat) : R :=
  if decide (c < 2 * F) then
    let z := Cmul (g (2 * (c / 2)), g (2 * (c / 2) + 1))
                  (Torch.get f [n; c / 2]) in
    if decide (c mod 2 = 0) then z.1 else z.2
  else g c.

(** Masked softmax attention on queries, keys and values of layout
    (batch, token, head, channel): the score of query [n] and key [j] of
    head [a], the weight that the softmax over the [N] keys gives it, and
    channel [c'] of the concatenated heads at token [n]. *)
Section Masked_attention.
Variables (sc : R) (M : Torch.tensor mask_val) (q k v : Torch.tensor R)
  (N hd : nat).




End Masked_attention.



(** Token [j] is the token [i] itself, or the mask [m] lets the query
    [i] see it. *)
Definition visible (m : mask) (i j : nat) : Prop :=
  j = i ∨ at2 m i j = Some zero_bias.


Module Examples.
Import Torch.

Definition linear_layer (i o : nat) : Linear :=
  {| in_features := i; out_features := o;
     weight := λ r c, INR (r + c); bias := λ r, INR r |}.

Definition attention (heads dim : nat) : Attention :=
  {| num_heads := heads; scale := 1;
     qkv := linear_layer dim (3 * dim); proj := linear_layer dim dim |}.

(** The tensor of shape [s] that holds 0, 1, 2, ... in row-major order. *)
Definition ramp (s : list nat) : tensor R :=
  {| shape := s; get := λ idx, INR (ravel s idx) |}.

Definition zeros (s : list nat) : tensor R :=
  {| shape := s; get := λ _, 0%R |}.

(** The 1D table for [n] positions and rotary width [d], as a tensor. *)
Definition freqs (n d : nat) : tensor complex :=
  of_rows (0%R, 0%R) (precompute_freqs_cis d n 10000 1).

Definition rattention (heads dim : nat) (ratio : Float64.float) (tokens : option nat)
    (c1d c2d cls : bool) : result RAttention.t :=
  RAttention.init (attention heads dim)
    {| RAttention.enable_rpe := true; RAttention.rpe_ratio := ratio;
       RAttention.token_num := tokens; RAttention.casual_attn_1d := c1d;
       RAttention.casual_attn_2d := c2d; RAttention.use_cls_token := cls |}.

Definition gqa (heads groups dim : nat) (ratio : Float64.float) : result GQA.t :=
  GQA.init dim heads None ratio groups
    (λ r c, INR (r + c)) (λ r c, INR (r + c)) (λ r, INR r) (λ r, INR r).

Definition cpu : runtime :=
  {| FlashAttention2Available := false; device_is_cuda := false;
     dtype_is_half := false |}.

Definition cuda_half_no_flash : runtime :=
  {| FlashAttention2Available := false; device_is_cuda := true;
     dtype_is_half := true |}.

Definition cuda_half_flash : runtime :=
  {| FlashAttention2Available := true; device_is_cuda := true;
     dtype_is_half := true |}.

(** The 2D causal mask of a 2 x 2 grid. *)
Definition mask_2x2 : mask :=
  [[zero_bias; neg_inf; neg_inf; neg_inf];
   [zero_bias; zero_bias; neg_inf; neg_inf];
   [zero_bias; neg_inf; zero_bias; neg_inf];
   [zero_bias; zero_bias; zero_bias; zero_bias]].



End Examples.

(** * Properties *)

Section ListFacts.
Context {A B C : Type}.

Lemma lookup_arange n i : i < n → arange n !! i = Some i.
Proof. intros Hi. unfold arange. by rewrite lookup_seq_lt. Qed.

Lemma length_arange n : length (arange n) = n.
Proof. apply length_seq. Qed.

Lemma lookup_full (n m i : nat) (v : A) :
  i < n → full n m v !! i = Some (replicate m v).
Proof. intros Hi. unfold full. by apply lookup_replicate_2. Qed.
End ListFacts.

Lemma is_ok_Ok {A} (m : result A) : is_ok m = true → ∃ a, m = Ok a.
Proof. destruct m as [a|e]; [by exists a|done]. Qed.

Lemma bind_Ok {A B} (m : result A) (f : A → result B) b :
  result_bind m f = Ok b → ∃ a, m = Ok a ∧ f a = Ok b.
Proof. destruct m as [a|e]; [by exists a|done]. Qed.

Module GSAttention_mask_facts.
Import GSAttention_mask.

Lemma lookup_token_visible_num H W sr i :
  i < H * W →
  token_visible_num H W sr !! i = Some (visible_count H sr i).
Proof.
  intros Hi.
  unfold token_visible_num, y_pos, flat_patch_pos_for_y, x_pos,
    origin_x_pos, origin_y_pos, flat_patch_pos.
  rewrite lookup_zip_with, !list_lookup_fmap, lookup_zip_with,
    !list_lookup_fmap, lookup_arange by done.
  reflexivity.
Qed.

Lemma at2_causal_mask H W sr N_reduce i j :
  i < H * W → j < N_reduce →
  at2 (causal_mask H W sr N_reduce) i j =
    Some (if decide (j < visible_count H sr i) then zero_bias else neg_inf).
Proof.
  intros Hi Hj. unfold at2, causal_mask, masked_assign_zero, visible, col_indices.
  rewrite lookup_zip_with, lookup_full, list_lookup_fmap,
    lookup_token_visible_num by done.
  simpl. rewrite lookup_zip_with, lookup_replicate_2, list_lookup_fmap,
    lookup_arange by done.
  simpl. rewrite bool_decide_decide. by destruct (decide _).
Qed.

Lemma length_token_visible_num H W sr :
  length (token_visible_num H W sr) = H * W.
Proof.
  unfold token_visible_num, y_pos, flat_patch_pos_for_y, x_pos,
    origin_x_pos, origin_y_pos, flat_patch_pos.
  rewrite length_zip_with, !length_fmap, length_zip_with, !length_fmap,
    length_arange. lia.
Qed.

Lemma rows_masked_assign_zero (t : mask) (b : list (list bool)) m :
  Forall (λ r, length r = m) t →
  Forall (λ r, length r = m) b →
  Forall (λ r, length r = m) (masked_assign_zero t b).
Proof.
  unfold masked_assign_zero. intros Ht. revert b.
  induction Ht as [|r t Hr Ht IH]; intros [|c b] Hb; simpl; try constructor.
  - inversion_clear Hb as [|? ? Hc Hb']. rewrite length_zip_with. lia.
  - inversion_clear Hb. by apply IH.
Qed.

Lemma shape_causal_mask H W sr N_reduce :
  length (causal_mask H W sr N_reduce) = H * W ∧
  Forall (λ row, length row = N_reduce) (causal_mask H W sr N_reduce).
Proof.
  unfold causal_mask. split.
  - unfold masked_assign_zero, visible, full.
    rewrite length_zip_with, length_replicate, length_fmap,
      length_token_visible_num. lia.
  - apply rows_masked_assign_zero.
    + unfold full. apply Forall_replicate, length_replicate.
    + unfold visible, col_indices. apply Forall_fmap, Forall_true.
      intros t. simpl. by rewrite length_fmap, length_arange.
Qed.

End GSAttention_mask_facts.

(** ** Python floats: values of the operations

    The literal [0.29] is [0x1.28f5c28f5c28fp-2], below 29/100; the
    product [100 * 0.29] is [28.999999999999996]; [1.0 // 0.1] is [9.0];
    [0.1 // -0.03] is [-4.0]; [6 * (1/3)] is [2.0], above the exact
    product. *)
Module Float64_facts.
Import Float64.

Example decimal_0_29 :
  decimal 29 100 = S754_finite false 5224175567749775 (-54).
Proof. reflexivity. Qed.

Example mul_100_0_29 :
  mul (of_Z 100) (decimal 29 100) = S754_finite false 8162774324609023 (-48) ∧
  int_mul 100 (decimal 29 100) = Ok 28%Z.
Proof. split; reflexivity. Qed.

Example mul_6_third :
  mul (of_Z 6) (decimal 1 3) = of_Z 2 ∧
  Qlt (to_Q (decimal 1 3) * 6) 2 ∧
  int_mul 6 (decimal 1 3) = Ok 2%Z.
Proof. split_and!; reflexivity. Qed.

Example floordiv_values :
  floordiv (of_Z 1) (decimal 1 10) = Ok (of_Z 9) ∧
  floordiv (decimal 1 10) (decimal (-3) 100) = Ok (of_Z (-4)) ∧
  floordiv (decimal 7 2) (of_Z 2) = Ok (of_Z 1) ∧
  floordiv (decimal (-7) 2) (of_Z 2) = Ok (of_Z (-2)) ∧
  floordiv (of_Z 1) (of_Z 0) = Raise ZeroDivisionError.
Proof. split_and!; reflexivity. Qed.

Example conversions :
  of_int (2 ^ 53 + 1) = Ok (of_Z (2 ^ 53)) ∧
  of_int (2 ^ 1024 - 1) = Raise OverflowError ∧
  to_int (decimal (-7) 2) = Ok (-3)%Z ∧
  to_int (div (of_Z 1) (of_Z 0)) = Raise OverflowError ∧
  to_int (div (of_Z 0) (of_Z 0)) = Raise ValueError.
Proof. split_and!; by vm_compute. Qed.

(** [int(self.rpe_ratio * C // self.num_heads)] and
    [int(self.head_dim * self.rpe_ratio)] for the ratios 1.0 and 0.5 and
    12 heads of width 64. *)
Example rotary_widths :
  let a := {| num_heads := 12; scale := 1;
              qkv := {| Torch.in_features := 768; Torch.out_features := 2304;
                        Torch.weight := λ _ _, 0%R; Torch.bias := λ _, 0%R |};
              proj := {| Torch.in_features := 768; Torch.out_features := 768;
                         Torch.weight := λ _ _, 0%R; Torch.bias := λ _, 0%R |} |} in
  let r ratio :=
    {| RAttention.base := a;
       RAttention.cfg :=
         {| RAttention.enable_rpe := true; RAttention.rpe_ratio := ratio;
            RAttention.token_num := None;
            RAttention.casual_attn_1d := false;
            RAttention.casual_attn_2d := false;
            RAttention.use_cls_token := false |};
       RAttention.casual_mask := None |} in
  RAttention.rpe_dim (r (of_Z 1)) 768 = Ok 64%Z ∧
  RAttention.rpe_dim (r (decimal 1 2)) 768 = Ok 32%Z ∧
  int_mul 64 (of_Z 1) = Ok 64%Z ∧ int_mul 64 (decimal 1 2) = Ok 32%Z.
Proof. split_and!; by vm_compute. Qed.

End Float64_facts.

(** The integers that [RAttention.__init__] takes from the float root
    [H = token_num ** 0.5]. *)
Module Root_facts.
Import RAttention.

Lemma floordiv_root_bounds p n :
  0 < n →
  let x := int_floordiv_root p n in
  x * x * n ≤ p * p ∧ p * p < (x + 1) * (x + 1) * n.
Proof.
  intros Hn x. unfold x, int_floordiv_root.
  pose proof (Nat.sqrt_spec (p * p / n) ltac:(lia)) as [Hlo Hhi].
  set (k := Nat.sqrt (p * p / n)) in *.
  pose proof (Nat.div_mod_eq (p * p) n) as Hdm.
  pose proof (Nat.mod_upper_bound (p * p) n ltac:(lia)) as Hm.
  replace (S k) with (k + 1) in Hhi by lia.
  split; nia.
Qed.

Lemma sqrt_up_le_of_square a b : a ≤ b * b → Nat.sqrt_up a ≤ b.
Proof. intros H. apply Nat.sqrt_up_le_square; lia. Qed.

(** The three integers stay below the position they are computed from. *)
Lemma mod_root_le p n : 0 < n →
  Nat.sqrt_up (int_floordiv_root p n * int_floordiv_root p n * n) ≤ p.
Proof.
  intros Hn. apply sqrt_up_le_of_square.
  by destruct (floordiv_root_bounds p n Hn).
Qed.

Lemma mul_root_add_le p n row col :
  0 < n → row ≤ int_floordiv_root p n → col ≤ int_mod_root p n →
  int_mul_root_add row n col ≤ p.
Proof.
  intros Hn Hrow Hcol. unfold int_mul_root_add, int_mod_root in *.
  pose proof (mod_root_le p n Hn) as Hm.
  set (x := int_floordiv_root p n) in *.
  pose proof (Nat.le_sqrt_sqrt_up (x * x * n)).
  assert (Nat.sqrt (row * row * n) ≤ Nat.sqrt (x * x * n)).
  { apply Nat.sqrt_le_mono, Nat.mul_le_mono_r, Nat.mul_le_mono; lia. }
  lia.
Qed.

(** On a square grid they are the quotient, the remainder and the flat
    position. *)
Lemma floordiv_root_square p H : 0 < H → int_floordiv_root p (H * H) = p / H.
Proof.
  intros HH. unfold int_floordiv_root. apply Nat.sqrt_unique.
  pose proof (Nat.div_mod_eq p H). pose proof (Nat.mod_upper_bound p H).
  set (q := p / H) in *. split.
  - apply Nat.div_le_lower_bound; [lia|]. nia.
  - apply Nat.Div0.div_lt_upper_bound. nia.
Qed.

Lemma mod_root_square p H : 0 < H → int_mod_root p (H * H) = p mod H.
Proof.
  intros HH. unfold int_mod_root. rewrite floordiv_root_square by done.
  replace (p / H * (p / H) * (H * H)) with ((p / H * H) * (p / H * H)) by lia.
  rewrite Nat.sqrt_up_square by lia.
  pose proof (Nat.div_mod_eq p H). lia.
Qed.

Lemma mul_root_add_square row H col :
  int_mul_root_add row (H * H) col = row * H + col.
Proof.
  unfold int_mul_root_add.
  replace (row * row * (H * H)) with ((row * H) * (row * H)) by lia.
  by rewrite Nat.sqrt_square.
Qed.

(** Over the reals: with [H] the root of [n], the integers are the
    integer parts of [p / H], of [p - (p // H) * H] and of
    [row * H + col]. *)
Lemma mul_root (a n : nat) :
  (INR a * sqrt (INR n))%R = sqrt (INR (a * a * n)).
Proof.
  rewrite !mult_INR, sqrt_mult_alt, sqrt_square;
    [done|apply pos_INR|].
  apply Rmult_le_pos; apply pos_INR.
Qed.

Lemma INR_sqrt_square (b : nat) : INR b = sqrt (INR (b * b)).
Proof. rewrite mult_INR, sqrt_square; [done|apply pos_INR]. Qed.

Lemma mul_root_le (a b n : nat) :
  a * a * n ≤ b * b → (INR a * sqrt (INR n) <= INR b)%R.
Proof.
  intros H. rewrite mul_root, (INR_sqrt_square b).
  by apply sqrt_le_1_alt, le_INR.
Qed.

Lemma mul_root_ge (a b n : nat) :
  b * b ≤ a * a * n → (INR b <= INR a * sqrt (INR n))%R.
Proof.
  intros H. rewrite mul_root, (INR_sqrt_square b).
  by apply sqrt_le_1_alt, le_INR.
Qed.

Lemma mul_root_lt (a b n : nat) :
  a * a * n < b * b → (INR a * sqrt (INR n) < INR b)%R.
Proof.
  intros H. rewrite mul_root, (INR_sqrt_square b).
  apply sqrt_lt_1_alt. split; [apply pos_INR|by apply lt_INR].
Qed.

Lemma mul_root_gt (a b n : nat) :
  b * b < a * a * n → (INR b < INR a * sqrt (INR n))%R.
Proof.
  intros H. rewrite mul_root, (INR_sqrt_square b).
  apply sqrt_lt_1_alt. split; [apply pos_INR|by apply lt_INR].
Qed.

Lemma int_floordiv_root_spec (p n : nat) :
  0 < n →
  let x := INR (int_floordiv_root p n) in
  (x <= INR p / sqrt (INR n) < x + 1)%R.
Proof.
  intros Hn x. destruct (floordiv_root_bounds p n Hn) as [Hlo Hhi].
  assert (0 < sqrt (INR n))%R as Hs.
  { apply sqrt_lt_R0. by apply (lt_INR 0). }
  apply mul_root_le in Hlo. apply mul_root_gt in Hhi.
  rewrite plus_INR in Hhi. simpl in Hhi. fold x in Hlo, Hhi.
  split.
  - apply Rmult_le_reg_r with (sqrt (INR n)); [done|].
    unfold Rdiv. rewrite Rmult_assoc, Rinv_l by lra. lra.
  - apply Rmult_lt_reg_r with (sqrt (INR n)); [done|].
    unfold Rdiv. rewrite Rmult_assoc, Rinv_l by lra. lra.
Qed.

Lemma int_mod_root_spec (p n : nat) :
  0 < n →
  let x := INR (int_floordiv_root p n) in
  let y := (INR p - x * sqrt (INR n))%R in
  (INR (int_mod_root p n) <= y < INR (int_mod_root p n) + 1)%R.
Proof.
  intros Hn x y. unfold int_mod_root.
  pose proof (mod_root_le p n Hn) as Hle.
  set (k := int_floordiv_root p n) in *.
  set (m := Nat.sqrt_up (k * k * n)) in *.
  rewrite minus_INR by done.
  assert (INR m - 1 < x * sqrt (INR n) <= INR m)%R as [H1 H2]; [|unfold y; lra].
  unfold x. destruct (decide (k * k * n = 0)) as [Hz|Hnz].
  - assert (m = 0) as -> by (unfold m; by rewrite Hz).
    assert (k = 0) as -> by nia. simpl. lra.
  - pose proof (Nat.sqrt_up_spec (k * k * n) ltac:(lia)) as [Hlo Hhi].
    fold m in Hlo, Hhi.
    assert (0 < m) by (destruct m; [simpl in Hhi; lia|lia]).
    split.
    + replace (INR m - 1)%R with (INR (Nat.pred m)).
      * by apply mul_root_gt.
      * destruct m; [lia|]. rewrite S_INR. simpl. lra.
    + by apply mul_root_le.
Qed.

Lemma int_mul_root_add_spec (row n col : nat) :
  let z := (INR row * sqrt (INR n) + INR col)%R in
  (INR (int_mul_root_add row n col) <= z < INR (int_mul_root_add row n col) + 1)%R.
Proof.
  intros z. unfold int_mul_root_add, z. rewrite plus_INR.
  pose proof (Nat.sqrt_spec (row * row * n) ltac:(lia)) as [Hlo Hhi].
  set (k := Nat.sqrt (row * row * n)) in *.
  apply mul_root_ge in Hlo. apply mul_root_lt in Hhi.
  rewrite S_INR in Hhi. lra.
Qed.

End Root_facts.

Module RAttention_mask_facts.
Import RAttention Root_facts.

Lemma index_assign_zero_ok (pos_list : list nat) : ∀ row : list mask_val,
  Forall (λ p, p < length row) pos_list →
  ∃ row', index_assign_zero row pos_list = Ok row' ∧
          length row' = length row ∧
          ∀ j, row' !! j =
               if decide (j ∈ pos_list ∧ j < length row)
               then Some zero_bias else row !! j.
Proof.
  induction pos_list as [|p ps IH]; intros row Hall; cbn [index_assign_zero].
  - exists row. split_and!; [done..|]. intros j.
    case_decide as Hd; [|done]. destruct Hd as [Hin _].
    by apply elem_of_nil in Hin.
  - inversion_clear Hall as [|? ? Hp Hps].
    rewrite decide_True by done.
    destruct (IH (<[p:=zero_bias]> row)) as (row' & -> & Hlen & Hrow').
    { by rewrite length_insert. }
    rewrite length_insert in Hlen. exists row'. split_and!; [done..|].
    intros j. rewrite Hrow', length_insert.
    destruct (decide (j ∈ ps ∧ j < length row)) as [[Hin Hj]|Hn].
    + rewrite decide_True; [done|]. split; [by right|done].
    + destruct (decide (j = p)) as [->|Hne].
      * rewrite list_lookup_insert_eq by done.
        rewrite decide_True; [done|]. split; [by left|done].
      * rewrite list_lookup_insert_ne by done.
        destruct (decide (j ∈ p :: ps ∧ j < length row)) as [[Hin Hj]|]; [|done].
        apply elem_of_cons in Hin as [?|Hin]; [done|]. by destruct Hn.
Qed.

Lemma assign_rows_ok (total : list (list nat)) : ∀ t : mask,
  length t = length total →
  (∀ i row pos_list, t !! i = Some row → total !! i = Some pos_list →
     Forall (λ p, p < length row) pos_list) →
  ∃ t', assign_rows t total = Ok t' ∧ length t' = length t ∧
        ∀ i row pos_list, t !! i = Some row → total !! i = Some pos_list →
          ∃ row', t' !! i = Some row' ∧ index_assign_zero row pos_list = Ok row'.
Proof.
  induction total as [|pl total IH]; intros [|row t] Hlen Hall;
    simplify_eq/=.
  - exists []. split_and!; [done..|]. intros i ? ? Hi. by destruct i.
  - destruct (index_assign_zero_ok pl row) as (row' & Hrow' & _).
    { by apply (Hall 0). }
    destruct (IH t) as (t' & Ht' & Hlen' & Hrows); [done| |].
    { intros i. apply (Hall (S i)). }
    rewrite Hrow'. simpl. rewrite Ht'. simpl.
    exists (row' :: t'). split_and!; [done|simpl; lia|].
    intros [|i] r p Hr Hp; simplify_eq/=; [by exists row'|by eapply Hrows].
Qed.

Lemma elem_of_visible_pos H x y j :
  y < H →
  j ∈ (row ← seq 0 (x + 1); col ← seq 0 (y + 1); [row * H + col]) ↔
  j / H ≤ x ∧ j mod H ≤ y.
Proof.
  intros Hy. rewrite list_elem_of_bind. split.
  - intros (row & Hj & Hrow). apply list_elem_of_bind in Hj as (col & Hj & Hcol).
    apply list_elem_of_singleton in Hj as ->.
    apply elem_of_seq in Hrow, Hcol.
    assert (col < H) by lia.
    rewrite Nat.add_comm, Nat.div_add, Nat.Div0.mod_add by lia.
    rewrite Nat.div_small, Nat.mod_small by lia. lia.
  - intros [Hd Hm]. exists (j / H). split; [|apply elem_of_seq; lia].
    apply list_elem_of_bind. exists (j mod H). split; [|apply elem_of_seq; lia].
    apply list_elem_of_singleton.
    pose proof (Nat.div_mod_eq j H). lia.
Qed.

Lemma lookup_total_visible_pos_any n i :
  i < n →
  total_visible_pos n !! i =
    Some (row ← seq 0 (int_floordiv_root i n + 1);
          col ← seq 0 (int_mod_root i n + 1);
          [int_mul_root_add row n col]).
Proof.
  intros Hi. unfold total_visible_pos.
  by rewrite lookup_zip_with, !list_lookup_fmap, lookup_arange.
Qed.

Lemma lookup_total_visible_pos H i :
  i < H * H →
  total_visible_pos (H * H) !! i =
    Some (row ← seq 0 (i / H + 1); col ← seq 0 (i mod H + 1); [row * H + col]).
Proof.
  intros Hi. assert (0 < H) as HH by lia.
  rewrite lookup_total_visible_pos_any by done.
  rewrite floordiv_root_square, mod_root_square by done.
  f_equal. apply list_bind_ext; [|done]. intros row.
  apply list_bind_ext; [|done]. intros col.
  by rewrite mul_root_add_square.
Qed.

Lemma visible_pos_in_range_any n i :
  i < n →
  Forall (λ p, p < n)
    (row ← seq 0 (int_floordiv_root i n + 1);
     col ← seq 0 (int_mod_root i n + 1);
     [int_mul_root_add row n col]).
Proof.
  intros Hi. apply Forall_forall. intros j Hj.
  apply list_elem_of_bind in Hj as (row & Hj & Hrow).
  apply list_elem_of_bind in Hj as (col & Hj & Hcol).
  apply list_elem_of_singleton in Hj as ->.
  apply elem_of_seq in Hrow, Hcol.
  pose proof (mul_root_add_le i n row col). lia.
Qed.

(** The constructor's mask for any token count: [token_num] rows of
    [token_num] entries. *)
Lemma casual_mask_2d_total n :
  ∃ M, casual_mask_2d n = Ok M ∧ length M = n ∧
       Forall (λ row, length row = n) M.
Proof.
  unfold casual_mask_2d.
  destruct (assign_rows_ok (total_visible_pos n) (full n n neg_inf))
    as (M & HM & Hlen & Hrows).
  { unfold full, total_visible_pos.
    by rewrite length_replicate, length_zip_with, !length_fmap, length_arange,
      Nat.min_id. }
  { intros i row pl Hrow Hpl.
    assert (i < n) as Hi.
    { pose proof (lookup_lt_Some _ _ _ Hrow) as Hlt. unfold full in Hlt.
      by rewrite length_replicate in Hlt. }
    rewrite lookup_full in Hrow by done.
    rewrite lookup_total_visible_pos_any in Hpl by done. simplify_eq.
    rewrite length_replicate. by apply visible_pos_in_range_any. }
  assert (length M = n) as HlenM.
  { rewrite Hlen. unfold full. by rewrite length_replicate. }
  exists M. split_and!; [done..|].
  apply Forall_forall. intros row Hin.
  apply list_elem_of_lookup in Hin as [i Hrow].
  assert (i < n) as Hi by (rewrite <- HlenM; by eapply lookup_lt_Some).
  destruct (Hrows i (replicate n neg_inf)
              (row ← seq 0 (int_floordiv_root i n + 1);
               col ← seq 0 (int_mod_root i n + 1);
               [int_mul_root_add row n col]))
    as (row' & Hrow' & Hassign).
  { by apply lookup_full. }
  { by apply lookup_total_visible_pos_any. }
  destruct (index_assign_zero_ok
              (row ← seq 0 (int_floordiv_root i n + 1);
               col ← seq 0 (int_mod_root i n + 1);
               [int_mul_root_add row n col])
              (replicate n neg_inf)) as (r & Hr & Hl & _).
  { rewrite length_replicate. by apply visible_pos_in_range_any. }
  rewrite Hr in Hassign. simplify_eq.
  by rewrite Hl, length_replicate.
Qed.

Lemma visible_pos_in_range H i :
  i < H * H →
  Forall (λ p, p < H * H)
    (row ← seq 0 (i / H + 1); col ← seq 0 (i mod H + 1); [row * H + col]).
Proof.
  intros Hi. assert (0 < H) by lia.
  apply Forall_forall. intros j Hj.
  apply elem_of_visible_pos in Hj as [Hd Hm]; [|by apply Nat.mod_upper_bound; lia].
  assert (i / H < H) by (apply Nat.Div0.div_lt_upper_bound; lia).
  pose proof (Nat.div_mod_eq j H).
  pose proof (Nat.mod_upper_bound j H). nia.
Qed.

Lemma casual_mask_2d_ok H :
  ∃ M, casual_mask_2d (H * H) = Ok M ∧ length M = H * H ∧
       ∀ i j, i < H * H → j < H * H →
         at2 M i j = Some (if sees H i j then zero_bias else neg_inf).
Proof.
  unfold casual_mask_2d.
  destruct (assign_rows_ok (total_visible_pos (H * H))
              (full (H * H) (H * H) neg_inf)) as (M & HM & Hlen & Hrows).
  { unfold full, total_visible_pos.
    by rewrite length_replicate, length_zip_with, !length_fmap, length_arange,
      Nat.min_id. }
  { intros i row pl Hrow Hpl.
    assert (i < H * H) as Hi.
    { pose proof (lookup_lt_Some _ _ _ Hrow) as Hlt. unfold full in Hlt.
      by rewrite length_replicate in Hlt. }
    rewrite lookup_full in Hrow by done.
    rewrite lookup_total_visible_pos in Hpl by done. simplify_eq.
    rewrite length_replicate. by apply visible_pos_in_range. }
  exists M. split_and!; [done|by rewrite Hlen; unfold full; rewrite length_replicate|].
  intros i j Hi Hj.
  destruct (Hrows i (replicate (H * H) neg_inf)
              (row ← seq 0 (i / H + 1); col ← seq 0 (i mod H + 1); [row * H + col]))
    as (row' & Hrow' & Hassign).
  { by apply lookup_full. }
  { by apply lookup_total_visible_pos. }
  destruct (index_assign_zero_ok
              (row ← seq 0 (i / H + 1); col ← seq 0 (i mod H + 1); [row * H + col])
              (replicate (H * H) neg_inf)) as (r & Hr & _ & Hlook).
  { rewrite length_replicate. by apply visible_pos_in_range. }
  rewrite Hr in Hassign. simplify_eq.
  unfold at2. rewrite Hrow'. simpl. rewrite Hlook, length_replicate.
  assert (0 < H) by lia.
  unfold sees. case_decide as Hd.
  - destruct Hd as [Hin _].
    apply elem_of_visible_pos in Hin as [? ?];
      [|by apply Nat.mod_upper_bound; lia].
    by rewrite !bool_decide_eq_true_2.
  - rewrite lookup_replicate_2 by done.
    destruct (bool_decide (j / H ≤ i / H)) eqn:E1;
      destruct (bool_decide (j mod H ≤ i mod H)) eqn:E2; simpl; try done.
    apply bool_decide_eq_true in E1, E2. destruct Hd. split; [|done].
    apply elem_of_visible_pos; [by apply Nat.mod_upper_bound; lia|done].
Qed.

(** Three tokens, which is no square grid: [H] is the root of 3, token 2
    has [x = 1] and [y = 0] and sees the positions [int(0 * H)] and
    [int(1 * H)], that is 0 and 1, and not itself. *)
Example casual_mask_2d_3_tokens :
  total_visible_pos 3 = [[0]; [0; 1]; [0; 1]] ∧
  casual_mask_2d 3 = Ok [[zero_bias; neg_inf; neg_inf];
                         [zero_bias; zero_bias; neg_inf];
                         [zero_bias; zero_bias; neg_inf]].
Proof. split; reflexivity. Qed.

End RAttention_mask_facts.

Module Freqs_facts.

Definition unit_phasor (z : complex) : Prop := Cabs z = 1%R.

Lemma Cabs_polar_1 (a : R) : unit_phasor (polar 1 a).
Proof.
  unfold unit_phasor, Cabs, polar. simpl.
  replace (1 * cos a * (1 * cos a) + 1 * sin a * (1 * sin a))%R
    with (Rsqr (sin a) + Rsqr (cos a))%R by (unfold Rsqr; ring).
  rewrite sin2_cos2. apply sqrt_1.
Qed.

Lemma polar_ones_unit (f : list (list R)) :
  Forall (Forall unit_phasor) (polar_ones f).
Proof.
  unfold polar_ones. apply Forall_fmap, Forall_true. intros row. simpl.
  apply Forall_fmap, Forall_true. intros a. apply Cabs_polar_1.
Qed.

Lemma cat_pairs_Forall {A} (P : A → Prop) (x y : list (list A)) :
  Forall (Forall P) x → Forall (Forall P) y →
  Forall (Forall (Forall P)) (cat_pairs x y).
Proof.
  unfold cat_pairs. intros Hx. revert y.
  induction Hx as [|r x Hr Hx IH]; intros [|r' y] Hy; simpl; try constructor.
  - inversion_clear Hy as [|? ? Hr' Hy']. clear IH Hx Hy'. revert r' Hr'.
    induction Hr as [|a r Ha Hr IH]; intros [|b r'] Hr'; simpl; try constructor.
    + inversion_clear Hr'. by repeat constructor.
    + inversion_clear Hr'. by apply IH.
  - inversion_clear Hy. by apply IH.
Qed.

Lemma reshape_rows_Forall {A} (P : A → Prop) rows (flat : list A) tbl :
  Forall P flat → reshape_rows rows flat = Ok tbl → Forall (Forall P) tbl.
Proof.
  unfold reshape_rows. intros HP Hr. repeat case_decide; simplify_eq.
  by apply Forall_reshape.
Qed.

Lemma length_mjoin_const {A} (l : list (list A)) c :
  Forall (λ r, length r = c) l → length (mjoin l) = length l * c.
Proof.
  induction 1 as [|r l Hr _ IH]; simpl; [done|].
  rewrite length_app, IH, Hr. lia.
Qed.

Lemma rows_reshape_replicate {A} rows cols : ∀ flat : list A,
  length flat = rows * cols →
  Forall (λ r, length r = cols) (reshape (replicate rows cols) flat).
Proof.
  induction rows as [|rows IH]; intros flat Hlen; simpl; constructor.
  - rewrite length_take. lia.
  - apply IH. rewrite length_drop. lia.
Qed.

Lemma reshape_rows_ok {A} rows cols (flat : list A) :
  0 < rows → length flat = rows * cols →
  ∃ tbl, reshape_rows rows flat = Ok tbl ∧ length tbl = rows ∧
         Forall (λ r, length r = cols) tbl.
Proof.
  intros Hrows Hlen. unfold reshape_rows.
  rewrite decide_False by lia.
  rewrite decide_True by (rewrite Hlen, Nat.mul_comm; apply Nat.Div0.mod_mul).
  eexists. split; [done|].
  rewrite Hlen, Nat.mul_comm, Nat.div_mul by lia.
  split; [by rewrite length_reshape, length_replicate|].
  apply rows_reshape_replicate. lia.
Qed.

Lemma shape_outer (a b : list R) :
  length (outer a b) = length a ∧
  Forall (λ r, length r = length b) (outer a b).
Proof.
  unfold outer. split; [by rewrite length_fmap|].
  apply Forall_fmap, Forall_true. intros x. simpl. by rewrite length_fmap.
Qed.

Lemma shape_polar_ones (f : list (list R)) c :
  Forall (λ r, length r = c) f →
  length (polar_ones f) = length f ∧
  Forall (λ r, length r = c) (polar_ones f).
Proof.
  intros Hf. unfold polar_ones. split; [by rewrite length_fmap|].
  apply Forall_fmap. eapply Forall_impl; [exact Hf|].
  intros r Hr. simpl. by rewrite length_fmap.
Qed.

Lemma shape_cat_pairs {A} (x y : list (list A)) c :
  length x = length y →
  Forall (λ r, length r = c) x → Forall (λ r, length r = c) y →
  length (cat_pairs x y) = length x ∧
  Forall (λ r, length r = c ∧ Forall (λ p, length p = 2) r) (cat_pairs x y).
Proof.
  unfold cat_pairs. intros Hlen Hx Hy. split.
  { rewrite length_zip_with. lia. }
  clear Hlen. revert y Hy.
  induction Hx as [|r x Hr Hx IH]; intros [|r' y] Hy; simpl; try constructor.
  - inversion_clear Hy as [|? ? Hr' Hy']. split.
    + rewrite length_zip_with. lia.
    + clear. revert r'. induction r as [|a r IH]; intros [|b r']; simpl;
        constructor; [done|apply IH].
  - inversion_clear Hy. by apply IH.
Qed.

Lemma length_flatten3 {A} (t : list (list (list A))) c :
  Forall (λ r, length r = c ∧ Forall (λ p, length p = 2) r) t →
  length (mjoin (mjoin t)) = length t * (2 * c).
Proof.
  intros Ht.
  rewrite (length_mjoin_const (mjoin t) 2).
  - rewrite (length_mjoin_const t c); [lia|].
    eapply Forall_impl; [exact Ht|]. by intros r [? _].
  - apply Forall_join. eapply Forall_impl; [exact Ht|]. by intros r [_ ?].
Qed.

Lemma length_channels dim step :
  0 < step → length (take (dim / step) (arange_step dim step)) = dim / step.
Proof.
  intros Hs. unfold arange_step.
  rewrite length_take, length_fmap, length_seq.
  apply Nat.min_l, Nat.Div0.div_le_mono. lia.
Qed.

Lemma length_arange_cls use_cls end_ :
  length (arange_cls use_cls end_) = if use_cls then end_ + 1 else end_.
Proof. unfold arange_cls. destruct use_cls; rewrite length_seqZ; lia. Qed.

Lemma tensor_mod_ok (t : list Z) (d : Z) :
  d ≠ 0%Z → ∃ t', tensor_mod t d = Ok t' ∧ length t' = length t.
Proof.
  intros Hd. unfold tensor_mod. rewrite decide_False by tauto.
  eexists. split; [done|]. by rewrite length_fmap.
Qed.

Lemma tensor_floordiv_ok (t : list Z) (d : Z) :
  d ≠ 0%Z → ∃ t', tensor_floordiv t d = Ok t' ∧ length t' = length t.
Proof.
  intros Hd. unfold tensor_floordiv. rewrite decide_False by tauto.
  eexists. split; [done|]. by rewrite length_fmap.
Qed.

(** The table assembled from two position vectors of [n] entries. *)
Lemma assemble_ok (x_pos y_pos freqs : list R) n :
  0 < n → length x_pos = n → length y_pos = n →
  ∃ tbl,
    reshape_rows n
      (mjoin (mjoin (cat_pairs (polar_ones (outer x_pos freqs))
                               (polar_ones (outer y_pos freqs))))) = Ok tbl ∧
    length tbl = n ∧
    Forall (λ r, length r = 2 * length freqs) tbl.
Proof.
  intros Hn Hx Hy.
  destruct (shape_outer x_pos freqs) as [Hxl Hxr].
  destruct (shape_outer y_pos freqs) as [Hyl Hyr].
  destruct (shape_polar_ones _ _ Hxr) as [Hxl' Hxr'].
  destruct (shape_polar_ones _ _ Hyr) as [Hyl' Hyr'].
  destruct (shape_cat_pairs (polar_ones (outer x_pos freqs))
              (polar_ones (outer y_pos freqs)) (length freqs))
    as [Hcl Hcr]; [congruence|done|done|].
  apply reshape_rows_ok; [done|].
  rewrite (length_flatten3 _ _ Hcr), Hcl, Hxl', Hxl, Hx. done.
Qed.

Lemma assemble_unit (x_pos y_pos freqs : list R) n tbl :
  reshape_rows n
    (mjoin (mjoin (cat_pairs (polar_ones (outer x_pos freqs))
                             (polar_ones (outer y_pos freqs))))) = Ok tbl →
  Forall (Forall unit_phasor) tbl.
Proof.
  apply reshape_rows_Forall.
  apply Forall_join, Forall_join.
  apply cat_pairs_Forall; apply polar_ones_unit.
Qed.

Lemma sqrt_pos n : 0 < n → 0 < Nat.sqrt n.
Proof.
  intros Hn. destruct (Nat.sqrt n) eqn:E; [|lia].
  pose proof (Nat.sqrt_spec n) as Hs. rewrite E in Hs. lia.
Qed.

Lemma precompute_freqs_cis_unit dim end_ theta scale :
  Forall (Forall unit_phasor) (precompute_freqs_cis dim end_ theta scale).
Proof. unfold precompute_freqs_cis. apply polar_ones_unit. Qed.

Lemma precompute_freqs_cis_shape dim end_ theta scale :
  length (precompute_freqs_cis dim end_ theta scale) = end_ ∧
  Forall (λ r, length r = dim / 2) (precompute_freqs_cis dim end_ theta scale).
Proof.
  unfold precompute_freqs_cis.
  match goal with |- context [outer ?a ?b] =>
    destruct (shape_outer a b) as [Hl Hr] end.
  rewrite length_fmap, (length_channels dim 2) in Hr by lia.
  destruct (shape_polar_ones _ _ Hr) as [Hl' Hr'].
  split; [|done]. by rewrite Hl', Hl, !length_fmap, length_arange.
Qed.

Lemma precompute_freqs_cis_2d_ok dim end_ theta scale use_cls cls_pos :
  0 < end_ →
  ∃ tbl, precompute_freqs_cis_2d dim end_ theta scale use_cls cls_pos = Ok tbl ∧
         length tbl = (if use_cls then end_ + 1 else end_) ∧
         Forall (λ r, length r = 2 * (dim / 4)) tbl ∧
         Forall (Forall unit_phasor) tbl.
Proof.
  intros Hend. unfold precompute_freqs_cis_2d.
  assert (Z.of_nat (Nat.sqrt end_) ≠ 0%Z) as HH.
  { pose proof (sqrt_pos end_ Hend). lia. }
  destruct (tensor_mod_ok (arange_cls use_cls end_) _ HH) as (x & -> & Hx).
  destruct (tensor_floordiv_ok (arange_cls use_cls end_) _ HH) as (y & -> & Hy).
  cbn [result_bind].
  rewrite length_arange_cls in Hx, Hy.
  match goal with |- context [reshape_rows ?n (mjoin (mjoin (cat_pairs
      (polar_ones (outer ?xp ?f)) (polar_ones (outer ?yp ?f)))))] =>
    destruct (assemble_ok xp yp f n) as (tbl & Htbl & Hlen & Hrows)
  end.
  { destruct use_cls; lia. }
  { destruct (_ && _); rewrite ?length_insert, length_fmap; done. }
  { destruct (_ && _); rewrite ?length_insert, length_fmap; done. }
  exists tbl. split_and!; [done|done| |by eapply assemble_unit].
  by rewrite length_fmap, (length_channels dim 4) in Hrows by lia.
Qed.

Lemma precompute_freqs_cis_2d_general_ok dim end_ step W bias theta scale use_cls :
  0 < end_ →
  ∃ tbl, precompute_freqs_cis_2d_general dim end_ step W bias theta scale use_cls
           = Ok tbl ∧
         length tbl = (if use_cls then end_ + 1 else end_) ∧
         Forall (λ r, length r = 2 * (dim / 4)) tbl ∧
         Forall (Forall unit_phasor) tbl.
Proof.
  intros Hend. unfold precompute_freqs_cis_2d_general.
  assert (Z.of_nat (if decide (W = 0) then Nat.sqrt end_ else W) ≠ 0%Z) as HW.
  { case_decide; [|lia]. pose proof (sqrt_pos end_ Hend). lia. }
  destruct (tensor_mod_ok (arange_cls use_cls end_) _ HW) as (x & -> & Hx).
  destruct (tensor_floordiv_ok (arange_cls use_cls end_) _ HW) as (y & -> & Hy).
  cbn [result_bind].
  rewrite length_arange_cls in Hx, Hy.
  match goal with |- context [reshape_rows ?n (mjoin (mjoin (cat_pairs
      (polar_ones (outer ?xp ?f)) (polar_ones (outer ?yp ?f)))))] =>
    destruct (assemble_ok xp yp f n) as (tbl & Htbl & Hlen & Hrows)
  end.
  { destruct use_cls; lia. }
  { by rewrite !length_fmap. }
  { by rewrite !length_fmap. }
  exists tbl. split_and!; [done|done| |by eapply assemble_unit].
  by rewrite length_fmap, (length_channels dim 4) in Hrows by lia.
Qed.

End Freqs_facts.

Module Torch_facts.
Import Torch.

Lemma init_dims_snoc (l : list nat) x : init_dims (l ++ [x]) = l.
Proof.
  unfold init_dims. rewrite length_app. simpl.
  replace (length l + 1 - 1) with (length l) by lia.
  by rewrite take_app_length.
Qed.

Lemma init_dims_snoc2 (l : list nat) a b : init_dims (l ++ [a; b]) = l ++ [a].
Proof.
  replace (l ++ [a; b]) with ((l ++ [a]) ++ [b]) by (by rewrite <- app_assoc).
  apply init_dims_snoc.
Qed.

Lemma last_dim_snoc (l : list nat) x : last_dim (l ++ [x]) = x.
Proof. unfold last_dim. by rewrite last_snoc. Qed.

Lemma map_last_snoc f (l : list nat) x : map_last f (l ++ [x]) = l ++ [f x].
Proof. unfold map_last. by rewrite init_dims_snoc, last_dim_snoc. Qed.

Create Rewrite HintDb snoc.
#[export] Hint Rewrite init_dims_snoc init_dims_snoc2 last_dim_snoc
  map_last_snoc : snoc.

Lemma numel_app s1 s2 : numel (s1 ++ s2) = numel s1 * numel s2.
Proof. induction s1 as [|d s1 IH]; simpl; [lia|]. rewrite IH. lia. Qed.

Lemma reshape_Ok {A} (t t' : tensor A) s :
  reshape t s = Ok t' →
  numel (shape t) = numel s ∧ shape t' = s ∧
  ∀ idx, get t' idx = get t (unravel (shape t) (ravel s idx)).
Proof. unfold reshape. case_decide; [|done]. intros [= <-]. done. Qed.

Lemma reshape_infer_Ok {A} (t t' : tensor A) pre post :
  reshape_infer t pre post = Ok t' →
  numel pre * numel post ≠ 0 ∧
  numel (shape t) mod (numel pre * numel post) = 0 ∧
  shape t' = pre ++ [numel (shape t) / (numel pre * numel post)] ++ post.
Proof.
  unfold reshape_infer. repeat case_decide; try done.
  intros Hr. apply reshape_Ok in Hr as (_ & Hs & _). done.
Qed.

Lemma view_as_complex_Ok (t : tensor R) t' :
  view_as_complex t = Ok t' →
  shape t' = init_dims (shape t) ∧ last_dim (shape t) = 2.
Proof.
  unfold view_as_complex. case_decide as Hd; [|done].
  intros [= <-]. by destruct Hd.
Qed.

Lemma flatten_Ok {A} (t t' : tensor A) start :
  flatten t start = Ok t' →
  start < length (shape t) ∧
  shape t' = take start (shape t) ++ [numel (drop start (shape t))].
Proof.
  unfold flatten. case_decide; [|done]. intros Hr.
  apply reshape_Ok in Hr as (_ & Hs & _). done.
Qed.

Lemma map2_Ok {A B C} (f : A → B → C) a b t :
  map2 f a b = Ok t → broadcast_shapes (shape a) (shape b) = Ok (shape t).
Proof.
  unfold map2. destruct (broadcast_shapes _ _); [|done].
  simpl. by intros [= <-].
Qed.

Lemma cat_last_Ok {A} (a b t : tensor A) :
  cat_last a b = Ok t →
  shape a ≠ [] ∧ shape b ≠ [] ∧ init_dims (shape a) = init_dims (shape b) ∧
  shape t = init_dims (shape a) ++ [last_dim (shape a) + last_dim (shape b)] ∧
  ∀ idx, get t idx =
         if decide (last_dim idx < last_dim (shape a)) then get a idx
         else get b (map_last (λ c, c - last_dim (shape a)) idx).
Proof.
  unfold cat_last. case_decide as Hd; [|done]. intros [= <-].
  destruct Hd as (? & ? & ?). done.
Qed.

(** The shape of a broadcast. *)
Lemma broadcast_rev_Ok (a : list nat) : ∀ b r,
  broadcast_rev a b = Ok r →
  length r = length a `max` length b ∧
  (∀ n, head a = Some n → head b = Some n → head r = Some n).
Proof.
  induction a as [|x a IH]; intros [|y b] r Hr; simpl in *; simplify_eq.
  - split; [done|]. by intros ? [=].
  - split; [done|]. by intros ? [=].
  - split; [simpl; lia|]. by intros ? ? [=].
  - destruct (broadcast_rev a b) as [r'|] eqn:E; [|done]. simpl in Hr.
    destruct (IH b r' E) as [Hlen _].
    repeat case_decide; simplify_eq; (split; [simpl; lia|]);
      intros n Ha Hb; by simplify_eq/=.
Qed.

Lemma broadcast_shapes_Ok s1 s2 s :
  broadcast_shapes s1 s2 = Ok s →
  length s = length s1 `max` length s2 ∧
  (∀ n, last s1 = Some n → last s2 = Some n → last s = Some n).
Proof.
  unfold broadcast_shapes.
  destruct (broadcast_rev _ _) as [r|] eqn:E; [|done]. simpl. intros [= <-].
  apply broadcast_rev_Ok in E as [Hlen Hhd].
  rewrite !length_reverse in *. split; [done|].
  intros n H1 H2. rewrite last_reverse. apply Hhd; by rewrite head_reverse.
Qed.

Lemma ravel_lt (s idx : list nat) :
  Forall2 (λ i d, i < d) idx s → ravel s idx < numel s.
Proof.
  intros H. induction H as [|i d idx s Hi _ IH]; simpl; [lia|].
  nia.
Qed.

Lemma unravel_ravel (s idx : list nat) :
  Forall2 (λ i d, i < d) idx s → unravel s (ravel s idx) = idx.
Proof.
  intros H. induction H as [|i d idx s Hi Hrest IH]; simpl; [done|].
  pose proof (ravel_lt s idx Hrest) as Hlt.
  assert (numel s ≠ 0) by lia.
  replace ((i * numel s + ravel s idx) `div` numel s) with i
    by (rewrite Nat.div_add_l, Nat.div_small by done; lia).
  replace ((i * numel s + ravel s idx) `mod` numel s) with (ravel s idx)
    by (rewrite Nat.add_comm, Nat.Div0.mod_add, Nat.mod_small by done; lia).
  by rewrite IH.
Qed.

Lemma reshape_infer_intro {A} (t : tensor A) pre post n :
  numel pre * numel post ≠ 0 →
  numel (shape t) = n * (numel pre * numel post) →
  ∃ t', reshape_infer t pre post = Ok t' ∧ shape t' = pre ++ [n] ++ post ∧
        ∀ idx, get t' idx = get t (unravel (shape t) (ravel (pre ++ [n] ++ post) idx)).
Proof.
  intros Hnz Hn. unfold reshape_infer.
  rewrite decide_False by done.
  rewrite decide_True by (rewrite Hn; apply Nat.Div0.mod_mul).
  rewrite Hn, Nat.div_mul by done.
  unfold reshape. rewrite decide_True.
  - by eexists.
  - rewrite Hn, !numel_app. simpl. lia.
Qed.

Lemma permute_intro {A} (t : tensor A) perm :
  perm ≡ₚ seq 0 (length (shape t)) →
  ∃ t', permute t perm = Ok t' ∧
        shape t' = (λ p, default 0 (shape t !! p)) <$> perm ∧
        ∀ idx, get t' idx =
               get t ((λ d, default 0 (idx !! index_of d perm))
                        <$> seq 0 (length perm)).
Proof. intros Hp. unfold permute. rewrite decide_True by done. by eexists. Qed.

Lemma linear_intro (l : Linear) (x : tensor R) pre :
  shape x = pre ++ [in_features l] →
  ∃ y, linear l x = Ok y ∧ shape y = pre ++ [out_features l].
Proof.
  intros Hs. unfold linear. rewrite Hs, last_dim_snoc, init_dims_snoc.
  rewrite decide_True; [by eexists|]. split; [|done]. by destruct pre.
Qed.

Lemma reshape_intro {A} (t : tensor A) s :
  numel (shape t) = numel s →
  ∃ t', reshape t s = Ok t' ∧ shape t' = s ∧
        ∀ idx, get t' idx = get t (unravel (shape t) (ravel s idx)).
Proof. intros Hn. unfold reshape. rewrite decide_True by done. by eexists. Qed.

End Torch_facts.

Module Rotary_facts.
Import Torch Torch_facts.

Lemma complex_pairs_Ok (x : tensor R) x_ pre w :
  shape x = pre ++ [w] → complex_pairs x = Ok x_ →
  ∃ n, w = 2 * n ∧ shape x_ = pre ++ [n].
Proof.
  intros Hs. unfold complex_pairs.
  destruct (reshape_infer _ _ _) as [x2|] eqn:E; [|done]. simpl.
  intros Hv. apply view_as_complex_Ok in Hv as [Hv _].
  apply reshape_infer_Ok in E as (Hnz & Hmod & Hx2).
  rewrite Hs, init_dims_snoc, numel_app in *. simpl in *.
  exists (w / 2). split.
  - assert (numel pre ≠ 0) by lia.
    replace (numel pre * (w * 1)) with (numel pre * w) in Hmod by lia.
    replace (numel pre * (2 * 1)) with (numel pre * 2) in Hmod by lia.
    rewrite Nat.Div0.mul_mod_distr_l in Hmod.
    pose proof (Nat.div_mod_eq w 2). nia.
  - rewrite Hv, Hx2, init_dims_snoc2. do 2 f_equal.
    replace (numel pre * (w * 1)) with (numel pre * w) by lia.
    replace (numel pre * (2 * 1)) with (numel pre * 2) by lia.
    apply Nat.Div0.div_mul_cancel_l. lia.
Qed.

Lemma last_imap_keep (g : nat → nat → nat) (l : list nat) :
  (∀ d, g (length l - 1) d = d) → last (imap g l) = last l.
Proof.
  intros Hg. rewrite !last_lookup, length_imap, list_lookup_imap.
  replace (Nat.pred (length l)) with (length l - 1) by lia.
  destruct (l !! _) as [d|]; simpl; [|done]. by rewrite Hg.
Qed.

Lemma reshape_for_broadcast_Ok (f x f' : tensor complex) :
  reshape_for_broadcast f x = Ok f' →
  length (shape f') = length (shape x) ∧ last (shape f') = last (shape x).
Proof.
  unfold reshape_for_broadcast.
  case_decide as Hnd; [|done]. destruct (last (shape f)) as [c|]; [|done].
  repeat case_decide; simpl; try done; intros Hr;
    apply reshape_Ok in Hr as (_ & -> & _);
    (split; [by rewrite length_imap|]);
    apply last_imap_keep; intros d; repeat case_decide; done || lia.
Qed.

Lemma rotated_shape (x_ f' y : tensor complex) (out : tensor R) pre n :
  shape x_ = pre ++ [n] → length pre = 3 →
  length (shape f') = 4 → last (shape f') = Some n →
  map2 Cmul x_ f' = Ok y → flatten (view_as_real y) 3 = Ok out →
  ∃ pre', length pre' = 3 ∧ shape out = pre' ++ [2 * n].
Proof.
  intros Hx Hpre Hf Hlast Hy Hout.
  apply map2_Ok, broadcast_shapes_Ok in Hy as [Hlen Hl].
  specialize (Hl n). rewrite Hx, last_snoc in Hl.
  specialize (Hl eq_refl Hlast).
  rewrite Hx, length_app, Hf, Hpre in Hlen. simpl in Hlen.
  apply flatten_Ok in Hout as [_ Hout]. simpl in Hout.
  destruct (shape y) as [|a [|b [|c [|d [|? ?]]]]]; simplify_eq/=.
  exists [a; b; c]. split; [done|]. rewrite Hout. simpl. do 4 f_equal. lia.
Qed.

Lemma apply_rotary_emb_Ok (xq xk : tensor R) f oq ok pq pk w :
  shape xq = pq ++ [w] → shape xk = pk ++ [w] →
  length pq = 3 → length pk = 3 →
  apply_rotary_emb xq xk f = Ok (oq, ok) →
  ∃ pq' pk', length pq' = 3 ∧ length pk' = 3 ∧
             shape oq = pq' ++ [w] ∧ shape ok = pk' ++ [w].
Proof.
  intros Hq Hk Hpq Hpk. unfold apply_rotary_emb.
  destruct (complex_pairs xq) as [xq_|] eqn:Eq; [|done].
  destruct (complex_pairs xk) as [xk_|] eqn:Ek; [|done]. simpl.
  destruct (reshape_for_broadcast f xq_) as [f'|] eqn:Ef; [|done]. simpl.
  destruct (map2 Cmul xq_ f') as [yq|] eqn:Emq; [|done]. simpl.
  destruct (flatten (view_as_real yq) 3) as [oq'|] eqn:Efq; [|done]. simpl.
  destruct (map2 Cmul xk_ f') as [yk|] eqn:Emk; [|done]. simpl.
  destruct (flatten (view_as_real yk) 3) as [ok'|] eqn:Efk; [|done]. simpl.
  intros [= <- <-].
  destruct (complex_pairs_Ok _ _ _ _ Hq Eq) as (n & -> & Hxq).
  destruct (complex_pairs_Ok _ _ _ _ Hk Ek) as (n' & Hn & Hxk).
  assert (n' = n) as -> by lia.
  apply reshape_for_broadcast_Ok in Ef as [Hlen Hlast].
  rewrite Hxq, length_app, Hpq in Hlen. rewrite Hxq, last_snoc in Hlast.
  destruct (rotated_shape _ _ _ _ _ _ Hxq Hpq Hlen Hlast Emq Efq)
    as (pq' & ? & ?).
  destruct (rotated_shape _ _ _ _ _ _ Hxk Hpk Hlen Hlast Emk Efk)
    as (pk' & ? & ?).
  by exists pq', pk'.
Qed.

Lemma slice_last_to_shape {A} (t : tensor A) pre d r :
  shape t = pre ++ [d] → shape (slice_last_to t r) = pre ++ [slice_stop d r].
Proof. intros Hs. simpl. by rewrite Hs, map_last_snoc. Qed.

Lemma slice_stop_le d r : slice_stop d r ≤ d.
Proof. unfold slice_stop. case_decide; lia. Qed.

(** The frame property of [x = cat((rot(x[..., :r]), x[..., r:]))]. *)
Lemma rotate_prefix_frame (r : Z) (q k q' k' : tensor R) f pq pk hd :
  shape q = pq ++ [hd] → shape k = pk ++ [hd] →
  length pq = 3 → length pk = 3 →
  rotate_prefix r q k f = Ok (q', k') →
  shape q' = shape q ∧ shape k' = shape k ∧
  ∀ idx c, slice_stop hd r ≤ c →
    get q' (idx ++ [c]) = get q (idx ++ [c]) ∧
    get k' (idx ++ [c]) = get k (idx ++ [c]).
Proof.
  intros Hq Hk Hpq Hpk. unfold rotate_prefix.
  destruct (apply_rotary_emb _ _ _) as [[q_rot k_rot]|] eqn:Er; [|done]. simpl.
  destruct (cat_last q_rot _) as [q2|] eqn:Ecq; [|done]. simpl.
  destruct (cat_last k_rot _) as [k2|] eqn:Eck; [|done]. simpl.
  intros [= <- <-].
  destruct (apply_rotary_emb_Ok _ _ _ _ _ pq pk (slice_stop hd r)
              (slice_last_to_shape q pq hd r Hq)
              (slice_last_to_shape k pk hd r Hk) Hpq Hpk Er)
    as (pq' & pk' & _ & _ & Hsq & Hsk).
  apply cat_last_Ok in Ecq as (_ & _ & Hiq & Hshq & Hgq).
  apply cat_last_Ok in Eck as (_ & _ & Hik & Hshk & Hgk).
  pose proof (slice_stop_le hd r) as Hle.
  simpl in Hiq, Hik, Hshq, Hshk.
  rewrite Hsq, Hq in Hiq, Hshq. rewrite Hsk, Hk in Hik, Hshk.
  autorewrite with snoc in Hiq, Hshq, Hik, Hshk.
  subst pq' pk'. split_and!.
  - rewrite Hshq, Hq. do 2 f_equal. lia.
  - rewrite Hshk, Hk. do 2 f_equal. lia.
  - intros idx c Hc. rewrite Hgq, Hgk, Hsq, Hsk.
    autorewrite with snoc.
    rewrite !decide_False by lia. simpl.
    rewrite Hq, Hk. autorewrite with snoc.
    by replace (c - slice_stop hd r + slice_stop hd r) with c by lia.
Qed.

End Rotary_facts.

Module Forward_facts.
Import Torch Torch_facts Rotary_facts.

Lemma permute_Ok {A} (t t' : tensor A) perm :
  permute t perm = Ok t' →
  shape t' = (λ p, default 0 (shape t !! p)) <$> perm.
Proof. unfold permute. case_decide; [|done]. by intros [= <-]. Qed.

Lemma select0_Ok {A} (t t' : tensor A) k :
  select0 t k = Ok t' → ∃ d, shape t = d :: shape t'.
Proof.
  unfold select0. destruct (shape t) as [|d s] eqn:E; [done|].
  case_decide; [|done]. intros [= <-]. by exists d.
Qed.

Lemma project_qkv_Ok (self : Attention) B N C x qkv :
  project_qkv self B N C x = Ok qkv →
  shape qkv = [B; N; 3; num_heads self; C / num_heads self].
Proof.
  unfold project_qkv. destruct (linear _ _); [|done]. simpl.
  case_decide; [done|]. intros Hr. by apply reshape_Ok in Hr as (_ & ? & _).
Qed.

Lemma RAttention_projected_qkv_Ok (self : RAttention.t) B N C x q k v :
  RAttention.projected_qkv self B N C x = Ok (q, k, v) →
  let s := [B; N; num_heads (RAttention.base self)] in
  let hd := C / num_heads (RAttention.base self) in
  shape q = s ++ [hd] ∧ shape k = s ++ [hd] ∧ shape v = s ++ [hd].
Proof.
  unfold RAttention.projected_qkv.
  destruct (project_qkv _ _ _ _ _) as [qkv|] eqn:E1; [|done]. simpl.
  destruct (permute qkv _) as [qkv'|] eqn:E2; [|done]. simpl.
  destruct (select0 qkv' 0) as [q0|] eqn:Eq; [|done]. simpl.
  destruct (select0 qkv' 1) as [k0|] eqn:Ek; [|done]. simpl.
  destruct (select0 qkv' 2) as [v0|] eqn:Ev; [|done]. simpl.
  intros [= <- <- <-].
  apply project_qkv_Ok in E1. apply permute_Ok in E2.
  rewrite E1 in E2. simpl in E2.
  apply select0_Ok in Eq as [? Hq], Ek as [? Hk], Ev as [? Hv].
  rewrite E2 in Hq, Hk, Hv. by simplify_eq.
Qed.

Lemma GQA_projected_qkv_Ok (self : GQA.t) B T x q k v :
  GQA.projected_qkv self B T x = Ok (q, k, v) →
  ∃ hq hk hv,
    shape q = [B; hq; T] ++ [GQA.head_dim self] ∧
    shape k = [B; hk; T] ++ [GQA.head_dim self] ∧
    shape v = [B; hv; T] ++ [GQA.head_dim self].
Proof.
  unfold GQA.projected_qkv.
  destruct (linear _ _) as [y|]; [|done]. simpl.
  case_decide; [done|].
  destruct (reshape y _) as [y1|]; [|done]. simpl.
  destruct (permute y1 _) as [y2|]; [|done]. simpl.
  destruct (split3 y2 _ _ _ _) as [[[q0 k0] v0]|]; [|done]. simpl.
  match goal with |- context [result_bind ?m _] =>
    destruct m as [[k1 v1]|]; [|done] end. simpl.
  destruct (reshape_infer q0 _ _) as [q2|] eqn:Eq; [|done]. simpl.
  destruct (reshape_infer k1 _ _) as [k2|] eqn:Ek; [|done]. simpl.
  destruct (reshape_infer v1 _ _) as [v2|] eqn:Ev; [|done]. simpl.
  intros [= <- <- <-].
  apply reshape_infer_Ok in Eq as (_ & _ & ->).
  apply reshape_infer_Ok in Ek as (_ & _ & ->).
  apply reshape_infer_Ok in Ev as (_ & _ & ->).
  by eexists _, _, _.
Qed.

Lemma slice_stop_nonneg d r : (0 ≤ r)%Z → slice_stop d r ≤ Z.to_nat r.
Proof. intros Hr. unfold slice_stop. rewrite decide_True by done. lia. Qed.

End Forward_facts.

Module Cache_facts.
Import Freqs_facts.

Lemma arange_bound_Ok z : (0 ≤ z)%Z → arange_bound z = Ok (Z.to_nat z).
Proof. intros Hz. unfold arange_bound. by rewrite decide_False by lia. Qed.

(** *** MHSAttention *)

Definition MHS_same (s s0 : MHSAttention.t) : Prop :=
  MHSAttention.dim s = MHSAttention.dim s0 ∧
  MHSAttention.num_heads s = MHSAttention.num_heads s0 ∧
  MHSAttention.rpe_ratio s = MHSAttention.rpe_ratio s0 ∧
  MHSAttention.use_cls_token s = MHSAttention.use_cls_token s0.

Lemma MHS_table_same s s0 N :
  MHS_same s s0 → MHSAttention.table s N = MHSAttention.table s0 N.
Proof.
  intros (Hd & Hh & Hr & Hc). unfold MHSAttention.table.
  by rewrite Hd, Hh, Hr, Hc.
Qed.

Lemma MHS_table_ok (s : MHSAttention.t) N r :
  MHSAttention.use_cls_token s = false →
  int_mul (MHSAttention.dim s / MHSAttention.num_heads s)
    (MHSAttention.rpe_ratio s) = Ok r →
  (0 ≤ r)%Z → 0 < N →
  ∃ tbl, MHSAttention.table s N = Ok tbl ∧ length tbl = N.
Proof.
  intros Hcls Hr Hd HN. unfold MHSAttention.table. rewrite Hr. simpl.
  rewrite arange_bound_Ok by done. simpl. rewrite Hcls.
  destruct (precompute_freqs_cis_2d_ok (Z.to_nat r)
              N 10000 1 false (-1) HN) as (tbl & Ht & Hl & _).
  by exists tbl.
Qed.

(** What holds of the module between forward calls. *)
Definition MHS_inv (s0 s : MHSAttention.t) : Prop :=
  MHS_same s s0 ∧
  (MHSAttention.freqs_cis s = None ∨
   ∃ N tbl, 0 < N ∧ MHSAttention.table s0 N = Ok tbl ∧
            MHSAttention.freqs_cis s = Some tbl).

Lemma MHS_refresh_inv (s0 s : MHSAttention.t) N r :
  MHSAttention.use_cls_token s0 = false →
  int_mul (MHSAttention.dim s0 / MHSAttention.num_heads s0)
    (MHSAttention.rpe_ratio s0) = Ok r →
  (0 ≤ r)%Z → 0 < N → MHS_inv s0 s →
  ∃ tbl, MHSAttention.table s0 N = Ok tbl ∧ length tbl = N ∧
         (MHSAttention.refresh s N).2 = Ok () ∧
         MHSAttention.freqs_cis (MHSAttention.refresh s N).1 = Some tbl ∧
         MHS_inv s0 (MHSAttention.refresh s N).1.
Proof.
  intros Hcls Hr Hd HN [Hsame Hcache].
  destruct (MHS_table_ok s0 N r Hcls Hr Hd HN) as (tbl & Ht & Hl).
  exists tbl. split; [done|]. split; [done|].
  unfold MHSAttention.refresh. rewrite (MHS_table_same s s0 N Hsame), Ht.
  assert (MHS_inv s0 (MHSAttention.set_freqs_cis s tbl)) as Hnew.
  { split; [exact Hsame|]. right. by exists N, tbl. }
  destruct Hcache as [Hc|(N' & tbl' & HN' & Ht' & Hc)]; rewrite Hc; [done|].
  case_decide as Hne; [done|]. simpl.
  destruct (MHS_table_ok s0 N' r Hcls Hr Hd HN') as (tbl'' & Ht'' & Hl'').
  assert (tbl'' = tbl') as -> by congruence.
  assert (N' = N) as -> by lia.
  assert (tbl' = tbl) as -> by congruence.
  split_and!; [done..|]. split; [done|]. right. by exists N, tbl.
Qed.

Lemma MHS_run_inv (s0 : MHSAttention.t) Ns r :
  MHSAttention.use_cls_token s0 = false →
  int_mul (MHSAttention.dim s0 / MHSAttention.num_heads s0)
    (MHSAttention.rpe_ratio s0) = Ok r →
  (0 ≤ r)%Z →
  Forall (λ N, 0 < N) Ns →
  ∀ s, MHS_inv s0 s → MHS_inv s0 (MHSAttention.run s Ns).
Proof.
  intros Hcls Hr Hd.
  induction 1 as [|N Ns HN _ IH]; intros s Hs; simpl; [done|].
  apply IH.
  by destruct (MHS_refresh_inv s0 s N r Hcls Hr Hd HN Hs)
    as (? & _ & _ & _ & _ & ?).
Qed.

(** *** GroupAttention *)

Definition Group_same (s s0 : GroupAttention.t) : Prop :=
  GroupAttention.dim s = GroupAttention.dim s0 ∧
  GroupAttention.num_heads s = GroupAttention.num_heads s0 ∧
  GroupAttention.ws s = GroupAttention.ws s0 ∧
  GroupAttention.rpe_ratio s = GroupAttention.rpe_ratio s0 ∧
  GroupAttention.use_cls_token s = GroupAttention.use_cls_token s0.

Lemma Group_table_same s s0 :
  Group_same s s0 → GroupAttention.table s = GroupAttention.table s0.
Proof.
  intros (Hd & Hh & Hw & Hr & Hc). unfold GroupAttention.table.
  by rewrite Hd, Hh, Hw, Hr, Hc.
Qed.

Lemma Group_table_ok (s : GroupAttention.t) r :
  int_mul (GroupAttention.dim s / GroupAttention.num_heads s)
    (GroupAttention.rpe_ratio s) = Ok r →
  (0 ≤ r)%Z →
  0 < GroupAttention.ws s →
  ∃ tbl, GroupAttention.table s = Ok tbl.
Proof.
  intros Hr Hd Hws. unfold GroupAttention.table. rewrite Hr. simpl.
  rewrite arange_bound_Ok by done. simpl.
  destruct (precompute_freqs_cis_2d_ok (Z.to_nat r)
              (GroupAttention.ws s * GroupAttention.ws s) 10000 1
              (GroupAttention.use_cls_token s) (-1)) as (tbl & Ht & _); [nia|].
  by exists tbl.
Qed.

Definition Group_inv (s0 s : GroupAttention.t) : Prop :=
  Group_same s s0 ∧
  (GroupAttention.freqs_cis s = None ∨
   ∃ tbl, GroupAttention.table s0 = Ok tbl ∧
          GroupAttention.freqs_cis s = Some tbl).

Lemma Group_refresh_inv (s0 s : GroupAttention.t) N r :
  int_mul (GroupAttention.dim s0 / GroupAttention.num_heads s0)
    (GroupAttention.rpe_ratio s0) = Ok r →
  (0 ≤ r)%Z →
  0 < GroupAttention.ws s0 → Group_inv s0 s →
  ∃ tbl, GroupAttention.table s0 = Ok tbl ∧
         (GroupAttention.refresh s N).2 = Ok () ∧
         GroupAttention.freqs_cis (GroupAttention.refresh s N).1 = Some tbl ∧
         Group_inv s0 (GroupAttention.refresh s N).1.
Proof.
  intros Hr Hd Hws [Hsame Hcache].
  destruct (Group_table_ok s0 r Hr Hd Hws) as (tbl & Ht).
  exists tbl. split; [done|].
  unfold GroupAttention.refresh. rewrite (Group_table_same s s0 Hsame), Ht.
  assert (Group_inv s0 (GroupAttention.set_freqs_cis s tbl)) as Hnew.
  { split; [exact Hsame|]. right. by exists tbl. }
  destruct Hcache as [Hc|(tbl' & Ht' & Hc)]; rewrite Hc; [done|].
  assert (tbl' = tbl) as -> by congruence.
  case_decide; [done|]. simpl. split_and!; [done..|].
  split; [done|]. right. by exists tbl.
Qed.

Lemma Group_run_inv (s0 : GroupAttention.t) Ns r :
  int_mul (GroupAttention.dim s0 / GroupAttention.num_heads s0)
    (GroupAttention.rpe_ratio s0) = Ok r →
  (0 ≤ r)%Z →
  0 < GroupAttention.ws s0 →
  ∀ s, Group_inv s0 s → Group_inv s0 (GroupAttention.run s Ns).
Proof.
  intros Hr Hd Hws. induction Ns as [|N Ns IH]; intros s Hs; simpl; [done|].
  apply IH.
  by destruct (Group_refresh_inv s0 s N r Hr Hd Hws Hs) as (? & _ & _ & _ & ?).
Qed.

(** *** GSAttention *)

Definition GS_same (s s0 : GSAttention.t) : Prop :=
  GSAttention.dim s = GSAttention.dim s0 ∧
  GSAttention.num_heads s = GSAttention.num_heads s0 ∧
  GSAttention.sr_ratio s = GSAttention.sr_ratio s0 ∧
  GSAttention.rpe_ratio s = GSAttention.rpe_ratio s0 ∧
  GSAttention.use_cls_token s = GSAttention.use_cls_token s0.

Lemma GS_same_refl s : GS_same s s.
Proof. by repeat split. Qed.

Lemma GS_tables_same s s0 :
  GS_same s s0 →
  GSAttention.rpe_dim s = GSAttention.rpe_dim s0 ∧
  (∀ r N W theta scale,
     GSAttention.q_table s r N W theta scale
     = GSAttention.q_table s0 r N W theta scale) ∧
  (∀ r N W scale,
     GSAttention.k_table s r N W scale = GSAttention.k_table s0 r N W scale).
Proof.
  intros (Hd & Hh & Hs & Hr & Hc).
  unfold GSAttention.q_table, GSAttention.k_table, GSAttention.rpe_dim.
  rewrite Hd, Hh, Hs, Hr, Hc. done.
Qed.

Lemma GS_q_table_ok (s : GSAttention.t) r N W theta scale :
  GSAttention.use_cls_token s = false → (0 < r)%Z → 0 < N →
  ∃ tbl, GSAttention.q_table s r N W theta scale = Ok tbl ∧ length tbl = N.
Proof.
  intros Hcls Hd HN. unfold GSAttention.q_table.
  rewrite arange_bound_Ok by lia. simpl. rewrite Hcls.
  destruct (precompute_freqs_cis_2d_general_ok
              (Z.to_nat r) N 1 W 0 theta scale false HN)
    as (tbl & Ht & Hl & _).
  by exists tbl.
Qed.

Lemma GS_k_table_ok (s : GSAttention.t) r N W scale :
  GSAttention.use_cls_token s = false → (0 < r)%Z → 0 < N →
  ∃ tbl, GSAttention.k_table s r N W scale = Ok tbl ∧ length tbl = N.
Proof.
  intros Hcls Hd HN. unfold GSAttention.k_table.
  rewrite arange_bound_Ok by lia. simpl. rewrite Hcls.
  destruct (precompute_freqs_cis_2d_general_ok
              (Z.to_nat r) N
              (Z.of_nat (GSAttention.sr_ratio s)) W
              (1 - 1 / INR (GSAttention.sr_ratio s)) 10000 scale false HN)
    as (tbl & Ht & Hl & _).
  by exists tbl.
Qed.

Lemma GS_refresh_q_ok (s : GSAttention.t) r N W theta scale :
  GSAttention.use_cls_token s = false → (0 < r)%Z → 0 < N →
  ∃ s' tq,
    GSAttention.refresh_q s r N W theta scale = (s', Ok ()) ∧
    GS_same s' s ∧
    GSAttention.k_freqs_cis s' = GSAttention.k_freqs_cis s ∧
    GSAttention.q_freqs_cis s' = Some tq ∧ length tq = N ∧
    ((∀ c, GSAttention.q_freqs_cis s = Some c → length c ≠ N) →
     GSAttention.q_table s r N W theta scale = Ok tq).
Proof.
  intros Hcls Hd HN.
  destruct (GS_q_table_ok s r N W theta scale Hcls Hd HN) as (tbl & Ht & Hl).
  unfold GSAttention.refresh_q. rewrite Ht.
  destruct (GSAttention.q_freqs_cis s) as [cached|] eqn:Hq.
  - rewrite bool_decide_eq_false_2 by done. simpl.
    case_decide as Hne.
    + exists (GSAttention.set_q_freqs_cis s tbl), tbl.
      split_and!; done || apply GS_same_refl.
    + exists s, cached.
      split_and!; try (done || apply GS_same_refl || lia).
      intros Hc. destruct (Hc cached eq_refl). lia.
  - rewrite !bool_decide_eq_true_2 by done. simpl.
    exists (GSAttention.set_q_freqs_cis s tbl), tbl.
    split_and!; done || apply GS_same_refl.
Qed.

Lemma GS_refresh_k_ok (s : GSAttention.t) r N N_reduce W scale :
  GSAttention.use_cls_token s = false → (0 < r)%Z →
  0 < N_reduce → N / GSAttention.sr_ratio s ^ 2 = N_reduce →
  ∃ s' tk,
    GSAttention.refresh_k s r N N_reduce W scale = (s', Ok ()) ∧
    GSAttention.q_freqs_cis s' = GSAttention.q_freqs_cis s ∧
    GSAttention.k_freqs_cis s' = Some tk ∧ length tk = N_reduce ∧
    ((∀ c, GSAttention.k_freqs_cis s = Some c → length c ≠ N_reduce) →
     GSAttention.k_table s r N_reduce W scale = Ok tk).
Proof.
  intros Hcls Hd HN Hdiv.
  destruct (GS_k_table_ok s r N_reduce W scale Hcls Hd HN) as (tbl & Ht & Hl).
  unfold GSAttention.refresh_k. rewrite Ht, Hdiv.
  destruct (GSAttention.k_freqs_cis s) as [cached|] eqn:Hk.
  - rewrite bool_decide_eq_false_2 by done. simpl.
    case_decide as Hne.
    + by exists (GSAttention.set_k_freqs_cis s tbl), tbl.
    + exists s, cached. split_and!; try (done || lia).
      intros Hc. destruct (Hc cached eq_refl). lia.
  - rewrite !bool_decide_eq_true_2 by done. simpl.
    by exists (GSAttention.set_k_freqs_cis s tbl), tbl.
Qed.

Lemma GS_scale_theta_ok (s : GSAttention.t) H base_size :
  0 < H → ∃ scale theta, GSAttention.scale_theta s H base_size = Ok (scale, theta).
Proof.
  intros HH. unfold GSAttention.scale_theta.
  destruct (GSAttention.auto_scale s); [rewrite decide_False by lia|];
    simpl; destruct (GSAttention.use_ntk s); by eexists _, _.
Qed.

Lemma GS_refresh_ok (s : GSAttention.t) r N H W base_size :
  GSAttention.use_cls_token s = false →
  GSAttention.rpe_dim s = Ok r → (0 < r)%Z →
  GSAttention.sr_ratio s ≠ 0 → N = H * W →
  0 < H * W / GSAttention.sr_ratio s / GSAttention.sr_ratio s →
  ∃ s' tq tk scale theta,
    GSAttention.scale_theta s H base_size = Ok (scale, theta) ∧
    GSAttention.refresh s N H W base_size = (s', Ok ()) ∧
    GSAttention.q_freqs_cis s' = Some tq ∧ length tq = N ∧
    GSAttention.k_freqs_cis s' = Some tk ∧
    length tk = H * W / GSAttention.sr_ratio s / GSAttention.sr_ratio s ∧
    ((∀ c, GSAttention.q_freqs_cis s = Some c → length c ≠ N) →
     GSAttention.q_table s r N W theta scale = Ok tq) ∧
    ((∀ c, GSAttention.k_freqs_cis s = Some c →
           length c ≠ H * W / GSAttention.sr_ratio s / GSAttention.sr_ratio s) →
     GSAttention.k_table s r
       (H * W / GSAttention.sr_ratio s / GSAttention.sr_ratio s) W scale = Ok tk).
Proof.
  intros Hcls Hr Hd Hsr -> Hred.
  set (sr := GSAttention.sr_ratio s) in *.
  assert (0 < H * W) as HN.
  { destruct (H * W) eqn:E; [|lia]. by rewrite !Nat.Div0.div_0_l in Hred. }
  assert (0 < H) as HH by nia.
  destruct (GS_scale_theta_ok s H base_size HH) as (scale & theta & Hst).
  destruct (GS_refresh_q_ok s r (H * W) W theta scale Hcls Hd HN)
    as (s1 & tq & Hrq & Hsame & Hk1 & Hq1 & Hlq & Hfresh).
  destruct (GS_tables_same s1 s Hsame) as (Hd1 & _ & Hkt).
  destruct Hsame as (_ & _ & Hsr1 & _ & Hcls1).
  destruct (GS_refresh_k_ok s1 r (H * W) (H * W / sr / sr) W scale)
    as (s2 & tk & Hrk & Hq2 & Hk2 & Hlk & Hfreshk).
  { by rewrite Hcls1. } { done. } { done. }
  { rewrite Hsr1. fold sr. by rewrite Nat.pow_2_r, Nat.Div0.div_div. }
  exists s2, tq, tk, scale, theta. split; [done|].
  unfold GSAttention.refresh. fold sr. rewrite decide_False by done.
  rewrite Hr, Hst, Hrq. split; [done|].
  split_and!; try done; [congruence|].
  intros Hc. rewrite <- Hkt. apply Hfreshk. intros c. rewrite Hk1. apply Hc.
Qed.

End Cache_facts.

Module GQA_facts.
Import Torch Torch_facts.

Ltac in_range := repeat constructor; nia.

(** [qkv.view(B, T, g, tot, hd).permute(0, 2, 3, 1, 4)]: element
    [(b, gi, j, t, c)] is channel [(gi * tot + j) * hd + c] of token [t]. *)
Lemma GQA_view_permute (y : tensor R) (B T g tot hd K : nat) :
  shape y = [B; T; K] → K = g * tot * hd →
  ∃ y1 y2,
    reshape y [B; T; g; tot; hd] = Ok y1 ∧
    permute y1 [0; 2; 3; 1; 4] = Ok y2 ∧
    shape y2 = [B; g; tot; T; hd] ∧
    ∀ b gi j t c, b < B → gi < g → j < tot → t < T → c < hd →
      get y2 [b; gi; j; t; c] = get y [b; t; (gi * tot + j) * hd + c].
Proof.
  intros Hys ->.
  destruct (reshape_intro y [B; T; g; tot; hd]) as (y1 & Hy1 & Hs1 & Hg1).
  { rewrite Hys. simpl. lia. }
  destruct (permute_intro y1 [0; 2; 3; 1; 4]) as (y2 & Hy2 & Hs2 & Hg2).
  { rewrite Hs1. apply (bool_decide_unpack _). by vm_compute. }
  exists y1, y2. rewrite Hs1 in Hs2. simpl in Hs2.
  split_and!; [done..|].
  intros b gi j t c Hb Hgi Hj Ht Hc.
  rewrite Hg2. simpl. rewrite Hg1, Hys.
  replace (ravel [B; T; g; tot; hd] [b; t; gi; j; c])
    with (ravel [B; T; g * tot * hd] [b; t; (gi * tot + j) * hd + c])
    by (simpl; lia).
  rewrite unravel_ravel; [done|].
  repeat constructor; try done.
  assert (gi * tot + j < g * tot) by nia. nia.
Qed.

Lemma GQA_heads (self : GQA.t) (B T C : nat) (x y : tensor R) :
  shape x = [B; T; C] →
  linear (GQA.qkv self) x = Ok y →
  shape y = [B; T; (GQA.num_heads self + 2 * GQA.query_groups self)
                   * GQA.head_dim self] →
  0 < B → 0 < T → 0 < GQA.head_dim self → 0 < GQA.num_heads self →
  let h := GQA.num_heads self in
  let hd := GQA.head_dim self in
  (GQA.query_groups self = 1 →
   ∃ q k v, GQA.projected_qkv self B T x = Ok (q, k, v) ∧
            shape q = [B; h; T; hd] ∧
            shape k = [B; 1; T; hd] ∧
            shape v = [B; 1; T; hd] ∧
            ∀ b a t c, b < B → a < h → t < T → c < hd →
              get q [b; a; t; c] = get y [b; t; a * hd + c] ∧
              get k [b; 0; t; c] = get y [b; t; h * hd + c] ∧
              get v [b; 0; t; c] = get y [b; t; (h + 1) * hd + c]) ∧
  (GQA.query_groups self = h →
   ∃ q k v, GQA.projected_qkv self B T x = Ok (q, k, v) ∧
            shape q = [B; h; T; hd] ∧
            shape k = [B; h; T; hd] ∧
            shape v = [B; h; T; hd] ∧
            ∀ b a t c, b < B → a < h → t < T → c < hd →
              get q [b; a; t; c] = get y [b; t; (3 * a) * hd + c] ∧
              get k [b; a; t; c] = get y [b; t; (3 * a + 1) * hd + c] ∧
              get v [b; a; t; c] = get y [b; t; (3 * a + 2) * hd + c]).
Proof.
  intros Hx Hy Hys HB HT Hhd Hh h hd. fold h hd in Hys, Hhd, Hh.
  split; intros Hg.
  - unfold GQA.projected_qkv. rewrite Hy. simpl. rewrite Hg.
    rewrite decide_False by done. fold h hd. rewrite Nat.div_1_r.
    rewrite Hg in Hys.
    destruct (GQA_view_permute y B T 1 (h + 2) hd _ Hys)
      as (y1 & y2 & -> & Hp & Hy2 & Hg2); [lia|].
    simpl. rewrite Hp. simpl.
    unfold split3. rewrite Hy2. simpl.
    rewrite decide_True by lia. simpl.
    destruct (reshape_infer_intro (narrow y2 2 0 h) [B] [T; hd] h)
      as (q & Hq & Hqs & Hgq).
    { simpl. nia. } { simpl. rewrite Hy2. simpl. lia. }
    rewrite Hq. simpl.
    destruct (reshape_infer_intro (narrow y2 2 h 1) [B] [T; hd] 1)
      as (k & Hk & Hks & Hgk).
    { simpl. nia. } { simpl. rewrite Hy2. simpl. lia. }
    rewrite Hk. simpl.
    destruct (reshape_infer_intro (narrow y2 2 (h + 1) 1) [B] [T; hd] 1)
      as (v & Hv & Hvs & Hgv).
    { simpl. nia. } { simpl. rewrite Hy2. simpl. lia. }
    rewrite Hv. simpl.
    exists q, k, v. split_and!; [done..|].
    intros b a t c Hb Ha Ht Hc.
    rewrite Hgq, Hgk, Hgv. simpl shape. rewrite Hy2. simpl (<[_:=_]> _).
    replace (ravel ([B] ++ [h] ++ [T; hd]) [b; a; t; c])
      with (ravel [B; 1; h; T; hd] [b; 0; a; t; c]) by (simpl; lia).
    rewrite (unravel_ravel [B; 1; h; T; hd] [b; 0; a; t; c]) by in_range.
    replace (ravel ([B] ++ [1] ++ [T; hd]) [b; 0; t; c])
      with (ravel [B; 1; 1; T; hd] [b; 0; 0; t; c]) by (simpl; lia).
    rewrite (unravel_ravel [B; 1; 1; T; hd] [b; 0; 0; t; c]) by in_range.
    simpl. rewrite !Hg2 by lia.
    split_and!; f_equal; f_equal; f_equal; f_equal; lia.
  - unfold GQA.projected_qkv. rewrite Hy. simpl. rewrite Hg. fold h hd.
    rewrite decide_False by lia. rewrite Nat.div_same by lia.
    rewrite Hg in Hys. fold h in Hys.
    destruct (GQA_view_permute y B T h (1 + 2) hd _ Hys)
      as (y1 & y2 & -> & Hp & Hy2 & Hg2); [lia|].
    simpl. rewrite Hp. simpl.
    unfold split3. rewrite Hy2. simpl.
    assert (∃ k1 v1,
      (if decide (h ≠ 1)
       then do k <- expand (narrow y2 2 1 1) [B; h; 1; T; hd];
            do v <- expand (narrow y2 2 2 1) [B; h; 1; T; hd];
            Ok (k, v)
       else Ok (narrow y2 2 1 1, narrow y2 2 2 1)) = Ok (k1, v1) ∧
      shape k1 = [B; h; 1; T; hd] ∧ shape v1 = [B; h; 1; T; hd] ∧
      ∀ b a t c, b < B → a < h → t < T → c < hd →
        get k1 [b; a; 0; t; c] = get y2 [b; a; 1; t; c] ∧
        get v1 [b; a; 0; t; c] = get y2 [b; a; 2; t; c])
      as (k1 & v1 & Hkv & Hk1 & Hv1 & Hgkv).
    { case_decide.
      - unfold expand. simpl. rewrite Hy2. simpl.
        rewrite !decide_True by (split; [done|]; repeat constructor).
        simpl. eexists _, _. split; [done|]. split_and!; [done..|].
        intros b a t c Hb Ha Ht Hc. simpl.
        repeat case_decide; split; do 2 f_equal; repeat f_equal; lia.
      - eexists _, _. split; [done|]. simpl. rewrite Hy2. done. }
    rewrite Hkv. simpl.
    destruct (reshape_infer_intro (narrow y2 2 0 1) [B] [T; hd] h)
      as (q & Hq & Hqs & Hgq).
    { simpl. nia. } { simpl. rewrite Hy2. simpl. lia. }
    rewrite Hq. simpl.
    destruct (reshape_infer_intro k1 [B] [T; hd] h) as (k & Hk & Hks & Hgk).
    { simpl. nia. } { rewrite Hk1. simpl. lia. }
    rewrite Hk. simpl.
    destruct (reshape_infer_intro v1 [B] [T; hd] h) as (v & Hv & Hvs & Hgv).
    { simpl. nia. } { rewrite Hv1. simpl. lia. }
    rewrite Hv. simpl.
    exists q, k, v. split_and!; [done..|].
    intros b a t c Hb Ha Ht Hc.
    rewrite Hgq, Hgk, Hgv, Hk1, Hv1. simpl shape. rewrite Hy2.
    simpl (<[_:=_]> _).
    replace (ravel ([B] ++ [h] ++ [T; hd]) [b; a; t; c])
      with (ravel [B; h; 1; T; hd] [b; a; 0; t; c]) by (simpl; lia).
    rewrite (unravel_ravel [B; h; 1; T; hd] [b; a; 0; t; c]) by in_range.
    destruct (Hgkv b a t c Hb Ha Ht Hc) as [-> ->].
    simpl. rewrite !Hg2 by lia.
    split_and!; f_equal; f_equal; f_equal; f_equal; lia.
Qed.

(** [GQA(dim=1, num_heads=2)] has [head_dim = 0]: the constructor
    raises at [head_dim ** -0.5] when [qk_scale] is [None] or [0.], and
    returns when [qk_scale] is another number. *)
Example GQA_init_head_dim_0 (ratio : Float64.float)
    (W : nat → nat → R) (b : nat → R) :
  GQA.init 1 2 None ratio 1 W W b b = Raise ZeroDivisionError ∧
  GQA.init 1 2 (Some 0%R) ratio 1 W W b b = Raise ZeroDivisionError ∧
  is_ok (GQA.init 1 2 (Some 2%R) ratio 1 W W b b) = true.
Proof.
  unfold GQA.init, GQA.qk_scale_or. cbn.
  split; [done|].
  destruct (Req_dec_T 0 0) as [_|Hne]; [|done].
  destruct (Req_dec_T 2 0) as [H2|_]; [lra|]. done.
Qed.

End GQA_facts.

(** * The claims *)

Section Claims_masks.
Import GSAttention_mask GSAttention_mask_facts.
Import RAttention RAttention_mask_facts.

(** C1.  In [GSAttention.forward] with [casual_attn=True], on an [H x W]
    grid whose keys are reduced by [sr_ratio], the mask is built without
    raising, has [H * W] rows of [N_reduce = H * W // sr_ratio //
    sr_ratio] entries, the vector [token_visible_num] holds at query [i]
    the count [x_block * sr_ratio + y_block + 1] with
    [x_block = i div (sr_ratio * H)] and
    [y_block = (i div H + (i mod H) * H) div (sr_ratio * H)], and row [i]
    holds [0.] exactly at the reduced keys [j] below that count and [-inf]
    at the others.  (The claim is the case [H = W].) *)
Theorem C1_grouped_causal_mask (H W sr_ratio i j : nat) :
  0 < sr_ratio → i < H * W → j < H * W / sr_ratio / sr_ratio →
  ∃ m : mask,
    forward_causal_mask sr_ratio H W = Ok m ∧
    length m = H * W ∧
    Forall (λ row, length row = H * W / sr_ratio / sr_ratio) m ∧
    token_visible_num H W sr_ratio !! i =
      Some (i / (sr_ratio * H) * sr_ratio
            + (i / H + i mod H * H) / (sr_ratio * H) + 1) ∧
    at2 m i j =
      Some (if j <? i / (sr_ratio * H) * sr_ratio
                    + (i / H + i mod H * H) / (sr_ratio * H) + 1
            then zero_bias else neg_inf).
Proof.
  intros Hsr Hi Hj. unfold forward_causal_mask.
  rewrite decide_False by lia.
  eexists. split; [reflexivity|].
  destruct (shape_causal_mask H W sr_ratio (H * W / sr_ratio / sr_ratio))
    as [Hlen Hrows].
  split_and!; [done|done|by apply lookup_token_visible_num|].
  rewrite at2_causal_mask by done.
  unfold visible_count, x_block, y_block.
  case_decide as Hd; destruct (Nat.ltb_spec j
    (i / (sr_ratio * H) * sr_ratio + (i / H + i mod H * H) / (sr_ratio * H) + 1));
    done || lia.
Qed.

(** The golden value of deit/my_py/test.py: for [H = W = 4],
    [sr_ratio = 2], query 5 sees one reduced key; the script's own
    vector holds the same count. *)
Lemma C1_golden_4x4_query_5 :
  (0 < 2 ∧ 5 < 4 * 4 ∧ 1 < 4 * 4 / 2 / 2) ∧
  TestPy.token_visible_num !! 5 = Some 1 ∧
  ∃ m : mask,
    forward_causal_mask 2 4 4 = Ok m ∧
    length m = 16 ∧
    Forall (λ row, length row = 4) m ∧
    token_visible_num 4 4 2 !! 5 = Some 1 ∧
    at2 m 5 1 = Some neg_inf.
Proof.
  split; [repeat split; vm_compute; lia|].
  split; [reflexivity|].
  apply (C1_grouped_causal_mask 4 4 2 5 1); vm_compute; lia.
Defined.

(** C2.  [RAttention] constructed with [casual_attn_2d=True],
    [use_cls_token=False] and [token_num = H * H]: the constructor
    succeeds and caches a [token_num x token_num] mask whose entry
    [(i, j)] is [0.] when [j div H <= i div H] and [j mod H <= i mod H],
    and [-inf] otherwise. *)
Theorem C2_raster_causal_mask (b : Attention) (c : config) (H i j : nat) :
  casual_attn_2d c = true → use_cls_token c = false →
  token_num c = Some (H * H) →
  i < H * H → j < H * H →
  ∃ (m : RAttention.t) (M : mask),
    init b c = Ok m ∧ casual_mask m = Some M ∧ length M = H * H ∧
    at2 M i j =
      Some (if (j / H <=? i / H) && (j mod H <=? i mod H)
            then zero_bias else neg_inf).
Proof.
  intros H2d Hcls Htn Hi Hj. unfold init. rewrite H2d, Htn, Hcls.
  destruct (casual_mask_2d_ok H) as (M & -> & Hlen & Hat). simpl.
  eexists _, M. split_and!; [done..|].
  rewrite Hat by done. unfold sees.
  destruct (Nat.leb_spec (j / H) (i / H)), (Nat.leb_spec (j mod H) (i mod H));
    rewrite ?bool_decide_eq_true_2, ?bool_decide_eq_false_2 by lia; done.
Qed.

(** The 2 x 2 grid: index 3 sees all four positions, index 0 only
    itself. *)
Lemma C2_grid_2x2 :
  let b := Examples.attention 2 8 in
  let c := {| enable_rpe := true; rpe_ratio := Float64.of_Z 1;
              token_num := Some 4; casual_attn_1d := false;
              casual_attn_2d := true; use_cls_token := false |} in
  (casual_attn_2d c = true ∧ use_cls_token c = false ∧
   token_num c = Some (2 * 2) ∧ 3 < 2 * 2 ∧ 0 < 2 * 2) ∧
  ∃ (m : RAttention.t) (M : mask),
    init b c = Ok m ∧ casual_mask m = Some M ∧
    M !! 0 = Some [zero_bias; neg_inf; neg_inf; neg_inf] ∧
    M !! 3 = Some [zero_bias; zero_bias; zero_bias; zero_bias] ∧
    M = [ [zero_bias; neg_inf; neg_inf; neg_inf];
          [zero_bias; zero_bias; neg_inf; neg_inf];
          [zero_bias; neg_inf; zero_bias; neg_inf];
          [zero_bias; zero_bias; zero_bias; zero_bias] ].
Proof.
  intros b c. split; [repeat split; vm_compute; lia|].
  destruct (C2_raster_causal_mask b c 2 3 0 eq_refl eq_refl eq_refl)
    as (m & M & Hinit & HM & _ & _); [vm_compute; lia..|].
  exists m, M. split; [exact Hinit|]. split; [exact HM|].
  assert (M = [ [zero_bias; neg_inf; neg_inf; neg_inf];
                [zero_bias; zero_bias; neg_inf; neg_inf];
                [zero_bias; neg_inf; zero_bias; neg_inf];
                [zero_bias; zero_bias; zero_bias; zero_bias] ]) as ->;
    [|repeat split].
  unfold init, c in Hinit. simpl in Hinit.
  change (casual_mask_2d 4) with
    (Ok (A := mask) [ [zero_bias; neg_inf; neg_inf; neg_inf];
                [zero_bias; zero_bias; neg_inf; neg_inf];
                [zero_bias; neg_inf; zero_bias; neg_inf];
                [zero_bias; zero_bias; zero_bias; zero_bias] ]) in Hinit.
  simpl in Hinit. injection Hinit as <-. simpl in HM. by injection HM.
Defined.

End Claims_masks.

Section Claims_tables.
Import Freqs_facts.

(** C8.  For every rotary width, every table length with at least one
    position, every base [theta > 0] and every [scale]: each entry of the
    table of [precompute_freqs_cis], and each entry of the table that
    [precompute_freqs_cis_2d] returns, has magnitude exactly 1 (real
    arithmetic). *)
Theorem C8_unit_phasors (dim end_ : nat) (theta scale : R)
    (use_cls : bool) (cls_pos : Z) :
  0 < end_ → (0 < theta)%R →
  Forall (Forall (λ z, Cabs z = 1%R)) (precompute_freqs_cis dim end_ theta scale) ∧
  length (precompute_freqs_cis dim end_ theta scale) = end_ ∧
  ∃ tbl,
    precompute_freqs_cis_2d dim end_ theta scale use_cls cls_pos = Ok tbl ∧
    length tbl = (if use_cls then end_ + 1 else end_) ∧
    Forall (Forall (λ z, Cabs z = 1%R)) tbl.
Proof.
  intros Hend _. split; [apply precompute_freqs_cis_unit|].
  split; [apply precompute_freqs_cis_shape|].
  destruct (precompute_freqs_cis_2d_ok dim end_ theta scale use_cls cls_pos Hend)
    as (tbl & Htbl & Hlen & _ & Hunit).
  by exists tbl.
Qed.

(** The 2 x 2 grid with rotary width 4 and the default base. *)
Lemma C8_table_2x2 :
  (0 < 4 ∧ (0 < 10000)%R) ∧
  Forall (Forall (λ z, Cabs z = 1%R)) (precompute_freqs_cis 4 4 10000 1) ∧
  length (precompute_freqs_cis 4 4 10000 1) = 4 ∧
  ∃ tbl,
    precompute_freqs_cis_2d 4 4 10000 1 false (-1) = Ok tbl ∧
    length tbl = 4 ∧
    Forall (Forall (λ z, Cabs z = 1%R)) tbl.
Proof.
  split; [split; [lia|lra]|].
  apply (C8_unit_phasors 4 4 10000 1 false (-1)); [lia|lra].
Defined.

(** C4 (as the code has it).  Neither [precompute_freqs_cis_2d] nor
    [precompute_freqs_cis_2d_general] tests [dim]: for every [dim] and
    every table length with at least one position the call returns a
    table with [2 * (dim // 4)] complex channels per position, whether or
    not 4 divides [dim]. *)
Theorem C4_no_check_on_dim (dim end_ : nat) (theta scale bias : R)
    (use_cls : bool) (cls_pos step : Z) (W : nat) :
  0 < end_ →
  (∃ tbl,
     precompute_freqs_cis_2d dim end_ theta scale use_cls cls_pos = Ok tbl ∧
     length tbl = (if use_cls then end_ + 1 else end_) ∧
     Forall (λ row, length row = 2 * (dim / 4)) tbl) ∧
  (∃ tbl,
     precompute_freqs_cis_2d_general dim end_ step W bias theta scale use_cls
       = Ok tbl ∧
     length tbl = (if use_cls then end_ + 1 else end_) ∧
     Forall (λ row, length row = 2 * (dim / 4)) tbl).
Proof.
  intros Hend. split.
  - destruct (precompute_freqs_cis_2d_ok dim end_ theta scale use_cls cls_pos Hend)
      as (tbl & ? & ? & ? & _). by exists tbl.
  - destruct (precompute_freqs_cis_2d_general_ok dim end_ step W bias theta scale
                use_cls Hend) as (tbl & ? & ? & ? & _). by exists tbl.
Qed.

Lemma C4_dim_8_grid_2x2 :
  0 < 4 ∧
  (∃ tbl,
     precompute_freqs_cis_2d 8 4 10000 1 false (-1) = Ok tbl ∧
     length tbl = 4 ∧ Forall (λ row, length row = 4) tbl) ∧
  (∃ tbl,
     precompute_freqs_cis_2d_general 8 4 1 2 0 10000 1 false = Ok tbl ∧
     length tbl = 4 ∧ Forall (λ row, length row = 4) tbl).
Proof.
  split; [lia|].
  apply (C4_no_check_on_dim 8 4 10000 1 0 false (-1) 1 2). lia.
Defined.

(** [dim = 6] is not a multiple of 4, yet both calls return a table; it
    has 2 complex channels per position, not the 3 that a width of 6
    holds. *)
Lemma C4_dim_6_returns_truncated_table :
  6 mod 4 ≠ 0 ∧
  (∃ tbl,
     precompute_freqs_cis_2d 6 4 10000 1 false (-1) = Ok tbl ∧
     Forall (λ row, length row = 2) tbl ∧ 2 ≠ 6 / 2) ∧
  (∃ tbl,
     precompute_freqs_cis_2d_general 6 4 1 2 0 10000 1 false = Ok tbl ∧
     Forall (λ row, length row = 2) tbl ∧ 2 ≠ 6 / 2).
Proof.
  split; [by vm_compute|]. split.
  - destruct (precompute_freqs_cis_2d_ok 6 4 10000 1 false (-1))
      as (tbl & ? & _ & ? & _); [lia|]. exists tbl. by split_and!.
  - destruct (precompute_freqs_cis_2d_general_ok 6 4 1 2 0 10000 1 false)
      as (tbl & ? & _ & ? & _); [lia|]. exists tbl. by split_and!.
Qed.

End Claims_tables.

Section Claims_rotary.
Import Torch Torch_facts Rotary_facts Forward_facts.

(** C7 (with the split point of the code).  In [RAttention.forward],
    where [rpe_dim = int(self.rpe_ratio * C // self.num_heads)], and in
    [GQA.forward], where [rope_dim = int(self.head_dim * self.rpe_ratio)],
    both computed in float arithmetic: when that integer is positive and
    the rotation stage produces [q] and [k], they have the shapes of the
    projected [q] and [k], and every channel from the split point on is
    the channel of the projected input ([v] is the projected [v]). *)
Theorem C7_rotary_partition_frame :
  (∀ (self : RAttention.t) (B N C : nat) (x : tensor R) (f : tensor complex)
     (q k v q' k' v' : tensor R) (rpe_dim : Z),
     RAttention.projected_qkv self B N C x = Ok (q, k, v) →
     RAttention.rpe_dim self C = Ok rpe_dim → (0 < rpe_dim)%Z →
     RAttention.rotated_qkv self B N C x f = Ok (q', k', v') →
     suffix_untouched (Z.to_nat rpe_dim) q q' ∧
     suffix_untouched (Z.to_nat rpe_dim) k k' ∧
     v' = v) ∧
  (∀ (self : GQA.t) (B T : nat) (x : tensor R) (f : tensor complex)
     (q k v q' k' v' : tensor R) (rope_dim : Z),
     GQA.projected_qkv self B T x = Ok (q, k, v) →
     GQA.rope_dim self = Ok rope_dim → (0 < rope_dim)%Z →
     GQA.rotated_qkv self B T x f = Ok (q', k', v') →
     suffix_untouched (Z.to_nat rope_dim) q q' ∧
     suffix_untouched (Z.to_nat rope_dim) k k' ∧
     v' = v).
Proof.
  split.
  - intros self B N C x f q k v q' k' v' r Hp Hd Hr.
    unfold RAttention.rotated_qkv. rewrite Hp, Hd. simpl.
    rewrite decide_True by done.
    destruct (rotate_prefix _ q k f) as [[q2 k2]|] eqn:E; [|done]. simpl.
    intros [= <- <- <-].
    apply RAttention_projected_qkv_Ok in Hp as (Hq & Hk & _).
    destruct (rotate_prefix_frame _ _ _ _ _ _ _ _ _ Hq Hk eq_refl eq_refl E)
      as (Hsq & Hsk & Hget).
    pose proof (slice_stop_nonneg (C / num_heads (RAttention.base self))
                  r ltac:(lia)).
    split_and!; [split; [done|]|split; [done|]|done];
      intros idx c Hc; apply Hget; lia.
  - intros self B T x f q k v q' k' v' r Hp Hd Hr.
    unfold GQA.rotated_qkv. rewrite Hp, Hd. simpl.
    destruct (rotate_prefix _ q k f) as [[q2 k2]|] eqn:E; [|done]. simpl.
    intros [= <- <- <-].
    apply GQA_projected_qkv_Ok in Hp as (hq & hk & hv & Hq & Hk & _).
    destruct (rotate_prefix_frame _ _ _ _ _ _ _ _ _ Hq Hk eq_refl eq_refl E)
      as (Hsq & Hsk & Hget).
    pose proof (slice_stop_nonneg (GQA.head_dim self) r ltac:(lia)).
    split_and!; [split; [done|]|split; [done|]|done];
      intros idx c Hc; apply Hget; lia.
Qed.

(** Width 8, two heads of width 4, [rpe_ratio = 1/2]: the rotation
    covers channels 0 and 1 and leaves channels 2 and 3. *)
Lemma C7_heads_of_width_4_half_rotated :
  let x := Examples.ramp [1; 2; 8] in
  let f := Examples.freqs 2 2 in
  (∃ (self : RAttention.t) (q k v q' k' v' : tensor R),
     Examples.rattention 2 8 (Float64.decimal 1 2) None false false false = Ok self ∧
     RAttention.projected_qkv self 1 2 8 x = Ok (q, k, v) ∧
     RAttention.rpe_dim self 8 = Ok 2%Z ∧
     RAttention.rotated_qkv self 1 2 8 x f = Ok (q', k', v') ∧
     suffix_untouched 2 q q' ∧ suffix_untouched 2 k k' ∧ v' = v) ∧
  (∃ (self : GQA.t) (q k v q' k' v' : tensor R),
     Examples.gqa 2 2 8 (Float64.decimal 1 2) = Ok self ∧
     GQA.projected_qkv self 1 2 x = Ok (q, k, v) ∧
     GQA.rope_dim self = Ok 2%Z ∧
     GQA.rotated_qkv self 1 2 x f = Ok (q', k', v') ∧
     suffix_untouched 2 q q' ∧ suffix_untouched 2 k k' ∧ v' = v).
Proof.
  intros x f.
  destruct C7_rotary_partition_frame as (HR & HG). split.
  - set (self :=
      {| RAttention.base := Examples.attention 2 8;
         RAttention.cfg :=
           {| RAttention.enable_rpe := true; RAttention.rpe_ratio := Float64.decimal 1 2;
              RAttention.token_num := None;
              RAttention.casual_attn_1d := false;
              RAttention.casual_attn_2d := false;
              RAttention.use_cls_token := false |};
         RAttention.casual_mask := None |}).
    destruct (is_ok_Ok (RAttention.projected_qkv self 1 2 8 x))
      as [[[q k] v] Hp]; [by vm_compute|].
    destruct (is_ok_Ok (RAttention.rotated_qkv self 1 2 8 x f))
      as [[[q' k'] v'] Hr]; [by vm_compute|].
    exists self, q, k, v, q', k', v'.
    split; [reflexivity|]. split; [exact Hp|].
    split; [by vm_compute|]. split; [exact Hr|].
    apply (HR _ 1 2 8 x f q k v q' k' v' 2%Z Hp);
      [by vm_compute|lia|exact Hr].
  - set (self :=
      {| GQA.num_heads := 2; GQA.query_groups := 2; GQA.head_dim := 4;
         GQA.rpe_ratio := Float64.decimal 1 2;
         GQA.scale := Rpower (INR 4) (- (1 / 2));
         GQA.qkv := {| in_features := 8; out_features := 24;
                       weight := λ r c, INR (r + c); bias := λ r, INR r |};
         GQA.proj := {| in_features := 8; out_features := 8;
                        weight := λ r c, INR (r + c); bias := λ r, INR r |} |}).
    destruct (is_ok_Ok (GQA.projected_qkv self 1 2 x))
      as [[[q k] v] Hp]; [by vm_compute|].
    destruct (is_ok_Ok (GQA.rotated_qkv self 1 2 x f))
      as [[[q' k'] v'] Hr]; [by vm_compute|].
    exists self, q, k, v, q', k', v'.
    split; [reflexivity|]. split; [exact Hp|].
    split; [by vm_compute|]. split; [exact Hr|].
    apply (HG _ 1 2 x f q k v q' k' v' 2%Z Hp);
      [by vm_compute|lia|exact Hr].
Defined.

(** The split point is not always [floor(rpe_ratio * head_dim)].  With
    [rpe_ratio = 1/3] (the float nearest to it, which is below 1/3) and
    heads of width 6, the exact product is below 2 and its floor is 1,
    but the float product [6 * rpe_ratio] is rounded to 2.0 (and so is
    [rpe_ratio * 12 // 2]): the code rotates the channels 0 and 1.  With
    the table entry [i] and a projected query whose channels 0 and 1 are 0
    and 1, channel 1 of the rotated query is 0.  In the other direction,
    [int(100 * 0.29)] is 28, where [floor(29/100 * 100)] is 29. *)
Lemma C7_split_point_above_the_floor :
  let ratio := Float64.decimal 1 3 in
  let x := Examples.zeros [1; 1; 12] in
  let f := of_rows (0%R, 0%R) [[(0%R, 1%R)]] in
  (∃ (self : RAttention.t) (q k v q' k' v' : tensor R),
     Examples.rattention 2 12 ratio None false false false = Ok self ∧
     Qfloor (Float64.to_Q ratio * 6) = 1%Z ∧
     RAttention.rpe_dim self 12 = Ok 2%Z ∧
     RAttention.projected_qkv self 1 1 12 x = Ok (q, k, v) ∧
     RAttention.rotated_qkv self 1 1 12 x f = Ok (q', k', v') ∧
     get q [0; 0; 0; 1] = 1%R ∧ get q' [0; 0; 0; 1] = 0%R) ∧
  (∃ self : GQA.t,
     Examples.gqa 1 1 6 ratio = Ok self ∧ GQA.head_dim self = 6 ∧
     GQA.rope_dim self = Ok 2%Z) ∧
  int_mul 100 (Float64.decimal 29 100) = Ok 28%Z ∧
  Qfloor ((29 # 100) * 100) = 29%Z.
Proof.
  intros ratio x f. split_and!; [|eexists; split; [reflexivity|]; split; [reflexivity|by vm_compute]|by vm_compute|by vm_compute].
  set (self := {| RAttention.base := Examples.attention 2 12;
                  RAttention.cfg :=
                    {| RAttention.enable_rpe := true;
                       RAttention.rpe_ratio := ratio;
                       RAttention.token_num := None;
                       RAttention.casual_attn_1d := false;
                       RAttention.casual_attn_2d := false;
                       RAttention.use_cls_token := false |};
                  RAttention.casual_mask := None |}).
  destruct (is_ok_Ok (RAttention.projected_qkv self 1 1 12 x))
    as [[[q k] v] Hp]; [by vm_compute|].
  destruct (is_ok_Ok (RAttention.rotated_qkv self 1 1 12 x f))
    as [[[q' k'] v'] Hr]; [by vm_compute|].
  exists self, q, k, v, q', k', v'.
  split; [reflexivity|]. split; [by vm_compute|]. split; [by vm_compute|].
  split; [exact Hp|]. split; [exact Hr|]. split.
  - change (match Ok (A := tensor R * tensor R * tensor R) (q, k, v) with
            | Ok (q, _, _) => get q [0; 0; 0; 1] = 1%R
            | Raise _ => False
            end).
    rewrite <- Hp.
    cbv -[Rplus Rmult Rminus Rdiv Rinv Ropp INR IZR].
    simpl INR. lra.
  - change (match Ok (A := tensor R * tensor R * tensor R) (q', k', v') with
            | Ok (q, _, _) => get q [0; 0; 0; 1] = 0%R
            | Raise _ => False
            end).
    rewrite <- Hr.
    cbv -[Rplus Rmult Rminus Rdiv Rinv Ropp INR IZR].
    simpl INR. lra.
Qed.

End Claims_rotary.

Section Claims_caches.
Import Torch Cache_facts RAttention_mask_facts.

(** C10.  A [GSAttention] whose [rpe_dim] is 0 and whose [q_freqs_cis]
    is still [None]: the forward call (with a reduction ratio that is not 0,
    and a grid height that is not 0 when [auto_scale] divides by it) raises
    at [self.q_freqs_cis.shape], and leaves the module as it was; the table
    is not built and the rotation is not skipped. *)
Theorem C10_zero_rpe_dim_reads_None_shape
    (self : GSAttention.t) (N H W : nat) (base_size : R) :
  GSAttention.rpe_dim self = Ok 0%Z →
  GSAttention.q_freqs_cis self = None →
  GSAttention.sr_ratio self ≠ 0 →
  (GSAttention.auto_scale self = true → H ≠ 0) →
  GSAttention.refresh self N H W base_size
    = (self, Raise AttributeError_None_shape).
Proof.
  intros Hd Hq Hsr HH. unfold GSAttention.refresh.
  rewrite decide_False by done. rewrite Hd.
  assert (∃ scale theta,
            GSAttention.scale_theta self H base_size = Ok (scale, theta))
    as (scale & theta & ->).
  { unfold GSAttention.scale_theta.
    destruct (GSAttention.auto_scale self);
      [rewrite decide_False by auto|]; simpl;
      destruct (GSAttention.use_ntk self); by eexists _, _. }
  unfold GSAttention.refresh_q. rewrite Hq.
  rewrite (bool_decide_eq_false_2 (0 < 0)%Z) by lia.
  by rewrite andb_false_r.
Qed.

(** [rpe_ratio = 0] on an 8 x 8 grid. *)
Lemma C10_rpe_ratio_0 :
  let self :=
    {| GSAttention.dim := 64; GSAttention.num_heads := 2;
       GSAttention.sr_ratio := 8; GSAttention.rpe_ratio := Float64.of_Z 0;
       GSAttention.use_cls_token := false; GSAttention.auto_scale := false;
       GSAttention.use_ntk := None; GSAttention.casual_attn := false;
       GSAttention.q_freqs_cis := None; GSAttention.k_freqs_cis := None |} in
  (GSAttention.rpe_dim self = Ok 0%Z ∧ GSAttention.q_freqs_cis self = None ∧
   GSAttention.sr_ratio self ≠ 0) ∧
  GSAttention.refresh self 64 8 8 14 = (self, Raise AttributeError_None_shape).
Proof.
  intros self. split; [split_and!; [by vm_compute|done|done]|].
  apply (C10_zero_rpe_dim_reads_None_shape self 64 8 8 14);
    [by vm_compute|reflexivity|discriminate|discriminate].
Defined.

(** C9 (with the branch made explicit).  [RAttention] constructed with
    [casual_attn_1d=True], [casual_attn_2d=False], [use_cls_token=False]
    and a token count: the constructor succeeds and never assigns
    [casual_mask]; with [enable_rpe=True] no forward call returns, and
    every call whose projection, rotation and scores succeed raises at
    [self.casual_mask] in the mask addition. *)
Theorem C9_1d_mask_is_never_assigned
    (b : Attention) (c : RAttention.config) (n : nat) :
  RAttention.casual_attn_1d c = true →
  RAttention.casual_attn_2d c = false →
  RAttention.use_cls_token c = false →
  RAttention.enable_rpe c = true →
  RAttention.token_num c = Some n →
  ∃ self : RAttention.t,
    RAttention.init b c = Ok self ∧
    RAttention.casual_mask self = None ∧
    ∀ (x : tensor R) (f : tensor complex),
      (∀ y, RAttention.forward self x f ≠ Ok y) ∧
      ∀ B N C attn v,
        shape x = [B; N; C] →
        RAttention.forward_scores self B N C x f = Ok (attn, v) →
        RAttention.forward self x f = Raise AttributeError_casual_mask.
Proof.
  intros H1d H2d Hcls Hrpe Htn. unfold RAttention.init.
  rewrite H2d, H1d, Htn, Hcls.
  eexists. split; [reflexivity|]. split; [reflexivity|].
  intros x f. unfold RAttention.forward, RAttention.add_casual_mask. simpl.
  rewrite Hrpe, H2d, H1d. simpl. split.
  - intros y. destruct (shape x) as [|B [|N [|C [|? ?]]]]; try done.
    by destruct (RAttention.forward_scores _ B N C x f) as [[attn v]|].
  - intros B N C attn v -> Hs. by rewrite Hs.
Qed.

(** Four tokens of width 8, two heads: the call raises at the mask. *)
Lemma C9_four_tokens :
  let b := Examples.attention 2 8 in
  let c := {| RAttention.enable_rpe := true; RAttention.rpe_ratio := Float64.of_Z 1;
              RAttention.token_num := Some 4;
              RAttention.casual_attn_1d := true;
              RAttention.casual_attn_2d := false;
              RAttention.use_cls_token := false |} in
  let x := Examples.ramp [1; 4; 8] in
  let f := Examples.freqs 4 4 in
  ∃ self : RAttention.t,
    RAttention.init b c = Ok self ∧
    RAttention.casual_mask self = None ∧
    is_ok (RAttention.forward_scores self 1 4 8 x f) = true ∧
    RAttention.forward self x f = Raise AttributeError_casual_mask.
Proof.
  intros b c x f.
  destruct (C9_1d_mask_is_never_assigned b c 4 eq_refl eq_refl eq_refl eq_refl
              eq_refl) as (self & Hinit & Hnone & Hfw).
  exists self. split; [exact Hinit|]. split; [exact Hnone|].
  injection Hinit as <-.
  assert (is_ok (RAttention.forward_scores
                   {| RAttention.base := b; RAttention.cfg := c;
                      RAttention.casual_mask := None |} 1 4 8 x f) = true)
    as Hok by (by vm_compute).
  split; [exact Hok|].
  destruct (is_ok_Ok _ Hok) as [[attn v] Hs].
  exact (proj2 (Hfw x f) 1 4 8 attn v eq_refl Hs).
Defined.

(** With [casual_attn_2d=True] as well, the first branch of the
    constructor runs: the mask is assigned and the forward call returns. *)
Lemma C9_both_flags_assign_the_mask :
  ∃ self : RAttention.t,
    Examples.rattention 2 8 (Float64.of_Z 1) (Some 4) true true false = Ok self ∧
    RAttention.casual_attn_1d (RAttention.cfg self) = true ∧
    RAttention.use_cls_token (RAttention.cfg self) = false ∧
    RAttention.enable_rpe (RAttention.cfg self) = true ∧
    is_Some (RAttention.casual_mask self) ∧
    is_ok (RAttention.forward self (Examples.ramp [1; 4; 8])
             (Examples.freqs 4 4)) = true.
Proof.
  eexists. split; [reflexivity|].
  split_and!; first [by vm_compute | by eexists].
Qed.

End Claims_caches.

Section Claims_gqa.
Import Torch Torch_facts GQA_facts.

(** C3 (as the code has it).  [GQA] built with [query_groups=1] and [h]
    heads is multi-query attention: the projection has [(h + 2) * head_dim]
    channels per token, query head [a] reads channels [a * head_dim ...],
    and there is one key head (channels [h * head_dim ...]) and one value
    head (channels [(h + 1) * head_dim ...]), of shape
    [(B, 1, T, head_dim)], for all the query heads.  The [h] independent
    key and value heads of multi-head attention are what
    [query_groups = h] gives: [3 * h * head_dim] channels, head [a] reading
    the blocks [3 a], [3 a + 1] and [3 a + 2]. *)
Theorem C3_query_groups_1_is_multi_query :
  (∀ (dim h : nat) (qk_scale : option R) (ratio : Float64.float)
     (Wq Wp : nat → nat → R) (bq bp : nat → R) (self : GQA.t)
     (B T : nat) (x : tensor R),
     GQA.init dim h qk_scale ratio 1 Wq Wp bq bp = Ok self →
     shape x = [B; T; dim] → 0 < B → 0 < T → h ≤ dim →
     ∃ y q k v : tensor R,
       linear (GQA.qkv self) x = Ok y ∧
       shape y = [B; T; (h + 2) * (dim / h)] ∧
       GQA.projected_qkv self B T x = Ok (q, k, v) ∧
       shape q = [B; h; T; dim / h] ∧
       shape k = [B; 1; T; dim / h] ∧
       shape v = [B; 1; T; dim / h] ∧
       ∀ b a t c, b < B → a < h → t < T → c < dim / h →
         get q [b; a; t; c] = get y [b; t; a * (dim / h) + c] ∧
         get k [b; 0; t; c] = get y [b; t; h * (dim / h) + c] ∧
         get v [b; 0; t; c] = get y [b; t; (h + 1) * (dim / h) + c]) ∧
  (∀ (dim h : nat) (qk_scale : option R) (ratio : Float64.float)
     (Wq Wp : nat → nat → R) (bq bp : nat → R) (self : GQA.t)
     (B T : nat) (x : tensor R),
     GQA.init dim h qk_scale ratio h Wq Wp bq bp = Ok self →
     shape x = [B; T; dim] → 0 < B → 0 < T → h ≤ dim →
     ∃ y q k v : tensor R,
       linear (GQA.qkv self) x = Ok y ∧
       shape y = [B; T; (h + 2 * h) * (dim / h)] ∧
       GQA.projected_qkv self B T x = Ok (q, k, v) ∧
       shape q = [B; h; T; dim / h] ∧
       shape k = [B; h; T; dim / h] ∧
       shape v = [B; h; T; dim / h] ∧
       ∀ b a t c, b < B → a < h → t < T → c < dim / h →
         get q [b; a; t; c] = get y [b; t; 3 * a * (dim / h) + c] ∧
         get k [b; a; t; c] = get y [b; t; (3 * a + 1) * (dim / h) + c] ∧
         get v [b; a; t; c] = get y [b; t; (3 * a + 2) * (dim / h) + c]).
Proof.
  split; intros dim h qk_scale ratio Wq Wp bq bp self B T x Hinit Hx HB HT Hh;
    unfold GQA.init in Hinit; case_decide as Hz; try done;
    destruct (GQA.qk_scale_or qk_scale (dim / h)) as [scale|]; try done;
    injection Hinit as <-;
    assert (0 < dim / h) as Hhd
      by (apply Nat.div_str_pos; lia);
    match goal with |- context [linear ?l x] =>
      destruct (linear_intro l x [B; T] Hx) as (y & Hy & Hys) end;
    simpl in Hys.
  - destruct (GQA_heads _ B T dim x y Hx Hy) as [H1 _]; simpl; try done; [lia|].
    destruct (H1 eq_refl) as (q & k & v & Hp & Hq & Hk & Hv & Hget).
    exists y, q, k, v. split_and!; try done.
  - destruct (GQA_heads _ B T dim x y Hx Hy) as [_ Hn]; simpl; try done; [lia|].
    destruct (Hn eq_refl) as (q & k & v & Hp & Hq & Hk & Hv & Hget).
    exists y, q, k, v. split_and!; try done.
Qed.

(** Width 4 and two heads of width 2, with one query group and with
    two. *)
Lemma C3_two_heads_of_width_2 :
  let x := Examples.ramp [1; 2; 4] in
  (∃ (self : GQA.t) (y q k v : tensor R),
     Examples.gqa 2 1 4 (Float64.of_Z 1) = Ok self ∧
     linear (GQA.qkv self) x = Ok y ∧
     shape y = [1; 2; 8] ∧
     GQA.projected_qkv self 1 2 x = Ok (q, k, v) ∧
     shape q = [1; 2; 2; 2] ∧ shape k = [1; 1; 2; 2] ∧ shape v = [1; 1; 2; 2] ∧
     get q [0; 1; 1; 0] = get y [0; 1; 2] ∧
     get k [0; 0; 1; 0] = get y [0; 1; 4] ∧
     get v [0; 0; 1; 0] = get y [0; 1; 6]) ∧
  (∃ (self : GQA.t) (y q k v : tensor R),
     Examples.gqa 2 2 4 (Float64.of_Z 1) = Ok self ∧
     linear (GQA.qkv self) x = Ok y ∧
     shape y = [1; 2; 12] ∧
     GQA.projected_qkv self 1 2 x = Ok (q, k, v) ∧
     shape q = [1; 2; 2; 2] ∧ shape k = [1; 2; 2; 2] ∧ shape v = [1; 2; 2; 2] ∧
     get q [0; 1; 1; 0] = get y [0; 1; 6] ∧
     get k [0; 1; 1; 0] = get y [0; 1; 8] ∧
     get v [0; 1; 1; 0] = get y [0; 1; 10]).
Proof.
  intros x.
  destruct C3_query_groups_1_is_multi_query as [H1 Hh]. split.
  - destruct (is_ok_Ok (Examples.gqa 2 1 4 (Float64.of_Z 1))) as [self Hs]; [done|].
    destruct (H1 4 2 None (Float64.of_Z 1) _ _ _ _ self 1 2 x Hs)
      as (y & q & k & v & Hy & Hys & Hp & Hq & Hk & Hv & Hget);
      [done | lia | lia | lia |].
    destruct (Hget 0 1 1 0) as (Hgq & Hgk & Hgv); [simpl; lia..|].
    exists self, y, q, k, v. split_and!; done.
  - destruct (is_ok_Ok (Examples.gqa 2 2 4 (Float64.of_Z 1))) as [self Hs]; [done|].
    destruct (Hh 4 2 None (Float64.of_Z 1) _ _ _ _ self 1 2 x Hs)
      as (y & q & k & v & Hy & Hys & Hp & Hq & Hk & Hv & Hget);
      [done | lia | lia | lia |].
    destruct (Hget 0 1 1 0) as (Hgq & Hgk & Hgv); [simpl; lia..|].
    exists self, y, q, k, v. split_and!; done.
Defined.

(** Two heads of width 4, half of it rotated, [query_groups=1], two
    tokens of width 8: the key and the value tensor hold one head, and the
    forward call raises (at the concatenation after the rotation, where the
    rotated keys have two heads and the rest of the key one; on every
    runtime), where [RAttention.forward] with two heads returns on the
    same [x] and table. *)
Lemma C3_query_groups_1_is_not_multi_head :
  let x := Examples.ramp [1; 2; 8] in
  let f := Examples.freqs 2 2 in
  ∃ (self : GQA.t) (mha : RAttention.t) (q k v : tensor R),
    Examples.gqa 2 1 8 (Float64.decimal 1 2) = Ok self ∧
    GQA.num_heads self = 2 ∧ GQA.query_groups self = 1 ∧
    GQA.projected_qkv self 1 2 x = Ok (q, k, v) ∧
    shape q = [1; 2; 2; 4] ∧ shape k = [1; 1; 2; 4] ∧ shape v = [1; 1; 2; 4] ∧
    (∀ rt, GQA.forward rt self x f = Raise RuntimeError_shape) ∧
    Examples.rattention 2 8 (Float64.decimal 1 2) None false false false = Ok mha ∧
    num_heads (RAttention.base mha) = 2 ∧
    is_ok (RAttention.forward mha x f) = true.
Proof.
  intros x f.
  set (self :=
    {| GQA.num_heads := 2; GQA.query_groups := 1; GQA.head_dim := 4;
       GQA.rpe_ratio := Float64.decimal 1 2;
       GQA.scale := Rpower (INR 4) (- (1 / 2));
       GQA.qkv := {| in_features := 8; out_features := 16;
                     weight := λ r c, INR (r + c); bias := λ r, INR r |};
       GQA.proj := {| in_features := 8; out_features := 8;
                      weight := λ r c, INR (r + c); bias := λ r, INR r |} |}).
  destruct (is_ok_Ok (GQA.projected_qkv self 1 2 x)) as [[[q k] v] Hp];
    [by vm_compute|].
  assert ((shape q, shape k, shape v)
          = ([1; 2; 2; 4], [1; 1; 2; 4], [1; 1; 2; 4])) as Hsh.
  { change (match Ok (A := tensor R * tensor R * tensor R) (q, k, v) with
            | Ok (q, k, v) => (shape q, shape k, shape v)
            | Raise _ => ([], [], [])
            end = ([1; 2; 2; 4], [1; 1; 2; 4], [1; 1; 2; 4])).
    rewrite <- Hp. by vm_compute. }
  injection Hsh as Hq Hk Hv.
  eexists self, _, q, k, v.
  split; [reflexivity|]. split; [reflexivity|]. split; [reflexivity|].
  split; [exact Hp|].
  split; [exact Hq|]. split; [exact Hk|]. split; [exact Hv|].
  split.
  { intros rt. unfold GQA.forward. cbn [shape x Examples.ramp].
    replace (GQA.rotated_qkv self 1 2 x f) with
      (Raise (A := tensor R * tensor R * tensor R) RuntimeError_shape)
      by (by vm_compute).
    reflexivity. }
  split; [reflexivity|]. split; [reflexivity|]. by vm_compute.
Qed.

(** C5, at an input of the fused path.  One head of width 1, two
    tokens, [q = k = 0], [v = (0, 1)], [mask=None]: with flash-attn on a
    CUDA device in half precision the method calls [flash_attn_func(...,
    causal=False)] and query 0 gets the mean 1/2 of both values; without
    flash-attn it calls [scaled_dot_product_attention(..., is_causal=mask
    is None)], that is with [is_causal=True], and query 0 gets the value 0
    of key 0 only. *)
Theorem C5_fused_path_is_not_causal :
  let self :=
    {| GQA.num_heads := 1; GQA.query_groups := 1; GQA.head_dim := 1;
       GQA.rpe_ratio := Float64.of_Z 1; GQA.scale := 1;
       GQA.qkv := Examples.linear_layer 1 3;
       GQA.proj := Examples.linear_layer 1 1 |} in
  let q := Examples.zeros [1; 1; 2; 1] in
  let k := Examples.zeros [1; 1; 2; 1] in
  let v := Examples.ramp [1; 1; 2; 1] in
  ∃ y_flash y_ref : tensor R,
    GQA.scaled_dot_product_attention Examples.cuda_half_flash self q k v None
      = Ok y_flash ∧
    GQA.scaled_dot_product_attention Examples.cuda_half_no_flash self q k v None
      = Ok y_ref ∧
    shape y_flash = [1; 2; 1; 1] ∧ shape y_ref = [1; 2; 1; 1] ∧
    get y_flash [0; 0; 0; 0] = (1 / 2)%R ∧
    get y_ref [0; 0; 0; 0] = 0%R ∧
    get y_flash [0; 0; 0; 0] ≠ get y_ref [0; 0; 0; 0].
Proof.
  intros self q k v.
  assert (∀ s : R, ((0 + 0 * 0) * s = 0)%R) as Hz by (intros; ring).
  destruct (is_ok_Ok (GQA.scaled_dot_product_attention
                        Examples.cuda_half_flash self q k v None))
    as [y_flash Hf]; [by vm_compute|].
  destruct (is_ok_Ok (GQA.scaled_dot_product_attention
                        Examples.cuda_half_no_flash self q k v None))
    as [y_ref Hr]; [by vm_compute|].
  assert (shape y_flash = [1; 2; 1; 1] ∧ get y_flash [0; 0; 0; 0] = (1 / 2)%R)
    as [Hsf Hgf].
  { change (match Ok y_flash with
            | Ok y => shape y = [1; 2; 1; 1] ∧ get y [0; 0; 0; 0] = (1 / 2)%R
            | Raise _ => False
            end).
    rewrite <- Hf.
    cbv -[Rplus Rmult Rminus Rdiv Rinv Ropp exp Rpower INR IZR].
    split; [reflexivity|]. rewrite !Hz, exp_0. simpl INR. field. }
  assert (shape y_ref = [1; 2; 1; 1] ∧ get y_ref [0; 0; 0; 0] = 0%R)
    as [Hsr Hgr].
  { change (match Ok y_ref with
            | Ok y => shape y = [1; 2; 1; 1] ∧ get y [0; 0; 0; 0] = 0%R
            | Raise _ => False
            end).
    rewrite <- Hr.
    cbv -[Rplus Rmult Rminus Rdiv Rinv Ropp exp Rpower INR IZR].
    split; [reflexivity|]. rewrite !Hz, exp_0. simpl INR. field. }
  exists y_flash, y_ref. split_and!; try done.
  rewrite Hgf, Hgr. lra.
Qed.

End Claims_gqa.

(** * Further properties of the model file *)

Module Arith_facts.

Lemma find_multiple_spec (n k : Z) :
  (0 < k)%Z →
  ∃ r, find_multiple n k = Ok r ∧ (k | r)%Z ∧ (n ≤ r < n + k)%Z ∧
       (∀ m, (k | m)%Z → (n ≤ m)%Z → (r ≤ m)%Z) ∧
       find_multiple r k = Ok r.
Proof.
  intros Hk. unfold find_multiple.
  rewrite decide_False by lia.
  pose proof (Z.mod_pos_bound n k Hk) as Hb.
  pose proof (Z.div_mod n k ltac:(lia)) as Hdm.
  case_decide as Hm.
  - exists n. split; [done|]. split; [by apply Z.mod_divide; [lia|]|].
    split; [lia|]. split; [intros; lia|].
    rewrite decide_False by lia. by rewrite decide_True.
  - exists (n + k - n `mod` k)%Z. split; [done|].
    assert (n + k - n `mod` k = k * (n `div` k + 1))%Z as Hr by lia.
    split; [rewrite Hr; by apply Z.divide_factor_l|].
    split; [lia|]. split.
    + intros m [q ->] Hle. rewrite Hr.
      assert (n `div` k < q)%Z as Hq.
      { apply Z.div_lt_upper_bound; [lia|].
        assert (n ≠ q * k)%Z by (intros ->; apply Hm, Z.mod_mul; lia). lia. }
      rewrite (Z.mul_comm q k). apply Z.mul_le_mono_nonneg_l; lia.
    + rewrite decide_False by lia. rewrite decide_True; [done|].
      rewrite Hr. rewrite Z.mul_comm. by apply Z.mod_mul; lia.
Qed.

Lemma n_hidden_spec (n : nat) :
  ∃ h, LLaMAMLP.n_hidden n = Ok h ∧ (256 | h)%Z ∧
       ((8 * Z.of_nat n) `div` 3 ≤ h < (8 * Z.of_nat n) `div` 3 + 256)%Z.
Proof.
  unfold LLaMAMLP.n_hidden.
  assert (int_of (inject_Z (2 * (4 * Z.of_nat n)) / inject_Z 3)
          = (8 * Z.of_nat n) `div` 3)%Z as ->.
  { unfold int_of. cbn [Qdiv Qmult Qinv inject_Z Qnum Qden].
    change (Z.pos (1 * 3)) with 3%Z.
    rewrite Z.quot_div_nonneg; [f_equal|..]; lia. }
  destruct (find_multiple_spec ((8 * Z.of_nat n) `div` 3) 256)
    as (r & Hr & Hd & Hb & _); [lia|].
  by exists r.
Qed.

Lemma sum_n_ext (f g : nat → R) n :
  (∀ i, i < n → f i = g i) → Torch.sum_n f n = Torch.sum_n g n.
Proof.
  induction n as [|n IH]; intros H; [done|]. simpl.
  rewrite IH by (intros; apply H; lia). by rewrite H by lia.
Qed.

Lemma sum_n_zero (f : nat → R) n :
  (∀ i, i < n → f i = 0%R) → Torch.sum_n f n = 0%R.
Proof.
  induction n as [|n IH]; intros H; [done|]. simpl.
  rewrite IH by (intros; apply H; lia). rewrite H by lia. lra.
Qed.

Lemma sum_n_scal (f : nat → R) (a : R) n :
  Torch.sum_n (λ i, (a * f i)%R) n = (a * Torch.sum_n f n)%R.
Proof. induction n as [|n IH]; simpl; [lra|]. rewrite IH. lra. Qed.

Lemma sum_n_nonneg (f : nat → R) n :
  (∀ i, (0 <= f i)%R) → (0 <= Torch.sum_n f n)%R.
Proof.
  intros H. induction n as [|n IH]; simpl; [lra|]. specialize (H n). lra.
Qed.

End Arith_facts.

Module Broadcast_facts.
Import Torch Torch_facts.

(** The coordinates of an index are below the dimensions. *)
Ltac in_bounds := repeat (constructor 2; [nia|]); constructor 1.

Lemma init_snoc_last (s : list nat) : s ≠ [] → init_dims s ++ [last_dim s] = s.
Proof.
  intros Hs. destruct s as [|a s _] using rev_ind; [done|].
  by rewrite init_dims_snoc, last_dim_snoc.
Qed.

Lemma broadcast_rev_refl (s : list nat) : broadcast_rev s s = Ok s.
Proof.
  induction s as [|x s IH]; [done|]. simpl. rewrite IH. simpl.
  by rewrite decide_True.
Qed.

Lemma broadcast_shapes_refl (s : list nat) : broadcast_shapes s s = Ok s.
Proof.
  unfold broadcast_shapes. rewrite broadcast_rev_refl. simpl.
  by rewrite reverse_involutive.
Qed.

Lemma broadcast_shapes_keepdim (pre : list nat) D :
  broadcast_shapes (pre ++ [D]) (pre ++ [1]) = Ok (pre ++ [D]).
Proof.
  unfold broadcast_shapes. rewrite !reverse_snoc. simpl.
  rewrite broadcast_rev_refl. simpl.
  repeat case_decide; subst; cbn [result_bind];
    by rewrite ?reverse_cons, ?reverse_involutive.
Qed.

Lemma broadcast_rev_nil_r (s : list nat) : broadcast_rev s [] = Ok s.
Proof. by destruct s. Qed.

Lemma broadcast_shapes_vector (pre : list nat) D :
  broadcast_shapes (pre ++ [D]) [D] = Ok (pre ++ [D]).
Proof.
  unfold broadcast_shapes. rewrite !reverse_snoc. simpl.
  rewrite broadcast_rev_nil_r. simpl. rewrite decide_True by done.
  cbn [result_bind]. by rewrite reverse_cons, reverse_involutive.
Qed.

Lemma bidx_in_range (s idx : list nat) :
  Forall2 (λ i d, i < d) idx s → bidx s idx = idx.
Proof.
  intros H. unfold bidx.
  rewrite (Forall2_length _ _ _ H), Nat.sub_diag, drop_0.
  induction H as [|i d idx s Hi H IH]; [done|]. simpl. rewrite IH.
  case_decide; [|done]. f_equal. lia.
Qed.

Lemma bidx_keepdim (pre idx : list nat) c :
  Forall2 (λ i d, i < d) idx pre → bidx (pre ++ [1]) (idx ++ [c]) = idx ++ [0].
Proof.
  intros H. unfold bidx.
  rewrite !length_app, (Forall2_length _ _ _ H), Nat.sub_diag, drop_0.
  induction H as [|i d idx s Hi H IH]; [done|]. simpl. rewrite IH.
  case_decide; [|done]. f_equal. lia.
Qed.

Lemma linear_Raise (l : Linear) (x : tensor R) :
  ¬ (shape x ≠ [] ∧ last_dim (shape x) = in_features l) →
  linear l x = Raise RuntimeError_matmul.
Proof. intros H. unfold linear. by rewrite decide_False. Qed.

End Broadcast_facts.

Section Extras_arith.
Import Torch Torch_facts Arith_facts Broadcast_facts.

(** X1.  [find_multiple(n, k)] raises [ZeroDivisionError] for [k = 0];
    for [k > 0] it returns the least multiple of [k] that is at least
    [n] (so less than [n + k]), and it leaves a multiple of [k]
    unchanged. *)
Theorem X1_find_multiple_is_least_multiple (n k : Z) :
  (k = 0%Z → find_multiple n k = Raise ZeroDivisionError) ∧
  ((0 < k)%Z →
   ∃ r, find_multiple n k = Ok r ∧ (k | r)%Z ∧ (n ≤ r < n + k)%Z ∧
        (∀ m, (k | m)%Z → (n ≤ m)%Z → (r ≤ m)%Z) ∧
        find_multiple r k = Ok r).
Proof.
  split.
  - intros ->. done.
  - apply find_multiple_spec.
Qed.

(** 683 is rounded up to 768 = 3 * 256. *)
Lemma X1_rounds_683_up_to_768 :
  ∃ r, find_multiple 683 256 = Ok r ∧ r = 768%Z ∧ (256 | r)%Z ∧
       find_multiple r 256 = Ok r.
Proof.
  destruct (proj2 (X1_find_multiple_is_least_multiple 683 256))
    as (r & Hr & Hd & _ & _ & Hi); [lia|].
  exists r. split; [exact Hr|]. split; [|by split].
  vm_compute in Hr. by injection Hr.
Defined.


(** X3.  [LLaMAMLP]: the constructor returns for every width [n], and
    [forward] returns exactly on the inputs whose last dimension is [n];
    the result has the shape of the input, and, the three layers having no
    bias, the zero input is mapped to zero.  Any other input raises in the
    first layer. *)
Theorem X3_LLaMAMLP_forward (n : nat) (w1 w2 w3 : nat → nat → R) :
  ∃ self, LLaMAMLP.init n w1 w2 w3 = Ok self ∧
    ∀ x : tensor R,
      (shape x ≠ [] ∧ last_dim (shape x) = n →
       ∃ y, LLaMAMLP.forward self x = Ok y ∧ shape y = shape x ∧
            ((∀ idx, get x idx = 0%R) → ∀ idx, get y idx = 0%R)) ∧
      (¬ (shape x ≠ [] ∧ last_dim (shape x) = n) →
       LLaMAMLP.forward self x = Raise RuntimeError_matmul).
Proof.
  unfold LLaMAMLP.init.
  destruct (n_hidden_spec n) as (h & -> & _).
  cbn [result_bind]. eexists. split; [reflexivity|]. intros x. split.
  - intros [Hs Hl]. unfold LLaMAMLP.forward.
    cbn [LLaMAMLP.c_fc1 LLaMAMLP.c_fc2 LLaMAMLP.c_proj].
    unfold linear at 1 2. cbn [in_features out_features weight bias].
    rewrite !decide_True by done. cbn [result_bind].
    unfold map2. cbn [shape map1]. rewrite broadcast_shapes_refl.
    cbn [result_bind].
    unfold linear. cbn [shape in_features out_features weight bias get].
    rewrite decide_True.
    2:{ split; [by destruct (init_dims (shape x))|]. by rewrite last_dim_snoc. }
    eexists. split; [reflexivity|]. cbn [shape get].
    rewrite init_dims_snoc. split.
    + rewrite <- Hl. by apply init_snoc_last.
    + intros H0 idx.
      rewrite sum_n_zero; [lra|]. intros i _.
      rewrite (sum_n_zero (λ i0, (get x _ * w2 _ i0)%R)).
      2:{ intros j _. rewrite H0. lra. }
      lra.
  - intros Hn. unfold LLaMAMLP.forward. cbn [LLaMAMLP.c_fc1].
    by rewrite linear_Raise.
Qed.

(** Width 3 (hidden width 256): two tokens are accepted, a token of
    width 2 is not. *)
Lemma X3_width_3 :
  ∃ self, LLaMAMLP.init 3 (λ r c, INR (r + c)) (λ r c, INR r) (λ r c, INR c)
          = Ok self ∧
    (∃ y, LLaMAMLP.forward self (Examples.zeros [2; 3]) = Ok y ∧
          shape y = [2; 3] ∧ ∀ idx, get y idx = 0%R) ∧
    LLaMAMLP.forward self (Examples.zeros [2; 2]) = Raise RuntimeError_matmul.
Proof.
  destruct (X3_LLaMAMLP_forward 3 (λ r c, INR (r + c)) (λ r c, INR r)
              (λ r c, INR c)) as (self & Hinit & Hfw).
  exists self. split; [exact Hinit|]. split.
  - destruct (proj1 (Hfw (Examples.zeros [2; 3]))) as (y & Hy & Hs & H0);
      [by split|].
    exists y. split; [exact Hy|]. split; [exact Hs|]. by apply H0.
  - apply (proj2 (Hfw (Examples.zeros [2; 2]))). intros [_ H].
    vm_compute in H. lia.
Defined.

(** X4.  [RMSNorm] as constructed ([weight] all ones) on an input whose
    last dimension is the width [D > 0], with [eps > 0]: [forward] returns
    a tensor of the shape of the input; every vector is the input vector
    times [rsqrt(ms + eps)], where [ms] is the mean of its squares; and
    the mean of the squares of the result is [ms / (ms + eps)], which is
    below 1. *)
Theorem X4_RMSNorm_mean_square (pre : list nat) (D : nat) (eps : R)
    (x : tensor R) :
  shape x = pre ++ [D] → 0 < D → (0 < eps)%R →
  ∃ y, RMSNorm.forward (RMSNorm.init D eps) x = Ok y ∧ shape y = shape x ∧
    ∀ idx, Forall2 (λ i d, i < d) idx pre →
      let ms := (sum_n (λ c, (get x (idx ++ [c]) * get x (idx ++ [c]))%R) D
                 / INR D)%R in
      (∀ c, c < D →
         get y (idx ++ [c]) = (get x (idx ++ [c]) * rsqrt (ms + eps))%R) ∧
      (sum_n (λ c, (get y (idx ++ [c]) * get y (idx ++ [c]))%R) D / INR D
       = ms / (ms + eps))%R ∧
      (ms / (ms + eps) < 1)%R.
Proof.
  intros Hs HD Heps.
  assert (RMSNorm.pow2_mean x =
          {| shape := map_last (λ _, 1) (shape x);
             get := λ idx,
               (sum_n (λ c, (get x (map_last (λ _, c) idx)
                             * get x (map_last (λ _, c) idx))%R)
                  (last_dim (shape x))
                / INR (last_dim (shape x)))%R |}) as Hpm.
  { unfold RMSNorm.pow2_mean. destruct (shape x); [by destruct pre|done]. }
  unfold RMSNorm.forward, RMSNorm._norm, RMSNorm.init, map2.
  rewrite Hpm. cbn [RMSNorm.eps RMSNorm.weight].
  rewrite Hs. cbn [map1 shape]. rewrite map_last_snoc, broadcast_shapes_keepdim.
  cbn [result_bind shape]. rewrite broadcast_shapes_vector. cbn [result_bind].
  eexists. split; [reflexivity|]. split; [done|].
  intros idx Hidx. cbn [get shape map1]. rewrite last_dim_snoc.
  set (ms := (sum_n (λ c, (get x (idx ++ [c]) * get x (idx ++ [c]))%R) D
              / INR D)%R).
  assert (0 <= ms)%R as Hms.
  { unfold ms. apply Rmult_le_pos.
    - apply sum_n_nonneg. intros. nra.
    - left. apply Rinv_0_lt_compat. apply lt_0_INR. lia. }
  assert (∀ c, c < D →
    (get x (bidx (pre ++ [D]) (bidx (pre ++ [D]) (idx ++ [c])))
     * rsqrt (sum_n (λ c0, (get x (map_last (λ _, c0)
                 (bidx (pre ++ [1%nat]) (bidx (pre ++ [D]) (idx ++ [c]))))
               * get x (map_last (λ _, c0)
                 (bidx (pre ++ [1%nat]) (bidx (pre ++ [D]) (idx ++ [c])))))%R)
           D / INR D + eps)
     * 1 = get x (idx ++ [c]) * rsqrt (ms + eps))%R) as Hy.
  { intros c Hc.
    assert (Forall2 (λ i d, i < d) (idx ++ [c]) (pre ++ [D])) as Hin
      by (apply Forall2_app; [done|by constructor]).
    rewrite !(bidx_in_range (pre ++ [D]) (idx ++ [c])) by done.
    rewrite bidx_keepdim by done.
    rewrite Rmult_1_r. f_equal. f_equal. f_equal. f_equal.
    apply sum_n_ext. intros c0 _. by rewrite map_last_snoc. }
  split; [done|]. split.
  - rewrite (sum_n_ext _ (λ c, ((rsqrt (ms + eps) * rsqrt (ms + eps))
                               * (get x (idx ++ [c]) * get x (idx ++ [c])))%R)).
    2:{ intros c Hc. rewrite Hy by done. ring. }
    rewrite sum_n_scal. unfold rsqrt.
    replace (1 / sqrt (ms + eps) * (1 / sqrt (ms + eps)))%R
      with (1 / (sqrt (ms + eps) * sqrt (ms + eps)))%R.
    2:{ field. apply Rgt_not_eq, sqrt_lt_R0. lra. }
    rewrite sqrt_sqrt by lra. fold ms. unfold Rdiv at 1.
    rewrite Rmult_assoc.
    fold (Rdiv (sum_n (λ c, (get x (idx ++ [c]) * get x (idx ++ [c]))%R) D)
               (INR D)).
    fold ms. field. lra.
  - apply (Rmult_lt_reg_r (ms + eps)); [lra|].
    unfold Rdiv. rewrite Rmult_assoc, Rinv_l by lra. lra.
Qed.

(** Two vectors of width 2 and [eps = 1]. *)
Lemma X4_two_vectors_of_width_2 :
  let x := Examples.ramp [2; 2] in
  ∃ y, RMSNorm.forward (RMSNorm.init 2 1) x = Ok y ∧ shape y = [2; 2] ∧
    let ms := (sum_n (λ c, (get x [1%nat; c] * get x [1%nat; c])%R) 2
               / INR 2)%R in
    (sum_n (λ c, (get y [1%nat; c] * get y [1%nat; c])%R) 2 / INR 2
     = ms / (ms + 1))%R.
Proof.
  intros x.
  destruct (X4_RMSNorm_mean_square [2] 2 1 x) as (y & Hy & Hs & Hv);
    [reflexivity | lia | lra |].
  exists y. split; [exact Hy|]. split; [exact Hs|].
  destruct (Hv [1]) as (_ & Hms & _); [repeat constructor|].
  exact Hms.
Defined.

(** X5.  The window padding of [GroupAttention.forward]: for a window
    [ws > 0] the pad [(ws - n % ws) % ws] is below [ws], is 0 exactly when
    [ws] divides [n], and the padded size [n + pad] is the multiple of
    [ws] that [find_multiple(n, ws)] returns. *)
Theorem X5_GroupAttention_pad (self : GroupAttention.t) (n : nat) :
  0 < GroupAttention.ws self →
  ∃ p, GroupAttention.pad self n = Ok p ∧ p < GroupAttention.ws self ∧
       (n + p) mod GroupAttention.ws self = 0 ∧
       (p = 0 ↔ n mod GroupAttention.ws self = 0) ∧
       find_multiple (Z.of_nat n) (Z.of_nat (GroupAttention.ws self))
         = Ok (Z.of_nat (n + p)).
Proof.
  intros Hws. unfold GroupAttention.pad. set (ws := GroupAttention.ws self) in *.
  rewrite decide_False by lia. eexists. split; [reflexivity|].
  pose proof (Nat.mod_upper_bound n ws ltac:(lia)) as Hb.
  pose proof (Nat.div_mod_eq n ws) as Hdm.
  destruct (decide (n mod ws = 0)) as [Hz|Hz].
  - rewrite Hz, Nat.sub_0_r, Nat.Div0.mod_same, Nat.add_0_r.
    split; [lia|]. split; [done|]. split; [done|].
    unfold find_multiple. rewrite decide_False by lia.
    rewrite decide_True; [done|]. rewrite <- Nat2Z.inj_mod. lia.
  - rewrite (Nat.mod_small (ws - n mod ws)) by lia.
    split; [lia|].
    assert (n + (ws - n mod ws) = (n / ws + 1) * ws) as Hr by lia.
    split; [rewrite Hr; apply Nat.Div0.mod_mul|]. split; [lia|].
    unfold find_multiple. rewrite decide_False by lia.
    rewrite <- Nat2Z.inj_mod. rewrite decide_False by lia.
    f_equal. lia.
Qed.

(** A grid side of 10 with windows of 7 is padded by 4, to 14. *)
Lemma X5_side_10_window_7 :
  let self := {| GroupAttention.dim := 64; GroupAttention.num_heads := 2;
                 GroupAttention.ws := 7; GroupAttention.rpe_ratio := Float64.of_Z 1;
                 GroupAttention.use_cls_token := false;
                 GroupAttention.freqs_cis := None |} in
  ∃ p, GroupAttention.pad self 10 = Ok p ∧ p = 4 ∧
       find_multiple 10 7 = Ok 14%Z.
Proof.
  intros self.
  destruct (X5_GroupAttention_pad self 10) as (p & Hp & _ & _ & _ & Hf);
    [simpl; lia|].
  exists p. split; [exact Hp|].
  vm_compute in Hp. injection Hp as <-. split; [reflexivity|exact Hf].
Defined.

End Extras_arith.

Module Mask_facts.
Import GSAttention_mask GSAttention_mask_facts.

Lemma at2_create_causal_mask (size i j : nat) :
  i < size → j < size →
  at2 (create_causal_mask size) i j
    = Some (if decide (j ≤ i) then zero_bias else neg_inf).
Proof.
  intros Hi Hj. unfold at2, create_causal_mask, triu_ones.
  rewrite !list_lookup_fmap, lookup_arange by done. simpl.
  rewrite !list_lookup_fmap, lookup_arange by done. simpl.
  f_equal. repeat case_decide; done || lia.
Qed.

Lemma shape_create_causal_mask (size : nat) :
  length (create_causal_mask size) = size ∧
  Forall (λ row, length row = size) (create_causal_mask size).
Proof.
  unfold create_causal_mask, triu_ones. split.
  - by rewrite !length_fmap, length_arange.
  - apply Forall_fmap, Forall_fmap, Forall_forall. intros i _. simpl.
    by rewrite !length_fmap, length_arange.
Qed.

Lemma at2_pad_cls (n : nat) (m : mask) :
  length (pad_cls n m) = length m + 1 ∧
  (∀ j, j ≤ n → at2 (pad_cls n m) 0 j = Some zero_bias) ∧
  (∀ i, i < length m → at2 (pad_cls n m) (S i) 0 = Some zero_bias) ∧
  (∀ i j, at2 (pad_cls n m) (S i) (S j) = at2 m i j).
Proof.
  unfold pad_cls, at2. split_and!.
  - simpl. rewrite length_fmap. lia.
  - intros j Hj. simpl. apply lookup_replicate_2. lia.
  - intros i Hi. simpl. rewrite list_lookup_fmap.
    by destruct (lookup_lt_is_Some_2 m i Hi) as [row ->].
  - intros i j. simpl. rewrite list_lookup_fmap. by destruct (m !! i).
Qed.

Lemma sees_refl (H i : nat) : RAttention.sees H i i = true.
Proof.
  unfold RAttention.sees. by rewrite !bool_decide_eq_true_2 by lia.
Qed.

Lemma visible_count_bounds (sr m i : nat) :
  0 < sr → 0 < m → i < sr * m * (sr * m) →
  1 ≤ visible_count (sr * m) sr i ≤ (m - 1) * sr + m.
Proof.
  intros Hsr Hm Hi. unfold visible_count, x_block, y_block.
  set (H := sr * m) in *.
  assert (0 < H) as HH by (unfold H; nia).
  assert (i / (sr * H) < m) as Hx.
  { apply Nat.Div0.div_lt_upper_bound. unfold H in *. nia. }
  assert ((i / H + i mod H * H) / (sr * H) < m) as Hy.
  { apply Nat.Div0.div_lt_upper_bound.
    pose proof (Nat.mod_upper_bound i H ltac:(lia)).
    assert (i / H < H) by (apply Nat.Div0.div_lt_upper_bound; lia).
    unfold H in *. nia. }
  split; [lia|]. nia.
Qed.

Lemma N_reduce_square (sr m : nat) :
  0 < sr → sr * m * (sr * m) / sr / sr = m * m.
Proof.
  intros Hsr. rewrite Nat.Div0.div_div.
  replace (sr * m * (sr * m)) with (m * m * (sr * sr)) by lia.
  apply Nat.div_mul. nia.
Qed.

End Mask_facts.

Section Extras_masks.
Import RAttention RAttention_mask_facts Mask_facts.
Import GSAttention_mask GSAttention_mask_facts.

(** X6.  [create_causal_mask(size)] is a [size x size] tensor whose entry
    [(i, j)] is 0 when [j <= i] and [-inf] when [j > i]. *)
Theorem X6_create_causal_mask_lower_triangle (size : nat) :
  length (create_causal_mask size) = size ∧
  Forall (λ row, length row = size) (create_causal_mask size) ∧
  ∀ i j, i < size → j < size →
    at2 (create_causal_mask size) i j
      = Some (if decide (j ≤ i) then zero_bias else neg_inf).
Proof.
  destruct (shape_create_causal_mask size) as [Hl Hr].
  split; [done|]. split; [done|]. apply at2_create_causal_mask.
Qed.

(** X7.  [RAttention] built with [use_cls_token=True] and one of the two
    causal flags, for [token_num = n] (and [n = H * H] for the 2D mask):
    the cached mask has [n + 1] rows; its row 0 and its column 0 are 0
    (the class token sees every position and is seen by every position);
    and entry [(i + 1, j + 1)] is entry [(i, j)] of the mask without class
    token: the quadrant rule for [casual_attn_2d], which has priority, and
    [j <= i] for [casual_attn_1d] alone. *)
Theorem X7_class_token_mask (b : Attention) (c : config) (n H : nat) :
  use_cls_token c = true → token_num c = Some n →
  casual_attn_2d c || casual_attn_1d c = true →
  (casual_attn_2d c = true → n = H * H) →
  ∃ (self : RAttention.t) (M : mask),
    init b c = Ok self ∧ casual_mask self = Some M ∧ length M = n + 1 ∧
    (∀ j, j ≤ n → at2 M 0 j = Some zero_bias ∧ at2 M j 0 = Some zero_bias) ∧
    ∀ i j, i < n → j < n →
      at2 M (S i) (S j)
      = Some (if (if casual_attn_2d c then sees H i j
                  else bool_decide (j ≤ i))
              then zero_bias else neg_inf).
Proof.
  intros Hcls Htn Hflag H2. unfold init. rewrite Htn, Hcls.
  destruct (casual_attn_2d c) eqn:E2.
  - rewrite (H2 eq_refl).
    destruct (casual_mask_2d_ok H) as (M0 & -> & Hlen & Hat).
    cbn [result_bind]. eexists _, _. split; [reflexivity|].
    split; [reflexivity|].
    destruct (at2_pad_cls (H * H) M0) as (Hl & Hr0 & Hc0 & Hin).
    split; [lia|]. split.
    + intros j Hj. split; [by apply Hr0|].
      destruct j as [|i]; [apply Hr0; lia|]. apply Hc0. lia.
    + intros i j Hi Hj. rewrite Hin. apply Hat; lia.
  - simpl in Hflag. rewrite Hflag.
    eexists _, _. split; [reflexivity|]. split; [reflexivity|].
    destruct (shape_create_causal_mask n) as [Hlen _].
    destruct (at2_pad_cls n (create_causal_mask n)) as (Hl & Hr0 & Hc0 & Hin).
    split; [lia|]. split.
    + intros j Hj. split; [by apply Hr0|].
      destruct j as [|i]; [apply Hr0; lia|]. apply Hc0. lia.
    + intros i j Hi Hj. rewrite Hin, at2_create_causal_mask by done.
      f_equal. case_decide.
      * by rewrite bool_decide_eq_true_2.
      * by rewrite bool_decide_eq_false_2.
Qed.

(** Three tokens and the class token, 1D mask. *)
Lemma X7_three_tokens_1d :
  let c := {| enable_rpe := true; rpe_ratio := Float64.of_Z 1; token_num := Some 3;
              casual_attn_1d := true; casual_attn_2d := false;
              use_cls_token := true |} in
  ∃ (self : RAttention.t) (M : mask),
    init (Examples.attention 2 8) c = Ok self ∧
    casual_mask self = Some M ∧ length M = 4 ∧
    at2 M 0 3 = Some zero_bias ∧ at2 M 3 0 = Some zero_bias ∧
    at2 M 2 3 = Some neg_inf ∧ at2 M 3 2 = Some zero_bias.
Proof.
  intros c.
  destruct (X7_class_token_mask (Examples.attention 2 8) c 3 0)
    as (self & M & Hinit & HM & Hlen & Hcls & Hin);
    [reflexivity | reflexivity | reflexivity | discriminate |].
  exists self, M. split; [exact Hinit|]. split; [exact HM|].
  split; [exact Hlen|].
  split; [apply (Hcls 3); lia|]. split; [apply (Hcls 3); lia|].
  split; [apply (Hin 1 2); lia | apply (Hin 2 1); lia].
Defined.

(** X8.  No mask that [RAttention.__init__] caches has a fully masked
    row: whatever the flags (for the 2D mask, on a square grid
    [token_num = H * H]), every position of the cached mask sees itself,
    so the row of every query holds a 0. *)
Theorem X8_cached_mask_has_zero_diagonal (b : Attention) (c : config)
    (n H : nat) (self : RAttention.t) (M : mask) :
  token_num c = Some n →
  (casual_attn_2d c = true → n = H * H) →
  init b c = Ok self → casual_mask self = Some M →
  ∀ i, i < length M → at2 M i i = Some zero_bias.
Proof.
  intros Htn H2 Hinit HM. unfold init in Hinit. rewrite Htn in Hinit.
  destruct (casual_attn_2d c) eqn:E2.
  - rewrite (H2 eq_refl) in Hinit.
    destruct (casual_mask_2d_ok H) as (M0 & HM0 & Hlen & Hat).
    rewrite HM0 in Hinit. cbn [result_bind] in Hinit.
    destruct (at2_pad_cls (H * H) M0) as (Hl & Hr0 & _ & Hin).
    destruct (use_cls_token c); injection Hinit as <-; simpl in HM;
      injection HM as <-; intros i Hi.
    + destruct i as [|i]; [apply Hr0; lia|].
      rewrite Hin, Hat by lia. by rewrite sees_refl.
    + rewrite Hat by lia. by rewrite sees_refl.
  - destruct (casual_attn_1d c); [|by injection Hinit as <-].
    destruct (shape_create_causal_mask n) as [Hlen _].
    destruct (at2_pad_cls n (create_causal_mask n)) as (Hl & Hr0 & _ & Hin).
    destruct (use_cls_token c); injection Hinit as <-; [|done].
    simpl in HM. injection HM as <-. intros i Hi.
    destruct i as [|i]; [apply Hr0; lia|].
    rewrite Hin, at2_create_causal_mask by lia. by rewrite decide_True.
Qed.

(** The 2 x 2 grid without class token. *)
Lemma X8_grid_2x2 :
  let c := {| enable_rpe := true; rpe_ratio := Float64.of_Z 1; token_num := Some (2 * 2);
              casual_attn_1d := false; casual_attn_2d := true;
              use_cls_token := false |} in
  ∃ (self : RAttention.t) (M : mask),
    init (Examples.attention 2 8) c = Ok self ∧
    casual_mask self = Some M ∧ length M = 4 ∧
    ∀ i, i < 4 → at2 M i i = Some zero_bias.
Proof.
  intros c.
  destruct (is_ok_Ok (init (Examples.attention 2 8) c)) as [self Hinit];
    [reflexivity|].
  destruct (casual_mask self) as [M|] eqn:HM.
  2:{ exfalso. vm_compute in Hinit. injection Hinit as <-. discriminate HM. }
  assert (length M = 4) as Hlen.
  { vm_compute in Hinit. injection Hinit as <-. simpl in HM.
    by injection HM as <-. }
  exists self, M. split; [exact Hinit|]. split; [exact HM|].
  split; [exact Hlen|]. intros i Hi.
  apply (X8_cached_mask_has_zero_diagonal (Examples.attention 2 8) c 4 2
           self M); [reflexivity | reflexivity | exact Hinit | exact HM | lia].
Defined.

(** X9.  The grouped causal mask of [GSAttention.forward] on a square
    grid of side [sr_ratio * m]: the mask is built; every query sees the
    reduced key 0; and no query sees a reduced key with index
    [(m - 1) * sr_ratio + m] or more.  The grid has [m * m] reduced keys,
    so for [m > sr_ratio] the last keys are hidden from every query. *)
Theorem X9_grouped_mask_hidden_keys (sr m : nat) :
  0 < sr → 0 < m →
  ∃ M, forward_causal_mask sr (sr * m) (sr * m) = Ok M ∧
       length M = sr * m * (sr * m) ∧
       Forall (λ row, length row = m * m) M ∧
       ∀ i, i < sr * m * (sr * m) →
         at2 M i 0 = Some zero_bias ∧
         ∀ j, (m - 1) * sr + m ≤ j → j < m * m → at2 M i j = Some neg_inf.
Proof.
  intros Hsr Hm. unfold forward_causal_mask.
  rewrite decide_False by lia. rewrite N_reduce_square by done.
  eexists. split; [reflexivity|].
  destruct (shape_causal_mask (sr * m) (sr * m) sr (m * m)) as [Hl Hr].
  split; [done|]. split; [done|].
  intros i Hi. pose proof (visible_count_bounds sr m i Hsr Hm Hi) as Hb.
  split.
  - rewrite at2_causal_mask by (done || nia). by rewrite decide_True by lia.
  - intros j Hj Hjm. rewrite at2_causal_mask by done.
    by rewrite decide_False by lia.
Qed.

(** An 8 x 8 grid reduced by 2: 16 reduced keys, of which the keys 10 to
    15 are hidden from the last query, as from every other. *)
Lemma X9_grid_8x8_reduced_by_2 :
  ∃ M, forward_causal_mask 2 8 8 = Ok M ∧ length M = 64 ∧
       at2 M 63 0 = Some zero_bias ∧ at2 M 63 10 = Some neg_inf ∧
       at2 M 63 15 = Some neg_inf.
Proof.
  destruct (X9_grouped_mask_hidden_keys 2 4) as (M & HM & Hlen & _ & Hat);
    [lia | lia |].
  exists M. split; [exact HM|]. split; [exact Hlen|].
  destruct (Hat 63) as [H0 Hh]; [simpl; lia|].
  split; [exact H0|]. split; apply Hh; simpl; lia.
Defined.

End Extras_masks.

(** ** The stored mask of [RAttention] and the token count of a call *)

Module Stale_mask_facts.
Import Torch Torch_facts Rotary_facts Forward_facts Broadcast_facts Mask_facts.
Import RAttention_mask_facts.

Lemma RAttention_rotated_qkv_Ok (self : RAttention.t) B N C x f q k v :
  RAttention.rotated_qkv self B N C x f = Ok (q, k, v) →
  let s := [B; N; num_heads (RAttention.base self)] in
  let hd := C / num_heads (RAttention.base self) in
  shape q = s ++ [hd] ∧ shape k = s ++ [hd] ∧ shape v = s ++ [hd].
Proof.
  unfold RAttention.rotated_qkv.
  destruct (RAttention.projected_qkv _ _ _ _ _) as [[[q0 k0] v0]|] eqn:Hp;
    [|done]. simpl.
  apply RAttention_projected_qkv_Ok in Hp as (Hq & Hk & Hv).
  destruct (RAttention.rpe_dim self C) as [r|]; [|done]. simpl.
  case_decide.
  - destruct (rotate_prefix r q0 k0 f) as [[q1 k1]|] eqn:E; [|done]. simpl.
    intros [= <- <- <-].
    destruct (rotate_prefix_frame _ _ _ _ _ _ _ _ _ Hq Hk eq_refl eq_refl E)
      as (Hsq & Hsk & _).
    by rewrite Hsq, Hsk.
  - simpl. by intros [= <- <- <-].
Qed.

Lemma RAttention_forward_scores_Ok (self : RAttention.t) B N C x f attn v :
  RAttention.forward_scores self B N C x f = Ok (attn, v) →
  let nh := num_heads (RAttention.base self) in
  shape attn = [B; nh; N; N] ∧ shape v = [B; nh; N; C / nh].
Proof.
  unfold RAttention.forward_scores.
  destruct (RAttention.rotated_qkv _ _ _ _ _ _) as [[[q k] v0]|] eqn:Hr;
    [|done]. simpl.
  apply RAttention_rotated_qkv_Ok in Hr as (Hq & Hk & Hv).
  simpl in Hq, Hk, Hv.
  set (nh := num_heads (RAttention.base self)) in *.
  set (hd := C / nh) in *.
  unfold transpose at 1 2 3. rewrite Hq, Hk, Hv. cbn [length].
  rewrite !decide_True by lia. cbn [result_bind].
  change (swap 1 2 [B; N; nh; hd]) with [B; nh; N; hd].
  unfold scores. unfold transpose at 1. cbn [shape length].
  rewrite decide_True by lia. cbn [result_bind].
  change (swap 2 3 [B; nh; N; hd]) with [B; nh; hd; N].
  unfold matmul at 1. cbn [shape length].
  rewrite decide_True by lia.
  change (4 - 2) with 2. change (4 - 1) with 3.
  cbn [take lookup list_lookup default from_option]. unfold Datatypes.id.
  rewrite decide_True by done.
  rewrite broadcast_shapes_refl.
  cbn [result_bind app]. by intros [= <- <-].
Qed.


Lemma shape_of_rows_square (m : mask) M :
  length m = M → Forall (λ row, length row = M) m →
  shape (of_rows zero_bias m) = [M; M].
Proof.
  intros Hlen Hrows. unfold of_rows. cbn [shape]. rewrite Hlen. do 2 f_equal.
  destruct m as [|row m']; [by subst|].
  simpl. by apply Forall_cons in Hrows as [? _].
Qed.

(** Scores of [N] tokens and a mask of [M] rows. *)
Lemma broadcast_stale (B nh N M : nat) :
  N ≠ M → N ≠ 1 → M ≠ 1 →
  broadcast_shapes [B; nh; N; N] [1; 1; M; M] = Raise RuntimeError_broadcast.
Proof.
  intros H1 H2 H3. unfold broadcast_shapes.
  change (reverse [B; nh; N; N]) with [N; N; nh; B].
  change (reverse [1; 1; M; M]) with [M; M; 1; 1].
  cbn [broadcast_rev result_bind].
  repeat (case_decide; subst; cbn [result_bind]); done.
Qed.

Lemma broadcast_one_token (B nh M : nat) :
  broadcast_shapes [B; nh; 1; 1] [1; 1; M; M] = Ok [B; nh; M; M].
Proof.
  unfold broadcast_shapes.
  change (reverse [B; nh; 1; 1]) with [1; 1; nh; B].
  change (reverse [1; 1; M; M]) with [M; M; 1; 1].
  cbn [broadcast_rev result_bind].
  repeat (case_decide; subst; cbn [result_bind]); done.
Qed.

Lemma broadcast_one_entry (B nh N : nat) :
  broadcast_shapes [B; nh; N; N] [1; 1; 1; 1] = Ok [B; nh; N; N].
Proof.
  unfold broadcast_shapes.
  change (reverse [B; nh; N; N]) with [N; N; nh; B].
  change (reverse [1; 1; 1; 1]) with [1; 1; 1; 1].
  cbn [broadcast_rev result_bind].
  repeat (case_decide; subst; cbn [result_bind]); done.
Qed.

(** [forward] on [N] tokens with a stored mask of [M] rows, [N ≠ M]. *)
Lemma RAttention_forward_stale (self : RAttention.t) (m : mask) (M : nat)
    (x : tensor R) (f : tensor complex) (B N C : nat) :
  RAttention.enable_rpe (RAttention.cfg self) = true →
  RAttention.casual_attn_2d (RAttention.cfg self)
  || RAttention.casual_attn_1d (RAttention.cfg self) = true →
  RAttention.casual_mask self = Some m →
  length m = M → Forall (λ row, length row = M) m →
  shape x = [B; N; C] → N ≠ M →
  (∀ e, RAttention.forward_scores self B N C x f = Raise e →
        RAttention.forward self x f = Raise e) ∧
  (∀ attn v,
     RAttention.forward_scores self B N C x f = Ok (attn, v) →
     (M ≠ 1 →
      RAttention.forward self x f
      = Raise (if decide (N = 1) then RuntimeError_matmul
               else RuntimeError_broadcast)) ∧
     (M = 1 →
      ∃ (e : mask_val) (t : tensor (option R)),
        m = [[e]] ∧
        RAttention.add_casual_mask self attn = Ok t ∧
        RAttention.forward self x f
        = attend (RAttention.base self) B N C t v ∧
        shape t = shape attn ∧
        ∀ b h i j, b < B → h < num_heads (RAttention.base self) →
          i < N → j < N →
          get t [b; h; i; j] = add_mask_val (get attn [b; h; i; j]) e)).
Proof.
  intros Hen Hfl Hm Hlen Hrows Hx HNM.
  unfold RAttention.forward. rewrite Hx, Hen.
  split; [by intros e ->|].
  intros attn v Hs. rewrite Hs. cbn [result_bind].
  apply RAttention_forward_scores_Ok in Hs as [Ha Hv].
  set (nh := num_heads (RAttention.base self)) in *.
  pose proof (shape_of_rows_square m M Hlen Hrows) as HM.
  unfold RAttention.add_casual_mask. rewrite Hfl, Hm.
  unfold map2. cbn [shape unsqueeze0]. rewrite Ha, HM.
  split.
  - intros HM1. case_decide as HN1.
    + subst N. rewrite broadcast_one_token. cbn [result_bind].
      unfold attend, matmul. cbn [shape softmax length]. rewrite Hv.
      cbn [length]. rewrite decide_True by lia.
      change (4 - 2) with 2. change (4 - 1) with 3.
      cbn [take lookup list_lookup default from_option]. unfold Datatypes.id.
      by rewrite decide_False by done.
    + by rewrite broadcast_stale.
  - intros ->.
    destruct m as [|row [|? ?]]; try done.
    apply Forall_cons in Hrows as [Hrow _].
    destruct row as [|e [|? ?]]; try done.
    exists e. eexists. split; [done|].
    rewrite broadcast_one_entry. cbn [result_bind].
    split; [reflexivity|]. split; [reflexivity|]. split; [done|].
    intros b h i j Hb Hh Hi Hj. cbn [get].
    rewrite (bidx_in_range [B; nh; N; N] [b; h; i; j]) by in_bounds.
    done.
Qed.

Lemma pad_cls_shape (n : nat) (m : mask) :
  length m = n → Forall (λ row, length row = n) m →
  length (pad_cls n m) = n + 1 ∧
  Forall (λ row, length row = n + 1) (pad_cls n m).
Proof.
  intros Hlen Hrows. unfold pad_cls. split.
  - simpl. rewrite length_fmap. lia.
  - apply Forall_cons. split; [by rewrite length_replicate|].
    apply Forall_fmap. eapply Forall_impl; [exact Hrows|].
    intros row Hr. simpl in *. lia.
Qed.

(** The constructor, for a token count. *)
Lemma RAttention_init_mask (b : Attention) (c : RAttention.config) (n : nat) :
  RAttention.token_num c = Some n →
  let M := if RAttention.use_cls_token c then n + 1 else n in
  (RAttention.casual_attn_2d c = true →
   ∃ (self : RAttention.t) (m : mask),
     RAttention.init b c = Ok self ∧
     RAttention.casual_mask self = Some m ∧
     length m = M ∧ Forall (λ row, length row = M) m) ∧
  (RAttention.casual_attn_2d c = false →
   RAttention.casual_attn_1d c = true →
   ∃ self : RAttention.t,
     RAttention.init b c = Ok self ∧
     RAttention.casual_mask self
     = (if RAttention.use_cls_token c
        then Some (pad_cls n (create_causal_mask n)) else None) ∧
     length (pad_cls n (create_causal_mask n)) = n + 1 ∧
     Forall (λ row, length row = n + 1) (pad_cls n (create_causal_mask n))).
Proof.
  intros Htn M. split.
  - intros H2d. unfold RAttention.init. rewrite H2d, Htn.
    destruct (casual_mask_2d_total n) as (m & -> & Hlen & Hrows). simpl.
    unfold M. destruct (RAttention.use_cls_token c); eexists _, _;
      (split; [reflexivity|]); (split; [reflexivity|]).
    + by apply pad_cls_shape.
    + done.
  - intros H2d H1d. unfold RAttention.init. rewrite H2d, H1d, Htn.
    destruct (shape_create_causal_mask n) as [Hlen Hrows].
    destruct (pad_cls_shape n _ Hlen Hrows) as [Hl Hr].
    destruct (RAttention.use_cls_token c); eexists;
      (split; [reflexivity|]); by split.
Qed.

End Stale_mask_facts.

Section Claims_stale_caches.
Import Torch Cache_facts RAttention_mask_facts Stale_mask_facts.

(** C6 (as the code has it).
    - [MHSAttention] without class token: after any earlier forward calls,
      a call with [N] tokens leaves in [freqs_cis] exactly the table of
      [N] (it has [N] rows).
    - [GroupAttention]: whatever [N] is, the table is the one of the window,
      [ws * ws] positions.
    - [GSAttention] without class token and with [rpe_dim > 0]: from any
      state of the two caches, a call on an [H x W] grid succeeds, leaves a
      query table of [N = H * W] rows and a key table of [N_reduce] rows,
      and a table whose cached row count differed (or that was not built
      yet) is the one built from the arguments of this call.
    - [RAttention] stores its mask in the constructor.  With
      [casual_attn_2d] the mask has [token_num] rows of [token_num]
      entries (one more row and column with a class token).  With
      [casual_attn_1d] alone, the mask of [create_causal_mask] is stored
      with a class token ([token_num + 1] rows and columns), and no mask
      is stored without one.
    - [RAttention.forward] takes the stored mask as it is.  On [N] tokens
      and a stored mask of [M] rows, [M] different from [N]: when the
      projection, the rotation or the scores raise, the call raises that
      exception, before the mask addition; when they return, the call
      raises at the mask addition for [N] and [M] both different from 1
      (the shapes do not broadcast) and at [attn @ v] for [N = 1]; and
      for [M = 1] the single entry of the stored mask is broadcast to
      every score. *)
Theorem C6_tables_follow_the_token_count :
  (∀ (s0 : MHSAttention.t) (Ns : list nat) (N : nat) (d : Z),
     MHSAttention.freqs_cis s0 = None →
     MHSAttention.use_cls_token s0 = false →
     int_mul (MHSAttention.dim s0 / MHSAttention.num_heads s0)
       (MHSAttention.rpe_ratio s0) = Ok d →
     (0 ≤ d)%Z →
     Forall (λ N', 0 < N') Ns → 0 < N →
     ∃ tbl,
       MHSAttention.table s0 N = Ok tbl ∧ length tbl = N ∧
       (MHSAttention.refresh (MHSAttention.run s0 Ns) N).2 = Ok () ∧
       MHSAttention.freqs_cis
         (MHSAttention.refresh (MHSAttention.run s0 Ns) N).1 = Some tbl) ∧
  (∀ (s0 : GroupAttention.t) (Ns : list nat) (N : nat) (d : Z),
     GroupAttention.freqs_cis s0 = None →
     int_mul (GroupAttention.dim s0 / GroupAttention.num_heads s0)
       (GroupAttention.rpe_ratio s0) = Ok d →
     (0 ≤ d)%Z →
     0 < GroupAttention.ws s0 →
     ∃ tbl,
       GroupAttention.table s0 = Ok tbl ∧
       (GroupAttention.refresh (GroupAttention.run s0 Ns) N).2 = Ok () ∧
       GroupAttention.freqs_cis
         (GroupAttention.refresh (GroupAttention.run s0 Ns) N).1 = Some tbl) ∧
  (∀ (s : GSAttention.t) (rpe_dim : Z) (N H W : nat) (base_size : R),
     GSAttention.use_cls_token s = false →
     GSAttention.rpe_dim s = Ok rpe_dim → (0 < rpe_dim)%Z →
     GSAttention.sr_ratio s ≠ 0 → N = H * W →
     0 < H * W / GSAttention.sr_ratio s / GSAttention.sr_ratio s →
     ∃ s' tq tk scale theta,
       GSAttention.scale_theta s H base_size = Ok (scale, theta) ∧
       GSAttention.refresh s N H W base_size = (s', Ok ()) ∧
       GSAttention.q_freqs_cis s' = Some tq ∧ length tq = N ∧
       GSAttention.k_freqs_cis s' = Some tk ∧
       length tk = H * W / GSAttention.sr_ratio s / GSAttention.sr_ratio s ∧
       ((∀ c, GSAttention.q_freqs_cis s = Some c → length c ≠ N) →
        GSAttention.q_table s rpe_dim N W theta scale = Ok tq) ∧
       ((∀ c, GSAttention.k_freqs_cis s = Some c →
              length c ≠ H * W / GSAttention.sr_ratio s / GSAttention.sr_ratio s) →
        GSAttention.k_table s rpe_dim
          (H * W / GSAttention.sr_ratio s / GSAttention.sr_ratio s) W scale
          = Ok tk)) ∧
  (∀ (b : Attention) (c : RAttention.config) (n : nat),
     RAttention.token_num c = Some n →
     let M := if RAttention.use_cls_token c then n + 1 else n in
     (RAttention.casual_attn_2d c = true →
      ∃ (self : RAttention.t) (m : mask),
        RAttention.init b c = Ok self ∧
        RAttention.casual_mask self = Some m ∧
        length m = M ∧ Forall (λ row, length row = M) m) ∧
     (RAttention.casual_attn_2d c = false →
      RAttention.casual_attn_1d c = true →
      ∃ self : RAttention.t,
        RAttention.init b c = Ok self ∧
        RAttention.casual_mask self
        = (if RAttention.use_cls_token c
           then Some (pad_cls n (create_causal_mask n)) else None) ∧
        length (pad_cls n (create_causal_mask n)) = n + 1 ∧
        Forall (λ row, length row = n + 1)
          (pad_cls n (create_causal_mask n)))) ∧
  (∀ (self : RAttention.t) (m : mask) (M : nat)
     (x : tensor R) (f : tensor complex) (B N C : nat),
     RAttention.enable_rpe (RAttention.cfg self) = true →
     RAttention.casual_attn_2d (RAttention.cfg self)
     || RAttention.casual_attn_1d (RAttention.cfg self) = true →
     RAttention.casual_mask self = Some m →
     length m = M → Forall (λ row, length row = M) m →
     shape x = [B; N; C] → N ≠ M →
     (∀ e, RAttention.forward_scores self B N C x f = Raise e →
           RAttention.forward self x f = Raise e) ∧
     (∀ attn v,
        RAttention.forward_scores self B N C x f = Ok (attn, v) →
        (M ≠ 1 →
         RAttention.forward self x f
         = Raise (if decide (N = 1) then RuntimeError_matmul
                  else RuntimeError_broadcast)) ∧
        (M = 1 →
         ∃ (e : mask_val) (t : tensor (option R)),
           m = [[e]] ∧
           RAttention.add_casual_mask self attn = Ok t ∧
           RAttention.forward self x f
           = attend (RAttention.base self) B N C t v ∧
           shape t = shape attn ∧
           ∀ b h i j, b < B → h < num_heads (RAttention.base self) →
             i < N → j < N →
             get t [b; h; i; j] = add_mask_val (get attn [b; h; i; j]) e))).
Proof.
  split_and!.
  - intros s0 Ns N d Hnone Hcls Hr Hd HNs HN.
    assert (MHS_inv s0 s0) as Hinv0 by (split; [by repeat split|by left]).
    pose proof (MHS_run_inv s0 Ns d Hcls Hr Hd HNs s0 Hinv0) as Hinv.
    destruct (MHS_refresh_inv s0 _ N d Hcls Hr Hd HN Hinv)
      as (tbl & ? & ? & ? & ? & _).
    by exists tbl.
  - intros s0 Ns N d Hnone Hr Hd Hws.
    assert (Group_inv s0 s0) as Hinv0 by (split; [by repeat split|by left]).
    pose proof (Group_run_inv s0 Ns d Hr Hd Hws s0 Hinv0) as Hinv.
    destruct (Group_refresh_inv s0 _ N d Hr Hd Hws Hinv)
      as (tbl & ? & ? & ? & _).
    by exists tbl.
  - intros s r N H W base_size. by apply GS_refresh_ok.
  - apply RAttention_init_mask.
  - apply RAttention_forward_stale.
Qed.

(** The four modules on small grids: tables of 16 and 49 positions, a
    mask for 3 tokens and one for 4 tokens with a class token, and a
    module built for 4 tokens that is called with 2 tokens (the call
    raises at the mask addition) and with 9 tokens and a table of 4 rows
    (the call raises in the rotation). *)
Lemma C6_small_grids :
  let mhs := {| MHSAttention.dim := 64; MHSAttention.num_heads := 2;
                MHSAttention.rpe_ratio := Float64.of_Z 1;
                MHSAttention.use_cls_token := false;
                MHSAttention.freqs_cis := None |} in
  let grp := {| GroupAttention.dim := 64; GroupAttention.num_heads := 2;
                GroupAttention.ws := 7; GroupAttention.rpe_ratio := Float64.of_Z 1;
                GroupAttention.use_cls_token := false;
                GroupAttention.freqs_cis := None |} in
  let gsa := {| GSAttention.dim := 64; GSAttention.num_heads := 2;
                GSAttention.sr_ratio := 2; GSAttention.rpe_ratio := Float64.of_Z 1;
                GSAttention.use_cls_token := false;
                GSAttention.auto_scale := false;
                GSAttention.use_ntk := None; GSAttention.casual_attn := false;
                GSAttention.q_freqs_cis := None;
                GSAttention.k_freqs_cis := None |} in
  let c2d := {| RAttention.enable_rpe := true;
                RAttention.rpe_ratio := Float64.of_Z 1;
                RAttention.token_num := Some 3;
                RAttention.casual_attn_1d := false;
                RAttention.casual_attn_2d := true;
                RAttention.use_cls_token := false |} in
  let c1d := {| RAttention.enable_rpe := true;
                RAttention.rpe_ratio := Float64.of_Z 1;
                RAttention.token_num := Some 4;
                RAttention.casual_attn_1d := true;
                RAttention.casual_attn_2d := false;
                RAttention.use_cls_token := true |} in
  let self :=
    {| RAttention.base := Examples.attention 2 8;
       RAttention.cfg :=
         {| RAttention.enable_rpe := true;
            RAttention.rpe_ratio := Float64.of_Z 1;
            RAttention.token_num := Some 4;
            RAttention.casual_attn_1d := false;
            RAttention.casual_attn_2d := true;
            RAttention.use_cls_token := false |};
       RAttention.casual_mask := Some Examples.mask_2x2 |} in
  (∃ tbl,
     MHSAttention.table mhs 16 = Ok tbl ∧ length tbl = 16 ∧
     (MHSAttention.refresh (MHSAttention.run mhs [16; 64]) 16).2 = Ok () ∧
     MHSAttention.freqs_cis
       (MHSAttention.refresh (MHSAttention.run mhs [16; 64]) 16).1 = Some tbl) ∧
  (∃ tbl,
     GroupAttention.table grp = Ok tbl ∧
     (GroupAttention.refresh (GroupAttention.run grp [49; 64]) 49).2 = Ok () ∧
     GroupAttention.freqs_cis
       (GroupAttention.refresh (GroupAttention.run grp [49; 64]) 49).1
       = Some tbl) ∧
  (∃ s' tq tk,
     GSAttention.refresh gsa 16 4 4 14 = (s', Ok ()) ∧
     GSAttention.q_freqs_cis s' = Some tq ∧ length tq = 16 ∧
     GSAttention.k_freqs_cis s' = Some tk ∧ length tk = 4 ∧
     GSAttention.q_table gsa 32 16 4 10000 1 = Ok tq ∧
     GSAttention.k_table gsa 32 4 4 1 = Ok tk) ∧
  (∃ (s2 : RAttention.t) (m : mask),
     RAttention.init (Examples.attention 2 8) c2d = Ok s2 ∧
     RAttention.casual_mask s2 = Some m ∧
     length m = 3 ∧ Forall (λ row, length row = 3) m) ∧
  (∃ s1 : RAttention.t,
     RAttention.init (Examples.attention 2 8) c1d = Ok s1 ∧
     RAttention.casual_mask s1 = Some (pad_cls 4 (create_causal_mask 4)) ∧
     length (pad_cls 4 (create_causal_mask 4)) = 5) ∧
  Examples.rattention 2 8 (Float64.of_Z 1) (Some 4) false true false = Ok self ∧
  RAttention.forward self (Examples.ramp [1; 2; 8]) (Examples.freqs 2 4)
  = Raise RuntimeError_broadcast ∧
  RAttention.forward_scores self 1 9 8 (Examples.ramp [1; 9; 8])
    (Examples.freqs 4 4) = Raise RuntimeError_shape ∧
  RAttention.forward self (Examples.ramp [1; 9; 8]) (Examples.freqs 4 4)
  = Raise RuntimeError_shape.
Proof.
  intros mhs grp gsa c2d c1d self.
  destruct C6_tables_follow_the_token_count as (HM & HG & HS & HI & HF).
  split_and!.
  - apply (HM mhs [16; 64] 16 32%Z);
      first [done | by vm_compute | repeat constructor; lia].
  - apply (HG grp [49; 64] 49 32%Z);
      first [done | by vm_compute | simpl; lia].
  - destruct (HS gsa 32%Z 16 4 4 14%R)
      as (s' & tq & tk & scale & theta & Hst & Hr
          & Hq & Hlq & Hk & Hlk & Hfq & Hfk);
      [done | by vm_compute | done | done | done | simpl; lia |].
    injection Hst as <- <-.
    exists s', tq, tk. split_and!; try done.
    + by apply Hfq.
    + by apply Hfk.
  - destruct (HI (Examples.attention 2 8) c2d 3 eq_refl) as [H2d _].
    exact (H2d eq_refl).
  - destruct (HI (Examples.attention 2 8) c1d 4 eq_refl) as [_ H1d].
    destruct (H1d eq_refl eq_refl) as (s1 & Hinit & Hmask & Hlen & _).
    exists s1. by split_and!.
  - reflexivity.
  - destruct (HF self Examples.mask_2x2 4 (Examples.ramp [1; 2; 8])
                (Examples.freqs 2 4) 1 2 8) as [_ Hok];
      [reflexivity | reflexivity | reflexivity | reflexivity
      | repeat constructor | reflexivity | lia |].
    destruct (is_ok_Ok (RAttention.forward_scores self 1 2 8
                          (Examples.ramp [1; 2; 8]) (Examples.freqs 2 4)))
      as [[attn v] Hs]; [by vm_compute|].
    destruct (Hok attn v Hs) as [Hraise _].
    apply Hraise. lia.
  - by vm_compute.
  - destruct (HF self Examples.mask_2x2 4 (Examples.ramp [1; 9; 8])
                (Examples.freqs 4 4) 1 9 8) as [Hearly _];
      [reflexivity | reflexivity | reflexivity | reflexivity
      | repeat constructor | reflexivity | lia |].
    apply Hearly. by vm_compute.
Defined.

(** [RAttention] never rebuilds its mask.  Built for 4 tokens and called
    with 9, the 4 x 4 mask is still the one added, and the addition raises.
    Built for 1 token and called with 4, the 1 x 1 mask is broadcast: the
    call returns, and query 0 sees key 3, which the mask of 4 tokens
    hides. *)
Lemma C6_RAttention_mask_is_never_rebuilt :
  (∃ (self : RAttention.t) (M : mask),
     Examples.rattention 2 8 (Float64.of_Z 1) (Some 4) false true false = Ok self ∧
     RAttention.casual_mask self = Some M ∧ length M = 4 ∧
     RAttention.forward self (Examples.ramp [1; 9; 8]) (Examples.freqs 9 4)
       = Raise RuntimeError_broadcast) ∧
  (∃ (self : RAttention.t) (attn v : tensor R) (t : tensor (option R))
     (M4 : mask),
     let x := Examples.ramp [1; 4; 8] in
     let f := Examples.freqs 4 4 in
     Examples.rattention 2 8 (Float64.of_Z 1) (Some 1) false true false = Ok self ∧
     RAttention.casual_mask self = Some [[zero_bias]] ∧
     RAttention.forward_scores self 1 4 8 x f = Ok (attn, v) ∧
     RAttention.add_casual_mask self attn = Ok t ∧
     get t [0; 0; 0; 3] = Some (get attn [0; 0; 0; 3]) ∧
     is_ok (RAttention.forward self x f) = true ∧
     RAttention.casual_mask_2d 4 = Ok M4 ∧
     at2 M4 0 3 = Some neg_inf).
Proof.
  split.
  - eexists _, _. split; [reflexivity|]. split; [reflexivity|].
    split; by vm_compute.
  - set (self := {| RAttention.base := Examples.attention 2 8;
                    RAttention.cfg :=
                      {| RAttention.enable_rpe := true;
                         RAttention.rpe_ratio := Float64.of_Z 1;
                         RAttention.token_num := Some 1;
                         RAttention.casual_attn_1d := false;
                         RAttention.casual_attn_2d := true;
                         RAttention.use_cls_token := false |};
                    RAttention.casual_mask := Some [[zero_bias]] |}).
    destruct (is_ok_Ok (RAttention.forward_scores self 1 4 8
                          (Examples.ramp [1; 4; 8]) (Examples.freqs 4 4)))
      as [[attn v] Hs]; [by vm_compute|].
    assert (shape attn = [1; 2; 4; 4]) as Hshape.
    { change (match Ok (A := tensor R * tensor R) (attn, v) with
              | Ok (a, _) => shape a
              | Raise _ => []
              end = [1; 2; 4; 4]).
      rewrite <- Hs. by vm_compute. }
    eexists self, attn, v, _, _. cbv zeta.
    split; [reflexivity|]. split; [reflexivity|]. split; [exact Hs|].
    assert (RAttention.add_casual_mask self attn
            = Ok {| shape := [1; 2; 4; 4];
                    get := λ idx,
                      add_mask_val (get attn (bidx [1; 2; 4; 4] idx))
                        (get (unsqueeze0 (unsqueeze0
                                (of_rows zero_bias [[zero_bias]])))
                           (bidx [1; 1; 1; 1] idx)) |}) as Hadd.
    { unfold RAttention.add_casual_mask, map2, self.
      cbn [RAttention.cfg RAttention.casual_attn_2d RAttention.casual_attn_1d
           RAttention.casual_mask orb].
      rewrite Hshape. reflexivity. }
    split; [exact Hadd|].
    split; [reflexivity|].
    split; [by vm_compute|]. split; reflexivity.
Qed.

End Claims_stale_caches.

Module Table_facts.
Import Freqs_facts.



Lemma lookup_arange_step (n step k : nat) :
  0 < step → k < n / step → arange_step n step !! k = Some (k * step).
Proof.
  intros Hs Hk. unfold arange_step.
  rewrite list_lookup_fmap, lookup_seq_lt; [done|].
  apply Nat.div_le_lower_bound; [lia|].
  assert (S k * step ≤ n); [|lia].
  assert (S k ≤ n / step) as H by lia.
  pose proof (Nat.Div0.mul_div_le n step). nia.
Qed.

(** The frequencies
    [1 / theta ** (arange(0, dim, step)[:dim // step] / dim)]. *)
Lemma lookup_channels (dim step : nat) (theta : R) c :
  0 < step → c < dim / step →
  ((λ a : nat, (1 / Rpower theta (INR a / INR dim))%R)
     <$> take (dim / step) (arange_step dim step)) !! c
  = Some (1 / Rpower theta (INR (c * step) / INR dim))%R.
Proof.
  intros Hs Hc.
  by rewrite list_lookup_fmap, lookup_take_lt, lookup_arange_step by done.
Qed.

Lemma at2_polar_outer (t f : list R) i c (ti fc : R) :
  t !! i = Some ti → f !! c = Some fc →
  at2 (polar_ones (outer t f)) i c = Some (polar 1 (ti * fc)).
Proof.
  intros Ht Hf. unfold at2, polar_ones, outer.
  rewrite !list_lookup_fmap, Ht. simpl.
  by rewrite !list_lookup_fmap, Hf.
Qed.

Lemma precompute_freqs_cis_entry (dim end_ : nat) (theta scale : R) t j :
  t < end_ → j < dim / 2 →
  at2 (precompute_freqs_cis dim end_ theta scale) t j
  = Some (polar 1 (INR t * scale * (1 / Rpower theta (INR (j * 2) / INR dim)))).
Proof.
  intros Ht Hj. unfold precompute_freqs_cis.
  apply at2_polar_outer.
  - by rewrite !list_lookup_fmap, lookup_arange by done.
  - apply lookup_channels; [lia|done].
Qed.

Lemma precompute_freqs_cis_take (dim n m : nat) (theta scale : R) :
  m ≤ n →
  take m (precompute_freqs_cis dim n theta scale)
  = precompute_freqs_cis dim m theta scale.
Proof.
  intros Hm. unfold precompute_freqs_cis, polar_ones, outer, arange.
  rewrite <- !fmap_take. do 4 f_equal.
  rewrite take_seq. f_equal. lia.
Qed.

Lemma mjoin_mjoin {A} (l : list (list (list A))) :
  mjoin (mjoin l) = mjoin (mjoin <$> l).
Proof.
  induction l as [|r l IH]; [done|]. simpl. by rewrite join_app, IH.
Qed.

Lemma reshape_replicate_mjoin {A} (l : list (list A)) k :
  Forall (λ r, length r = k) l →
  reshape (replicate (length l) k) (mjoin l) = l.
Proof.
  induction 1 as [|r l Hr _ IH]; [done|]. simpl.
  rewrite take_app_length' by done. rewrite drop_app_length' by done.
  by rewrite IH.
Qed.

Lemma reshape_rows_mjoin {A} (l : list (list A)) k :
  l ≠ [] → Forall (λ r, length r = k) l →
  reshape_rows (length l) (mjoin l) = Ok l.
Proof.
  intros Hl Hr. unfold reshape_rows.
  assert (0 < length l) by (destruct l; [done|simpl; lia]).
  rewrite decide_False by lia.
  rewrite (length_mjoin_const l k) by done.
  rewrite decide_True by (rewrite Nat.mul_comm; apply Nat.Div0.mod_mul).
  rewrite Nat.mul_comm, Nat.div_mul by lia.
  by rewrite reshape_replicate_mjoin.
Qed.

Lemma length_interleave {A} (xs ys : list A) :
  length xs = length ys → length (interleave xs ys) = 2 * length xs.
Proof.
  revert ys. induction xs as [|x xs IH]; intros [|y ys] H; simplify_eq/=; [done|].
  unfold interleave in *. simpl. rewrite IH by done. lia.
Qed.


(** [cat([x.unsqueeze(-1), y.unsqueeze(-1)], -1).reshape(n, -1)]: row
    [i] interleaves row [i] of [x] and row [i] of [y]. *)
Lemma assemble_rows (X Y : list (list complex)) n F :
  0 < n → length X = n → length Y = n →
  Forall (λ r, length r = F) X → Forall (λ r, length r = F) Y →
  reshape_rows n (mjoin (mjoin (cat_pairs X Y)))
  = Ok (zip_with interleave X Y).
Proof.
  intros Hn HX HY HFX HFY.
  assert (@mjoin list _ complex <$> cat_pairs X Y
          = zip_with interleave X Y) as Hrows.
  { unfold cat_pairs, interleave. clear.
    revert Y. induction X as [|x X IH]; intros [|y Y]; simpl; [done..|].
    by rewrite IH. }
  rewrite mjoin_mjoin, Hrows.
  assert (length (zip_with interleave X Y) = n) as Hlen
    by (rewrite length_zip_with; lia).
  rewrite <- Hlen at 1. apply (reshape_rows_mjoin _ (2 * F)).
  - intros Hnil. rewrite Hnil in Hlen. simpl in Hlen. lia.
  - clear Hlen Hrows Hn. revert Y n HX HY HFY.
    induction HFX as [|x X Hx _ IH]; intros [|y Y] n HX HY HFY; simpl;
      [done..|].
    inversion HFY; subst. constructor.
    + rewrite length_interleave; lia.
    + eapply IH; eauto.
Qed.

End Table_facts.

Module Table2d_facts.
Import Freqs_facts Table_facts.

Lemma rows_polar_outer (t f : list R) :
  Forall (λ r, length r = length f) (polar_ones (outer t f)).
Proof.
  destruct (shape_outer t f) as [_ Ho].
  by destruct (shape_polar_ones (outer t f) (length f) Ho).
Qed.

Lemma length_polar_outer (t f : list R) :
  length (polar_ones (outer t f)) = length t.
Proof. unfold polar_ones, outer. by rewrite !length_fmap. Qed.


Lemma tensor_mod_Ok (t : list Z) (d : Z) :
  d ≠ 0%Z → tensor_mod t d = Ok ((λ p, p `mod` d)%Z <$> t).
Proof.
  intros Hd. unfold tensor_mod. rewrite decide_False; [done|]. by intros [].
Qed.

Lemma tensor_floordiv_Ok (t : list Z) (d : Z) :
  d ≠ 0%Z → tensor_floordiv t d = Ok ((λ p, p `div` d)%Z <$> t).
Proof.
  intros Hd. unfold tensor_floordiv. rewrite decide_False; [done|].
  by intros [].
Qed.


(** The rows of [precompute_freqs_cis_2d], for a table length that is
    not 0. *)
Lemma precompute_freqs_cis_2d_rows dim end_ theta scale use_cls cls_pos :
  0 < end_ →
  let H := Z.of_nat (Nat.sqrt end_) in
  let fix_cls (l : list R) :=
    if use_cls && negb (cls_pos =? -1)%Z then <[0 := IZR cls_pos]> l else l in
  let xs := fix_cls ((λ p : Z, (IZR (p `mod` H) * scale)%R)
                       <$> arange_cls use_cls end_) in
  let ys := fix_cls ((λ p : Z, (IZR (p `div` H) * scale)%R)
                       <$> arange_cls use_cls end_) in
  precompute_freqs_cis_2d dim end_ theta scale use_cls cls_pos
  = Ok (zip_with interleave (polar_ones (outer xs (channels dim theta)))
                            (polar_ones (outer ys (channels dim theta)))).
Proof.
  intros Hend H fix_cls xs ys. unfold precompute_freqs_cis_2d.
  pose proof (sqrt_pos end_ Hend) as Hsq.
  rewrite tensor_mod_Ok, tensor_floordiv_Ok by (unfold H; lia).
  cbn [result_bind]. rewrite <- !list_fmap_compose.
  fold (channels dim theta).
  assert (length xs = (if use_cls then end_ + 1 else end_) ∧
          length ys = (if use_cls then end_ + 1 else end_)) as [Hlx Hly].
  { unfold xs, ys, fix_cls.
    split; destruct (use_cls && negb (cls_pos =? -1)%Z);
      by rewrite ?length_insert, length_fmap, length_arange_cls. }
  apply (assemble_rows _ _ _ (length (channels dim theta)));
    rewrite ?length_polar_outer; try done.
  - destruct use_cls; lia.
  - apply rows_polar_outer.
  - apply rows_polar_outer.
Qed.

Lemma precompute_freqs_cis_2d_general_rows dim end_ step W bias theta scale
    use_cls :
  0 < end_ →
  let W' := Z.of_nat (if decide (W = 0) then Nat.sqrt end_ else W) in
  let xs := (λ p : Z, (scale * (bias + IZR (p `mod` W' * step)))%R)
              <$> arange_cls use_cls end_ in
  let ys := (λ p : Z, (scale * (bias + IZR (p `div` W' * step)))%R)
              <$> arange_cls use_cls end_ in
  precompute_freqs_cis_2d_general dim end_ step W bias theta scale use_cls
  = Ok (zip_with interleave (polar_ones (outer xs (channels dim theta)))
                            (polar_ones (outer ys (channels dim theta)))).
Proof.
  intros Hend W' xs ys. unfold precompute_freqs_cis_2d_general.
  pose proof (sqrt_pos end_ Hend) as Hsq.
  assert (W' ≠ 0%Z) as HW by (unfold W'; case_decide; lia).
  fold W'. rewrite tensor_mod_Ok by done. cbn [result_bind].
  rewrite tensor_floordiv_Ok by done. cbn [result_bind].
  rewrite <- !list_fmap_compose. fold (channels dim theta).
  apply (assemble_rows _ _ _ (length (channels dim theta)));
    rewrite ?length_polar_outer, ?length_fmap, ?length_arange_cls; try done.
  - destruct use_cls; lia.
  - apply rows_polar_outer.
  - apply rows_polar_outer.
Qed.


End Table2d_facts.

Section Extras_tables.
Import Freqs_facts Table_facts Table2d_facts.



(** X11.  The first [m] rows of the table of [n >= m] positions are the
    table of [m] positions: the slice [self.freqs_cis[0:num_patches]] of
    the table that [VisionTransformerRotate.forward_features] builds for
    [2 * num_patches] positions is the table of [num_patches]
    positions. *)
Theorem X11_freqs_cis_prefix (dim n m : nat) (theta scale : R) :
  m ≤ n →
  take m (precompute_freqs_cis dim n theta scale)
  = precompute_freqs_cis dim m theta scale.
Proof. apply precompute_freqs_cis_take. Qed.

(** 196 patches: the slice of the table of 392 positions. *)
Lemma X11_slice_of_twice_the_patches :
  take 196 (precompute_freqs_cis 64 (196 * 2) 10000 1)
  = precompute_freqs_cis 64 196 10000 1.
Proof. apply (X11_freqs_cis_prefix 64 (196 * 2) 196 10000 1). simpl. lia. Defined.






(** X14.  [precompute_freqs_cis_2d_general] with [step = 1], [bias = 0]
    and a width [W] that is 0 or [int(end ** 0.5)] computes, for a table
    length that is not 0, what [precompute_freqs_cis_2d] computes with
    [cls_pos = -1]: the same table, or the same exception. *)
Theorem X14_general_table_is_2d_table (dim end_ W : nat) (theta scale : R)
    (use_cls : bool) :
  0 < end_ → (W = 0 ∨ W = Nat.sqrt end_) →
  precompute_freqs_cis_2d_general dim end_ 1 W 0 theta scale use_cls
  = precompute_freqs_cis_2d dim end_ theta scale use_cls (-1).
Proof.
  intros Hend HW. pose proof (sqrt_pos end_ Hend) as Hsq.
  rewrite precompute_freqs_cis_2d_rows, precompute_freqs_cis_2d_general_rows
    by done.
  rewrite andb_false_r.
  assert ((if decide (W = 0) then Nat.sqrt end_ else W) = Nat.sqrt end_) as ->
    by (case_decide; lia).
  do 3 f_equal; f_equal; apply list_fmap_ext; intros _ p _;
    rewrite Z.mul_1_r; ring.
Qed.

(** The query table of a 4 x 4 grid. *)
Lemma X14_grid_4x4 :
  precompute_freqs_cis_2d_general 8 16 1 4 0 10000 1 false
  = precompute_freqs_cis_2d 8 16 10000 1 false (-1).
Proof.
  apply (X14_general_table_is_2d_table 8 16 4 10000 1 false);
    [lia | right; reflexivity].
Defined.

End Extras_tables.

Module Rotary4d_facts.
Import Torch Torch_facts Rotary_facts Freqs_facts Table_facts Broadcast_facts.

(** The rotation of one tensor of shape (B, N, H, 2F) by a table of
    shape (N, F): the four statements of [apply_rotary_emb] that produce
    [xq_out], and the elements of the result. *)
Lemma rotate_4d (x : tensor R) (f : tensor complex) (B N H F : nat) :
  shape x = [B; N; H; 2 * F] → shape f = [N; F] →
  0 < B → 0 < N → 0 < H →
  ∃ x_ f' y out,
    complex_pairs x = Ok x_ ∧ shape x_ = [B; N; H; F] ∧
    reshape f [1; N; 1; F] = Ok f' ∧
    reshape_for_broadcast f x_ = Ok f' ∧ shape f' = [1; N; 1; F] ∧
    map2 Cmul x_ f' = Ok y ∧
    flatten (view_as_real y) 3 = Ok out ∧
    shape out = [B; N; H; 2 * F] ∧
    ∀ b n h c, b < B → n < N → h < H → c < F →
      let z := Cmul (get x [b; n; h; 2 * c], get x [b; n; h; 2 * c + 1])
                    (get f [n; c]) in
      get out [b; n; h; 2 * c] = z.1 ∧ get out [b; n; h; 2 * c + 1] = z.2.
Proof.
  intros Hx Hf HB HN HH.
  destruct (reshape_infer_intro x [B; N; H] [2] F) as (x2 & Hx2 & Hs2 & Hg2).
  { simpl. nia. } { rewrite Hx. simpl. lia. }
  set (x_ := {| shape := [B; N; H; F];
                get := λ idx, (get x2 (idx ++ [0]), get x2 (idx ++ [1])) |}).
  assert (complex_pairs x = Ok x_) as Hcp.
  { unfold complex_pairs. rewrite Hx.
    change (init_dims [B; N; H; 2 * F]) with [B; N; H].
    rewrite Hx2. cbn [result_bind].
    unfold view_as_complex. rewrite Hs2.
    by rewrite decide_True by done. }
  destruct (reshape_intro f [1; N; 1; F]) as (f' & Hf' & Hsf' & Hgf').
  { rewrite Hf. simpl. lia. }
  assert (reshape_for_broadcast f x_ = Ok f') as Hrb.
  { unfold reshape_for_broadcast. unfold x_ at 1 2 3. cbn [shape length].
    rewrite Hf. rewrite decide_True by lia. cbn [last].
    change (last_dim [B; N; H; F]) with F.
    rewrite decide_True by done. cbn [result_bind]. exact Hf'. }
  assert (broadcast_shapes [B; N; H; F] [1; N; 1; F] = Ok [B; N; H; F]) as Hbs.
  { unfold broadcast_shapes. simpl.
    repeat (case_decide; simplify_eq/=; try done; try lia). }
  set (y := {| shape := [B; N; H; F];
               get := λ idx, Cmul (get x_ (bidx [B; N; H; F] idx))
                                  (get f' (bidx [1; N; 1; F] idx)) |}).
  assert (map2 Cmul x_ f' = Ok y) as Hy.
  { unfold map2. rewrite Hsf'. unfold x_ at 1. cbn [shape]. by rewrite Hbs. }
  destruct (reshape_intro (view_as_real y) [B; N; H; 2 * F])
    as (out & Hout & Hso & Hgo).
  { simpl. lia. }
  exists x_, f', y, out. split; [done|]. split; [done|]. split; [done|].
  split; [done|]. split; [done|]. split; [done|]. split.
  { unfold flatten. cbn [shape view_as_real y app length].
    rewrite decide_True by lia. cbn [take drop app numel foldr].
    replace (F * (2 * 1)) with (2 * F) by lia. exact Hout. }
  split; [done|].
  intros b n h c Hb Hn Hh Hc z.
  assert (∀ p, p < 2 →
    get out [b; n; h; 2 * c + p]
    = (if decide (p = 0) then z.1 else z.2)) as Hp.
  { intros p Hp. rewrite Hgo. cbn [shape view_as_real y app].
    replace (ravel [B; N; H; 2 * F] [b; n; h; 2 * c + p])
      with (ravel [B; N; H; F; 2] [b; n; h; c; p]) by (simpl; lia).
    rewrite unravel_ravel by in_bounds.
    cbn [get view_as_real y].
    change (init_dims [b; n; h; c; p]) with [b; n; h; c].
    change (last_dim [b; n; h; c; p]) with p.
    rewrite bidx_in_range by in_bounds.
    assert (bidx [1; N; 1; F] [b; n; h; c] = [0; n; 0; c]) as ->.
    { unfold bidx. simpl. repeat case_decide; repeat f_equal; lia. }
    rewrite Hgf', Hf.
    replace (ravel [1; N; 1; F] [0; n; 0; c]) with (ravel [N; F] [n; c])
      by (simpl; lia).
    rewrite unravel_ravel by in_bounds.
    cbn [get x_ app]. rewrite !Hg2, Hx.
    replace (ravel ([B; N; H] ++ [F] ++ [2]) [b; n; h; c; 0])
      with (ravel [B; N; H; 2 * F] [b; n; h; 2 * c]) by (simpl; lia).
    replace (ravel ([B; N; H] ++ [F] ++ [2]) [b; n; h; c; 1])
      with (ravel [B; N; H; 2 * F] [b; n; h; 2 * c + 1]) by (simpl; lia).
    rewrite !unravel_ravel by in_bounds. done. }
  split.
  - rewrite <- (Nat.add_0_r (2 * c)). by rewrite Hp by lia.
  - rewrite Hp by lia. done.
Qed.

(** [apply_rotary_emb] on two tensors laid out (batch, token, head,
    channel) and a table with one row per token. *)
Lemma apply_rotary_emb_4d (xq xk : tensor R) (f : tensor complex)
    (B B' N H H' F : nat) :
  shape xq = [B; N; H; 2 * F] → shape xk = [B'; N; H'; 2 * F] →
  shape f = [N; F] → 0 < B → 0 < B' → 0 < N → 0 < H → 0 < H' →
  ∃ q' k',
    apply_rotary_emb xq xk f = Ok (q', k') ∧
    apply_rotary_emb_single xq f = Ok q' ∧
    apply_rotary_emb_single xk f = Ok k' ∧
    shape q' = shape xq ∧ shape k' = shape xk ∧
    (∀ b n h c, b < B → n < N → h < H → c < F →
       let z := Cmul (get xq [b; n; h; 2 * c], get xq [b; n; h; 2 * c + 1])
                     (get f [n; c]) in
       get q' [b; n; h; 2 * c] = z.1 ∧ get q' [b; n; h; 2 * c + 1] = z.2) ∧
    (∀ b n h c, b < B' → n < N → h < H' → c < F →
       let z := Cmul (get xk [b; n; h; 2 * c], get xk [b; n; h; 2 * c + 1])
                     (get f [n; c]) in
       get k' [b; n; h; 2 * c] = z.1 ∧ get k' [b; n; h; 2 * c + 1] = z.2).
Proof.
  intros Hq Hk Hf HB HB' HN HH HH'.
  destruct (rotate_4d xq f B N H F Hq Hf HB HN HH)
    as (q_ & fq & yq & q' & Hq_ & Hsq_ & Hrq & Hfq & Hsfq & Hyq & Hoq & Hsoq & Hgq).
  destruct (rotate_4d xk f B' N H' F Hk Hf HB' HN HH')
    as (k_ & fk & yk & k' & Hk_ & Hsk_ & Hrk & Hfk & Hsfk & Hyk & Hok & Hsok & Hgk).
  assert (fk = fq) as -> by congruence.
  exists q', k'.
  unfold apply_rotary_emb, apply_rotary_emb_single.
  rewrite Hq_, Hk_. cbn [result_bind]. rewrite Hfq, Hfk. cbn [result_bind].
  rewrite Hyq, Hyk. cbn [result_bind]. rewrite Hoq, Hok. cbn [result_bind].
  rewrite Hq, Hk. done.
Qed.

Lemma Cmul_unit_dot (a b z : complex) :
  unit_phasor z →
  ((Cmul a z).1 * (Cmul b z).1 + (Cmul a z).2 * (Cmul b z).2
   = a.1 * b.1 + a.2 * b.2)%R.
Proof.
  unfold unit_phasor, Cabs. intros Hz.
  assert (z.1 * z.1 + z.2 * z.2 = 1)%R as H1.
  { rewrite <- (sqrt_sqrt (z.1 * z.1 + z.2 * z.2)) by nra.
    rewrite Hz. lra. }
  unfold Cmul. simpl.
  transitivity ((z.1 * z.1 + z.2 * z.2) * (a.1 * b.1 + a.2 * b.2))%R; [ring|].
  rewrite H1. ring.
Qed.


(** The table of [precompute_freqs_cis] as a tensor. *)
Lemma table_tensor (F N : nat) (theta scale : R) :
  0 < N →
  let f := as_tensor (precompute_freqs_cis (2 * F) N theta scale) in
  shape f = [N; F] ∧
  ∀ n c, n < N → c < F →
    get f [n; c]
    = polar 1 (INR n * scale * (1 / Rpower theta (INR (c * 2) / INR (2 * F)))).
Proof.
  intros HN f.
  destruct (precompute_freqs_cis_shape (2 * F) N theta scale) as [Hl Hr].
  assert (2 * F / 2 = F) as HF by (rewrite Nat.mul_comm; apply Nat.div_mul; lia).
  split.
  - unfold f, as_tensor, of_rows. cbn [shape]. rewrite Hl. f_equal.
    destruct (lookup_lt_is_Some_2 (precompute_freqs_cis (2 * F) N theta scale) 0)
      as [r Hr0]; [lia|].
    rewrite Hr0. simpl. rewrite Forall_lookup in Hr.
    rewrite (Hr _ _ Hr0). by rewrite HF.
  - intros n c Hn Hc.
    change (get f [n; c])
      with (default ((0%R, 0%R) : complex)
              (at2 (precompute_freqs_cis (2 * F) N theta scale) n c)).
    by rewrite precompute_freqs_cis_entry by lia.
Qed.

End Rotary4d_facts.

Section Extras_rotary.
Import Torch Torch_facts Freqs_facts Table_facts Rotary4d_facts.

(** X15.  [apply_rotary_emb] on a query and a key laid out (batch,
    token, head, channel) with [2 F] channels, and a table with one row
    per token and [F] columns: the call returns; both results have the
    shape of their input; the channels [2c] and [2c + 1] of the vector of
    token [n] are the real and the imaginary part of the complex product
    of that channel pair with the table entry [(n, c)], the same for
    every batch and head; and [apply_rotary_emb_single] returns the same
    tensors when called on the query and on the key. *)
Theorem X15_apply_rotary_emb_elements (xq xk : tensor R) (f : tensor complex)
    (B B' N H H' F : nat) :
  shape xq = [B; N; H; 2 * F] → shape xk = [B'; N; H'; 2 * F] →
  shape f = [N; F] → 0 < B → 0 < B' → 0 < N → 0 < H → 0 < H' →
  ∃ q' k',
    apply_rotary_emb xq xk f = Ok (q', k') ∧
    apply_rotary_emb_single xq f = Ok q' ∧
    apply_rotary_emb_single xk f = Ok k' ∧
    shape q' = shape xq ∧ shape k' = shape xk ∧
    (∀ b n h c, b < B → n < N → h < H → c < F →
       let z := Cmul (get xq [b; n; h; 2 * c], get xq [b; n; h; 2 * c + 1])
                     (get f [n; c]) in
       get q' [b; n; h; 2 * c] = z.1 ∧ get q' [b; n; h; 2 * c + 1] = z.2) ∧
    (∀ b n h c, b < B' → n < N → h < H' → c < F →
       let z := Cmul (get xk [b; n; h; 2 * c], get xk [b; n; h; 2 * c + 1])
                     (get f [n; c]) in
       get k' [b; n; h; 2 * c] = z.1 ∧ get k' [b; n; h; 2 * c + 1] = z.2).
Proof. apply apply_rotary_emb_4d. Qed.

(** Two tokens, one head of width 2. *)
Lemma X15_two_tokens_of_width_2 :
  let xq := Examples.ramp [1; 2; 1; 2] in
  let xk := Examples.zeros [1; 2; 1; 2] in
  let f := as_tensor (precompute_freqs_cis 2 2 10000 1) in
  ∃ q' k',
    apply_rotary_emb xq xk f = Ok (q', k') ∧
    apply_rotary_emb_single xq f = Ok q' ∧
    shape q' = [1; 2; 1; 2] ∧
    get q' [0; 1; 0; 0]
    = (Cmul (get xq [0; 1; 0; 0], get xq [0; 1; 0; 1]) (get f [1; 0])).1.
Proof.
  intros xq xk f.
  destruct (X15_apply_rotary_emb_elements xq xk f 1 1 2 1 1 1)
    as (q' & k' & Hr & Hs & _ & Hsq & _ & Hgq & _);
    [reflexivity | reflexivity | by vm_compute | lia..|].
  exists q', k'. split; [exact Hr|]. split; [exact Hs|]. split; [exact Hsq|].
  destruct (Hgq 0 1 0 0) as [Hre _]; [lia..|]. exact Hre.
Defined.

(** X16.  The rotation is an isometry on every channel pair: when the
    entries of the table are unit phasors, the channels [2c] and [2c + 1]
    of a rotated query and of the rotated key of the same token contribute
    to their dot product what they contribute to the dot product of the
    query and the key before the rotation. *)
Theorem X16_rotation_keeps_pair_products (xq xk : tensor R)
    (f : tensor complex) (B N H F : nat) :
  shape xq = [B; N; H; 2 * F] → shape xk = [B; N; H; 2 * F] →
  shape f = [N; F] → 0 < B → 0 < N → 0 < H →
  (∀ n c, n < N → c < F → unit_phasor (get f [n; c])) →
  ∃ q' k',
    apply_rotary_emb xq xk f = Ok (q', k') ∧
    ∀ b n h c, b < B → n < N → h < H → c < F →
      pair_dot q' k' [b; n; h] [b; n; h] c
      = pair_dot xq xk [b; n; h] [b; n; h] c.
Proof.
  intros Hq Hk Hf HB HN HH Hunit.
  destruct (apply_rotary_emb_4d xq xk f B B N H H F)
    as (q' & k' & Hr & _ & _ & _ & _ & Hgq & Hgk); try done.
  exists q', k'. split; [done|]. intros b n h c Hb Hn Hh Hc.
  unfold pair_dot. cbn [app]. cbv zeta.
  destruct (Hgq b n h c Hb Hn Hh Hc) as [-> ->].
  destruct (Hgk b n h c Hb Hn Hh Hc) as [-> ->].
  by rewrite Cmul_unit_dot by auto.
Qed.


(** Two tokens, one head of width 2, and the table of
    [precompute_freqs_cis]. *)
Lemma X16_two_tokens_of_width_2 :
  let xq := Examples.ramp [1; 2; 1; 2] in
  let xk := Examples.ramp [1; 2; 1; 2] in
  let f := as_tensor (precompute_freqs_cis 2 2 10000 1) in
  ∃ q' k',
    apply_rotary_emb xq xk f = Ok (q', k') ∧
    pair_dot q' k' [0; 1; 0] [0; 1; 0] 0 = pair_dot xq xk [0; 1; 0] [0; 1; 0] 0.
Proof.
  intros xq xk f.
  destruct (X16_rotation_keeps_pair_products xq xk f 1 2 1 1)
    as (q' & k' & Hr & Hd);
    [reflexivity | reflexivity | by vm_compute | lia | lia | lia | |].
  { intros n c Hn Hc.
    destruct (table_tensor 1 2 10000 1) as [_ Hg]; [lia|].
    unfold f. rewrite Hg by lia. apply Cabs_polar_1. }
  exists q', k'. split; [exact Hr|]. apply Hd; lia.
Defined.


End Extras_rotary.

Module Model_cache_facts.
Import Table_facts.

Module VTR := VisionTransformerRotate.
Module VL := VisionLLaMA.

Lemma VTR_table_Ok (s : VTR.t) theta scale :
  VTR.num_heads s ≠ 0 →
  VTR.table s theta scale
  = Ok (precompute_freqs_cis (VTR.embed_dim s / VTR.num_heads s)
          (VTR.num_patches s * 2) theta scale).
Proof. intros H. unfold VTR.table. by rewrite decide_False. Qed.

Lemma VTR_step_inv (s0 s : VTR.t) c :
  VTR.num_heads s0 ≠ 0 → VTR.is_ntk c = false →
  VTR.cache_inv s0 s → VTR.cache_inv s0 (VTR.step s c).
Proof.
  intros Hnh Hc (He & Hn & Hp & Hf).
  destruct c as [|s'|s' f]; [| |done]; simpl.
  - unfold VTR.forward_table. destruct Hf as [Hf|Hf]; rewrite Hf.
    + rewrite VTR_table_Ok by congruence. simpl.
      split_and!; [done..|]. right. by rewrite He, Hn, Hp.
    + simpl. split_and!; [done..|]. by right.
  - unfold VTR.reset_scale. simpl. destruct Hf as [Hf|Hf]; rewrite Hf.
    + simpl. split_and!; [done..|]. by left.
    + rewrite VTR_table_Ok by (simpl; congruence). simpl.
      split_and!; [done..|]. right. by rewrite He, Hn, Hp.
Qed.

Lemma VTR_run_inv (s0 : VTR.t) calls :
  VTR.num_heads s0 ≠ 0 → VTR.no_ntk calls = true →
  ∀ s, VTR.cache_inv s0 s → VTR.cache_inv s0 (VTR.run s calls).
Proof.
  intros Hnh. induction calls as [|c calls IH]; intros Hc s Hs; [done|].
  unfold VTR.no_ntk in Hc. simpl in Hc.
  apply andb_true_iff in Hc as [Hc1 Hc2].
  simpl. apply IH; [done|]. apply VTR_step_inv; [done| |done].
  by destruct (VTR.is_ntk c).
Qed.

Lemma VTR_forward_inv (s0 s : VTR.t) :
  VTR.num_heads s0 ≠ 0 → VTR.cache_inv s0 s →
  (VTR.forward_table s).2
  = Ok (precompute_freqs_cis (VTR.embed_dim s0 / VTR.num_heads s0)
          (VTR.num_patches s0) 10000 (VTR.scale s)).
Proof.
  intros Hnh (He & Hn & Hp & Hf). unfold VTR.forward_table.
  destruct Hf as [->| ->].
  - rewrite VTR_table_Ok by congruence. simpl.
    rewrite He, Hn, Hp. f_equal. apply precompute_freqs_cis_take. lia.
  - simpl. rewrite Hp. f_equal. apply precompute_freqs_cis_take. lia.
Qed.

Lemma VL_step_keeps (s : VL.t) c tbl :
  VL.is_ntk c = false → VL.freqs_cis s = Some tbl →
  VL.freqs_cis (VL.step s c) = Some tbl.
Proof.
  intros Hc Hf. destruct c as [H|s'|s' f]; [| |done]; simpl.
  - unfold VL.forward_table.
    destruct (VL.auto_scale s); [case_decide|]; simpl; rewrite ?Hf; done.
  - unfold VL.reset_scale. simpl. by rewrite Hf.
Qed.

Lemma VL_run_keeps calls : ∀ (s : VL.t) tbl,
  VL.no_ntk calls = true → VL.freqs_cis s = Some tbl →
  VL.freqs_cis (VL.run s calls) = Some tbl.
Proof.
  induction calls as [|c calls IH]; intros s tbl Hc Hf; [done|].
  unfold VL.no_ntk in Hc. simpl in Hc.
  apply andb_true_iff in Hc as [Hc1 Hc2]. simpl.
  apply IH; [done|]. apply VL_step_keeps; [|done]. by destruct (VL.is_ntk c).
Qed.

Lemma VL_run_same calls : ∀ (s : VL.t),
  VL.auto_scale (VL.run s calls) = VL.auto_scale s ∧
  VL.use_cls_token (VL.run s calls) = VL.use_cls_token s ∧
  VL.num_patches (VL.run s calls) = VL.num_patches s.
Proof.
  induction calls as [|c calls IH]; intros s; [done|]. simpl.
  destruct (IH (VL.step s c)) as (-> & -> & ->).
  destruct c as [H|s'|s' f]; simpl.
  - unfold VL.forward_table.
    destruct (VL.auto_scale s) eqn:E; [case_decide|]; simpl; try done;
      destruct (VL.freqs_cis s); simpl; try done;
      destruct (VL.table s _ _); simpl; done.
  - unfold VL.reset_scale. simpl.
    destruct (VL.freqs_cis s); simpl; try done.
    destruct (VL.table _ _ _); simpl; done.
  - unfold VL.reset_ntk_scale. simpl.
    repeat case_decide; simpl; try done.
    destruct (VL.freqs_cis s); simpl; done.
Qed.

(** Once a table is cached, calls of [forward_features] and
    [reset_scale] keep it, and [forward_features] hands its first rows to
    the blocks. *)
Lemma VL_kept (s : VL.t) (tbl : list (list complex)) (calls : list VL.call)
    (H : nat) :
  VL.freqs_cis s = Some tbl → VL.no_ntk calls = true →
  (VL.auto_scale s = true → H ≠ 0) →
  VL.freqs_cis (VL.run s calls) = Some tbl ∧
  (VL.forward_table (VL.run s calls) H).2 = Ok (take (VL.rows s) tbl).
Proof.
  intros Hf Hc HH.
  pose proof (VL_run_keeps calls s tbl Hc Hf) as Hk.
  destruct (VL_run_same calls s) as (Ha & Hu & Hn).
  split; [done|]. unfold VL.forward_table, VL.rows. rewrite Ha, Hu, Hn, Hk.
  destruct (VL.auto_scale s); [rewrite decide_False by auto|]; done.
Qed.

End Model_cache_facts.

(** ** The cached tables of [VisionTransformerRotate] and [VisionLLaMA] *)

Section Extras_caches.
Import Table_facts Model_cache_facts.

(** X18. [VisionTransformerRotate]: on a model built without a table,
    after any sequence of [forward_features] and [reset_scale] calls the
    next [forward_features] hands the blocks the first [num_patches] rows
    of the 1D table of the scale set last, with theta 10000; in
    particular a [reset_scale] takes effect whether or not a table was
    cached before. *)
Theorem X18_VisionTransformerRotate_table_follows_scale
    (s0 : VTR.t) (calls : list VTR.call) (s' : R) :
  VTR.num_heads s0 ≠ 0 → VTR.freqs_cis s0 = None →
  VTR.no_ntk calls = true →
  let hd := VTR.embed_dim s0 / VTR.num_heads s0 in
  (VTR.forward_table (VTR.run s0 calls)).2
  = Ok (precompute_freqs_cis hd (VTR.num_patches s0) 10000
          (VTR.scale (VTR.run s0 calls))) ∧
  (VTR.forward_table (VTR.run s0 (calls ++ [VTR.ResetScale s']))).2
  = Ok (precompute_freqs_cis hd (VTR.num_patches s0) 10000 s').
Proof.
  intros Hnh Hnone Hc hd.
  assert (VTR.cache_inv s0 s0) as H0 by (split_and!; [done..|by left]).
  pose proof (VTR_run_inv s0 calls Hnh Hc s0 H0) as Hinv.
  split; [by apply VTR_forward_inv|].
  unfold VTR.run. rewrite foldl_app. simpl. fold (VTR.run s0 calls).
  pose proof (VTR_step_inv s0 _ (VTR.ResetScale s') Hnh eq_refl Hinv) as Hinv'.
  rewrite (VTR_forward_inv s0) by done. f_equal. f_equal.
  simpl. unfold VTR.reset_scale.
  destruct (VTR.freqs_cis (VTR.set_scale (VTR.run s0 calls) s')); [|done].
  destruct Hinv as (_ & Hn & _).
  rewrite VTR_table_Ok by (simpl; congruence). done.
Qed.

Lemma X18_forward_reset_forward :
  let s0 := {| VTR.embed_dim := 64; VTR.num_heads := 2; VTR.num_patches := 4;
               VTR.scale := 1; VTR.freqs_cis := None |} in
  let calls := [VTR.Forward; VTR.ResetScale 2; VTR.Forward] in
  (VTR.forward_table (VTR.run s0 calls)).2
  = Ok (precompute_freqs_cis (64 / 2) 4 10000 (VTR.scale (VTR.run s0 calls))) ∧
  (VTR.forward_table (VTR.run s0 (calls ++ [VTR.ResetScale 3]))).2
  = Ok (precompute_freqs_cis (64 / 2) 4 10000 3).
Proof.
  intros s0 calls.
  apply (X18_VisionTransformerRotate_table_follows_scale s0 calls 3).
  - simpl. lia.
  - reflexivity.
  - reflexivity.
Defined.

(** X19. [VisionTransformerRotate.reset_ntk_scale] depends on the cache:
    called after a [forward_features] it replaces the table by the one of
    the rescaled theta and scale 1; called on a model that has no table
    yet it only stores the scale, and the next [forward_features] builds
    the table with theta 10000 and that scale, the rescaled theta being
    lost. *)
Theorem X19_reset_ntk_scale_depends_on_cache (s0 : VTR.t) (s factor : R) :
  VTR.num_heads s0 ≠ 0 → VTR.freqs_cis s0 = None →
  VTR.embed_dim s0 / VTR.num_heads s0 ≠ 2 →
  (0 < factor * s - (factor - 1))%R →
  let hd := VTR.embed_dim s0 / VTR.num_heads s0 in
  let theta := (10000 * Rpower (factor * s - (factor - 1))
                          (INR hd / (INR hd - 2)))%R in
  (VTR.forward_table (VTR.run s0 [VTR.Forward; VTR.ResetNtkScale s factor])).2
  = Ok (precompute_freqs_cis hd (VTR.num_patches s0) theta 1) ∧
  (VTR.forward_table (VTR.run s0 [VTR.ResetNtkScale s factor])).2
  = Ok (precompute_freqs_cis hd (VTR.num_patches s0) 10000 s).
Proof.
  intros Hnh Hnone Hhd Hbase hd theta. split.
  - simpl. unfold VTR.forward_table at 2. rewrite Hnone.
    rewrite VTR_table_Ok by done. simpl.
    unfold VTR.reset_ntk_scale. simpl.
    rewrite !decide_False by done. simpl.
    rewrite VTR_table_Ok by done. simpl.
    unfold VTR.forward_table. simpl. f_equal.
    apply precompute_freqs_cis_take. lia.
  - simpl. unfold VTR.reset_ntk_scale. simpl.
    rewrite !decide_False by done. rewrite Hnone. simpl.
    unfold VTR.forward_table. simpl. rewrite Hnone.
    rewrite VTR_table_Ok by done. simpl. f_equal.
    apply precompute_freqs_cis_take. lia.
Qed.

Lemma X19_head_width_32 :
  let s0 := {| VTR.embed_dim := 64; VTR.num_heads := 2; VTR.num_patches := 4;
               VTR.scale := 1; VTR.freqs_cis := None |} in
  let theta := (10000 * Rpower (1 * 2 - (1 - 1))
                          (INR (64 / 2) / (INR (64 / 2) - 2)))%R in
  (VTR.forward_table (VTR.run s0 [VTR.Forward; VTR.ResetNtkScale 2 1])).2
  = Ok (precompute_freqs_cis (64 / 2) 4 theta 1) ∧
  (VTR.forward_table (VTR.run s0 [VTR.ResetNtkScale 2 1])).2
  = Ok (precompute_freqs_cis (64 / 2) 4 10000 2).
Proof.
  intros s0 theta.
  apply (X19_reset_ntk_scale_depends_on_cache s0 2 1).
  - simpl. lia.
  - reflexivity.
  - simpl. lia.
  - lra.
Defined.

(** X20. [VisionLLaMA] writes its table once: when a table is cached,
    no sequence of [forward_features] calls (images of any height, with
    or without [auto_scale]) and [reset_scale] calls changes it, and
    [forward_features] hands its first rows (one more with a class
    token) to the blocks. *)
Theorem X20_VisionLLaMA_table_is_built_once
    (s : VL.t) (tbl : list (list complex)) (calls : list VL.call) (H : nat) :
  VL.freqs_cis s = Some tbl → VL.no_ntk calls = true →
  (VL.auto_scale s = true → H ≠ 0) →
  VL.freqs_cis (VL.run s calls) = Some tbl ∧
  (VL.forward_table (VL.run s calls) H).2 = Ok (take (VL.rows s) tbl).
Proof. apply VL_kept. Qed.

Lemma X20_cached_table_survives :
  let tbl := precompute_freqs_cis 4 8 10000 1 in
  let s := {| VL.embed_dim := 8; VL.num_heads := 2; VL.num_patches := 4;
              VL.share_rpe := true; VL.rpe_ratio := Float64.of_Z 1;
              VL.use_cls_token := false; VL.theta := 10000;
              VL.auto_scale := true; VL.cls_pos := 0; VL.scale := 1;
              VL.freqs_cis := Some tbl |} in
  let calls := [VL.Forward 448; VL.ResetScale 2; VL.Forward 224] in
  VL.freqs_cis (VL.run s calls) = Some tbl ∧
  (VL.forward_table (VL.run s calls) 112).2 = Ok (take (VL.rows s) tbl).
Proof.
  intros tbl s calls.
  apply (X20_VisionLLaMA_table_is_built_once s tbl calls 112).
  - reflexivity.
  - reflexivity.
  - intros _. lia.
Defined.

(** X21. [VisionLLaMA.reset_scale] called on a model that has no table
    yet builds the table with scale 1.0 and class position -1, whatever
    scale it is given and whatever [auto_scale] and [cls_pos] the model
    was built with; every later [forward_features] uses that table. *)
Theorem X21_VisionLLaMA_reset_scale_builds_default_table
    (s0 : VL.t) (s : R) (tbl : list (list complex)) (calls : list VL.call)
    (H : nat) :
  VL.freqs_cis s0 = None →
  VL.table s0 1 (-1) = Ok tbl →
  VL.no_ntk calls = true →
  (VL.auto_scale s0 = true → H ≠ 0) →
  (VL.forward_table (VL.run s0 (VL.ResetScale s :: calls)) H).2
  = Ok (take (VL.rows s0) tbl).
Proof.
  intros Hnone Ht Hc HH. simpl.
  assert (VL.reset_scale s0 s
          = (VL.set_freqs_cis (VL.set_scale s0 s) tbl, Ok ())) as ->.
  { unfold VL.reset_scale. simpl. rewrite Hnone.
    change (VL.table (VL.set_scale s0 s) 1 (-1)) with (VL.table s0 1 (-1)).
    by rewrite Ht. }
  simpl.
  apply (VL_kept (VL.set_freqs_cis (VL.set_scale s0 s) tbl) tbl calls H); done.
Qed.

Lemma X21_reset_before_forward :
  let s0 := {| VL.embed_dim := 8; VL.num_heads := 2; VL.num_patches := 4;
               VL.share_rpe := true; VL.rpe_ratio := Float64.of_Z 1;
               VL.use_cls_token := true; VL.theta := 10000;
               VL.auto_scale := true; VL.cls_pos := 0; VL.scale := 1;
               VL.freqs_cis := None |} in
  ∃ tbl, VL.table s0 1 (-1) = Ok tbl ∧
    (VL.forward_table (VL.run s0 [VL.ResetScale 2; VL.Forward 448]) 448).2
    = Ok (take (VL.rows s0) tbl).
Proof.
  intros s0.
  destruct (is_ok_Ok (VL.table s0 1 (-1))) as [tbl Ht]; [by vm_compute|].
  exists tbl. split; [exact Ht|].
  apply (X21_VisionLLaMA_reset_scale_builds_default_table
           s0 2 tbl [VL.Forward 448] 448).
  - reflexivity.
  - exact Ht.
  - reflexivity.
  - intros _. lia.
Defined.

(** X22. [reset_ntk_scale], which [VisionLLaMA] inherits, replaces a
    cached 2D table by the 1D table of [precompute_freqs_cis]: the next
    [forward_features] hands the blocks rows whose angles are position
    times frequency, not the row and column angles of the 2D table. *)
Theorem X22_VisionLLaMA_reset_ntk_scale_installs_1d_table
    (s : VL.t) (tbl : list (list complex)) (sc factor : R) (H : nat) :
  VL.freqs_cis s = Some tbl →
  VL.num_heads s ≠ 0 → VL.embed_dim s / VL.num_heads s ≠ 2 →
  0 < VL.num_patches s →
  (0 < factor * sc - (factor - 1))%R →
  (VL.auto_scale s = true → H ≠ 0) →
  let hd := VL.embed_dim s / VL.num_heads s in
  let theta := (10000 * Rpower (factor * sc - (factor - 1))
                          (INR hd / (INR hd - 2)))%R in
  (VL.forward_table (VL.run s [VL.ResetNtkScale sc factor]) H).2
  = Ok (precompute_freqs_cis hd (VL.rows s) theta 1).
Proof.
  intros Hf Hnh Hhd Hnp Hbase HH hd theta. simpl.
  unfold VL.reset_ntk_scale. simpl. rewrite !decide_False by done.
  rewrite Hf. simpl. unfold VL.forward_table, VL.rows. simpl.
  destruct (VL.auto_scale s); [rewrite decide_False by auto|]; simpl;
    f_equal; apply precompute_freqs_cis_take; destruct (VL.use_cls_token s); lia.
Qed.

Lemma X22_table_of_a_2x2_grid :
  let s := {| VL.embed_dim := 8; VL.num_heads := 2; VL.num_patches := 4;
              VL.share_rpe := true; VL.rpe_ratio := Float64.of_Z 1;
              VL.use_cls_token := false; VL.theta := 10000;
              VL.auto_scale := false; VL.cls_pos := 0; VL.scale := 1;
              VL.freqs_cis := Some [] |} in
  let theta := (10000 * Rpower (1 * 2 - (1 - 1))
                          (INR (8 / 2) / (INR (8 / 2) - 2)))%R in
  (VL.forward_table (VL.run s [VL.ResetNtkScale 2 1]) 224).2
  = Ok (precompute_freqs_cis (8 / 2) (VL.rows s) theta 1).
Proof.
  intros s theta.
  apply (X22_VisionLLaMA_reset_ntk_scale_installs_1d_table s [] 2 1 224).
  - reflexivity.
  - simpl. lia.
  - simpl. lia.
  - simpl. lia.
  - lra.
  - intros _. lia.
Defined.

End Extras_caches.

(** ** The block constructors *)

Section Extras_blocks.
Import Blocks.

(** X23. The keywords with which [VisionTransformerRotate.__init__]
    calls the block class are accepted by [RBlockRMSNorm],
    [LSRBlockRMSNorm] and [LAMABlock] only: with any other block class,
    among them the default [RBlock] and the [GroupBlock] of the pyramid
    models, building a model of positive depth raises [TypeError].  The
    keywords of [PyramidVisionLLaMA.__init__] are accepted by
    [GroupBlock] only. *)
Theorem X23_block_classes_accepting_the_keywords :
  (∀ c, bind c VisionTransformerRotate_keywords = Ok () ↔
        c ∈ [RBlockRMSNorm; LSRBlockRMSNorm; LAMABlock]) ∧
  (∀ c depth, 0 < depth →
     c ∉ [RBlockRMSNorm; LSRBlockRMSNorm; LAMABlock] →
     build c VisionTransformerRotate_keywords depth = Raise TypeError) ∧
  (∀ c, bind c PyramidVisionLLaMA_keywords = Ok () ↔ c = GroupBlock).
Proof.
  assert (∀ c, bind c VisionTransformerRotate_keywords = Ok () ↔
               c ∈ [RBlockRMSNorm; LSRBlockRMSNorm; LAMABlock]) as H1.
  { intros c. rewrite !elem_of_cons, elem_of_nil.
    destruct c; vm_compute; split; intros H; try done;
      try (by (repeat (destruct H as [H|H]; try done))); auto. }
  split; [exact H1|]. split.
  - intros c [|depth] Hd Hc; [lia|]. simpl.
    destruct (bind c VisionTransformerRotate_keywords) as [[]|e] eqn:E.
    + exfalso. apply Hc. by apply H1.
    + unfold bind in E. by destruct (_ && _); simplify_eq.
  - intros c. destruct c; vm_compute; split; intros H; done.
Qed.

End Extras_blocks.

(** ** The rotation inside [GQA.forward] *)

Module GQA_layout_facts.
Import Torch Torch_facts Rotary_facts Forward_facts GQA_facts Broadcast_facts.

Lemma complex_pairs_4d (x : tensor R) (B N H F : nat) :
  shape x = [B; N; H; 2 * F] → 0 < B → 0 < N → 0 < H →
  ∃ x_, complex_pairs x = Ok x_ ∧ shape x_ = [B; N; H; F].
Proof.
  intros Hx HB HN HH.
  destruct (reshape_infer_intro x [B; N; H] [2] F) as (x2 & Hx2 & Hs2 & Hg2).
  { simpl. nia. } { rewrite Hx. simpl. lia. }
  unfold complex_pairs. rewrite Hx.
  change (init_dims [B; N; H; 2 * F]) with [B; N; H].
  rewrite Hx2. cbn [result_bind].
  unfold view_as_complex. rewrite Hs2.
  rewrite decide_True by done. eexists. split; [reflexivity|]. done.
Qed.

(** Projection and split for [query_groups] 1 or [num_heads]. *)
Lemma GQA_projection (dim h g : nat) (qk_scale : option R) (ratio : Float64.float)
    (Wq Wp : nat → nat → R) (bq bp : nat → R) (self : GQA.t)
    (B T : nat) (x : tensor R) :
  GQA.init dim h qk_scale ratio g Wq Wp bq bp = Ok self →
  g = 1 ∨ g = h →
  shape x = [B; T; dim] → 0 < B → 0 < T → h ≤ dim →
  GQA.head_dim self = dim / h ∧ GQA.rpe_ratio self = ratio ∧
  0 < h ∧ 0 < dim / h ∧
  ∃ q k v, GQA.projected_qkv self B T x = Ok (q, k, v) ∧
           shape q = [B; h; T; dim / h] ∧
           shape k = [B; g; T; dim / h] ∧
           shape v = [B; g; T; dim / h].
Proof.
  intros Hinit Hg Hx HB HT Hh.
  unfold GQA.init in Hinit. case_decide as Hz; [done|].
  destruct (GQA.qk_scale_or qk_scale (dim / h)) as [scale|]; [|done].
  injection Hinit as <-. cbn [GQA.head_dim GQA.rpe_ratio].
  assert (0 < dim / h) as Hhd by (apply Nat.div_str_pos; lia).
  split; [done|]. split; [done|]. split; [lia|]. split; [done|].
  match goal with |- context [GQA.projected_qkv ?s] => set (self := s) end.
  destruct (linear_intro (GQA.qkv self) x [B; T] Hx) as (y & Hy & Hys).
  simpl in Hys.
  destruct (GQA_heads self B T dim x y Hx Hy) as [H1 Hn];
    simpl; try done; [lia|].
  destruct Hg as [->| ->].
  - destruct (H1 eq_refl) as (q & k & v & Hp & Hq & Hk & Hv & _).
    by exists q, k, v.
  - destruct (Hn eq_refl) as (q & k & v & Hp & Hq & Hk & Hv & _).
    by exists q, k, v.
Qed.


End GQA_layout_facts.

Section Extras_gqa.
Import Torch Torch_facts Rotary_facts Forward_facts GQA_facts Broadcast_facts.
Import Rotary4d_facts GQA_layout_facts.

(** X24. [GQA.forward] hands [apply_rotary_emb] the queries and keys in
    the layout (batch, head, token, channel), and [reshape_for_broadcast]
    reads axis 1 as the token axis: with a table that has one row per
    token ([T] rows of the rotary width) and a token count different from
    [num_heads], the call raises at the [view] of the table, on every
    runtime, for [query_groups] 1 and [num_heads]. *)
Theorem X24_GQA_rejects_a_table_of_token_rows
    (dim h g : nat) (qk_scale : option R) (ratio : Float64.float)
    (Wq Wp : nat → nat → R) (bq bp : nat → R) (self : GQA.t)
    (B T F : nat) (x : tensor R) (f : tensor complex) (rope_dim : Z) :
  GQA.init dim h qk_scale ratio g Wq Wp bq bp = Ok self →
  g = 1 ∨ g = h →
  shape x = [B; T; dim] → 0 < B → 0 < T → h ≤ dim →
  GQA.rope_dim self = Ok rope_dim → (0 < rope_dim)%Z →
  slice_stop (dim / h) rope_dim = 2 * F →
  shape f = [T; F] → T ≠ h →
  ∀ rt, GQA.forward rt self x f = Raise RuntimeError_shape.
Proof.
  intros Hinit Hg Hx HB HT Hh Hrd Hr HF Hf HTh rt.
  destruct (GQA_projection dim h g qk_scale ratio Wq Wp bq bp self B T x)
    as (Hhd & _ & Hh0 & Hhd0 & q & k & v & Hp & Hq & Hk & Hv); try done.
  assert (0 < F) as HF0.
  { unfold slice_stop in HF. rewrite decide_True in HF by lia. lia. }
  assert (0 < g) as Hg0 by (destruct Hg; lia).
  unfold GQA.forward. rewrite Hx. unfold GQA.rotated_qkv. rewrite Hp, Hrd.
  cbn [result_bind]. unfold rotate_prefix, apply_rotary_emb.
  destruct (complex_pairs_4d (slice_last_to q rope_dim) B h T F)
    as (q_ & -> & Hq_); try done.
  { rewrite (slice_last_to_shape q [B; h; T] (dim / h)) by done.
    simpl. by rewrite HF. }
  destruct (complex_pairs_4d (slice_last_to k rope_dim) B g T F)
    as (k_ & -> & Hk_); try done.
  { rewrite (slice_last_to_shape k [B; g; T] (dim / h)) by done.
    simpl. by rewrite HF. }
  cbn [result_bind].
  unfold reshape_for_broadcast. rewrite Hq_, Hf. cbn [length last].
  rewrite decide_True by lia.
  change (last_dim [B; h; T; F]) with F.
  rewrite decide_True by done. cbn [result_bind].
  match goal with |- context [reshape f ?s] => change s with [1; h; 1; F] end.
  unfold reshape. rewrite Hf. rewrite decide_False; [done|].
  simpl. nia.
Qed.

Lemma X24_three_tokens_two_heads :
  let self :=
    {| GQA.num_heads := 2; GQA.query_groups := 2; GQA.head_dim := 4;
       GQA.rpe_ratio := Float64.decimal 1 2;
       GQA.scale := Rpower (INR 4) (- (1 / 2));
       GQA.qkv := {| in_features := 8; out_features := 24;
                     weight := λ r c, INR (r + c); bias := λ r, INR r |};
       GQA.proj := {| in_features := 8; out_features := 8;
                      weight := λ r c, INR (r + c); bias := λ r, INR r |} |} in
  Examples.gqa 2 2 8 (Float64.decimal 1 2) = Ok self ∧
  ∀ rt, GQA.forward rt self (Examples.ramp [1; 3; 8]) (Examples.freqs 3 2)
        = Raise RuntimeError_shape.
Proof.
  intros self. split; [reflexivity|].
  apply (X24_GQA_rejects_a_table_of_token_rows 8 2 2 None (Float64.decimal 1 2)
           (λ r c, INR (r + c)) (λ r c, INR (r + c)) (λ r, INR r) (λ r, INR r)
           self 1 3 1 _ _ 2%Z).
  - reflexivity.
  - right. reflexivity.
  - reflexivity.
  - lia.
  - lia.
  - lia.
  - by vm_compute.
  - lia.
  - reflexivity.
  - reflexivity.
  - lia.
Defined.



End Extras_gqa.

(** ** Causality of [RAttention.forward] *)

Module Causal_facts.
Import Torch Torch_facts Rotary_facts Forward_facts Broadcast_facts.
Import Rotary4d_facts GQA_layout_facts Arith_facts.

Lemma linear_get (l : Linear) (x y : tensor R) :
  linear l x = Ok y →
  ∀ idx o, get y (idx ++ [o])
           = (sum_n (λ i, (get x (idx ++ [i]) * weight l o i)%R) (in_features l)
              + bias l o)%R.
Proof.
  unfold linear. case_decide; [|done]. intros [= <-] idx o.
  cbn [get]. by autorewrite with snoc.
Qed.




Lemma rot_val_0 f g n c : rot_val f 0 g n c = g c.
Proof. unfold rot_val. by rewrite decide_False by lia. Qed.





End Causal_facts.

Section Extras_causality.
Import Torch Torch_facts Broadcast_facts Arith_facts Causal_facts.



End Extras_causality.

(** ** The regrouping of [MHSAttention.forward] *)

Module MHSA_layout_facts.
Import Torch Torch_facts Broadcast_facts.

Lemma permute_select (y : tensor R) (B N nh hd : nat) :
  shape y = [B; N; 3; nh; hd] →
  ∃ y2 q k v,
    permute y [2; 0; 1; 3; 4] = Ok y2 ∧
    select0 y2 0 = Ok q ∧ select0 y2 1 = Ok k ∧ select0 y2 2 = Ok v ∧
    shape q = [B; N; nh; hd] ∧ shape k = [B; N; nh; hd] ∧
    shape v = [B; N; nh; hd] ∧
    ∀ b n a c,
      get q [b; n; a; c] = get y [b; n; 0; a; c] ∧
      get k [b; n; a; c] = get y [b; n; 1; a; c] ∧
      get v [b; n; a; c] = get y [b; n; 2; a; c].
Proof.
  intros Hys.
  destruct (permute_intro y [2; 0; 1; 3; 4]) as (y2 & Hy2 & Hs2 & Hg2).
  { rewrite Hys. apply (bool_decide_unpack _). by vm_compute. }
  rewrite Hys in Hs2. simpl in Hs2.
  exists y2. unfold select0. rewrite Hs2.
  rewrite !decide_True by lia.
  eexists _, _, _. split_and!; [done..|].
  intros b n a c. cbn [get]. rewrite !Hg2. done.
Qed.

(** Offset [o] of an element of shape [(B, N, nh)], split into its
    coordinates. *)
Lemma split_offset (B N nh o : nat) :
  0 < N → 0 < nh → o < B * nh * N →
  o / (N * nh) < B ∧ (o / nh) mod N < N ∧ o mod nh < nh ∧
  o = (o / (N * nh) * N + (o / nh) mod N) * nh + o mod nh.
Proof.
  intros HN Hnh Ho.
  pose proof (Nat.div_mod_eq o nh) as H1.
  pose proof (Nat.mod_upper_bound o nh) as H2.
  pose proof (Nat.div_mod_eq (o / nh) N) as H3.
  pose proof (Nat.mod_upper_bound (o / nh) N) as H4.
  assert (o / nh / N = o / (N * nh)) as H5.
  { rewrite Nat.Div0.div_div. f_equal. lia. }
  split_and!; [|lia..| ].
  - apply Nat.Div0.div_lt_upper_bound. lia.
  - rewrite <- H5. lia.
Qed.

End MHSA_layout_facts.

Section Extras_mhsa.
Import Torch Torch_facts Broadcast_facts Arith_facts Causal_facts.
Import MHSA_layout_facts.

(** X27. [MHSAttention.forward] regroups the projected queries, keys and
    values with [reshape(B * num_heads, -1, head_dim)] while the head axis
    is still behind the token axis.  On an input of [N = H * W] tokens of
    width [num_heads * head_dim] the three tensors have shape
    [(B * num_heads, N, head_dim)], and position [p] of row [r] holds, with
    [o = r * N + p], head [o mod num_heads] of token
    [(o div num_heads) mod N] of image [o div (N * num_heads)]: a row,
    within which the scores are computed, runs over [N] consecutive
    (token, head) pairs, not over the [N] tokens of one head. *)
Theorem X27_MHSAttention_regroups_token_head_pairs
    (self : MHSAttention.t) (l : Linear) (B H W hd : nat) (x : tensor R) :
  let nh := MHSAttention.num_heads self in
  let N := H * W in
  let C := nh * hd in
  shape x = [B; N; C] → 0 < B → 0 < N → 0 < nh → 0 < hd →
  in_features l = C → out_features l = 3 * C →
  ∃ y q k v,
    linear l x = Ok y ∧
    MHSAttention.projected_qkv self l B N C H W x = Ok (q, k, v) ∧
    shape q = [B * nh; N; hd] ∧ shape k = [B * nh; N; hd] ∧
    shape v = [B * nh; N; hd] ∧
    ∀ r p c, r < B * nh → p < N → c < hd →
      let o := r * N + p in
      let b := o / (N * nh) in
      let n := (o / nh) mod N in
      let a := o mod nh in
      get q [r; p; c] = get y [b; n; a * hd + c] ∧
      get k [r; p; c] = get y [b; n; (nh + a) * hd + c] ∧
      get v [r; p; c] = get y [b; n; (2 * nh + a) * hd + c].
Proof.
  intros nh N C Hx HB HN Hnh Hhd Hin Hout.
  assert (0 < W ∧ 0 < H) as [HW HH] by (unfold N in HN; nia).
  destruct (linear_intro l x [B; N]) as (y & Hy & Hys); [by rewrite Hx, Hin|].
  destruct (reshape_intro x [B; H; W; C]) as (x4 & Hx4 & Hs4 & Hg4).
  { rewrite Hx. cbn [numel foldr]. unfold N. lia. }
  destruct (linear_intro l x4 [B; H; W]) as (y4 & Hy4 & Hys4);
    [by rewrite Hs4, Hin|].
  rewrite Hout in Hys4. cbn [app] in Hys4.
  destruct (reshape_intro y4 [B; N; 3; nh; hd]) as (y5 & Hy5 & Hs5 & Hg5).
  { rewrite Hys4. cbn [numel foldr]. unfold N, C. lia. }
  destruct (permute_select y5 B N nh hd Hs5)
    as (y6 & q0 & k0 & v0 & Hy6 & Hq0 & Hk0 & Hv0 & Hqs & Hks & Hvs & Hg6).
  destruct (reshape_infer_intro q0 [B * nh] [hd] N) as (q & Hq & Hqs' & Hgq).
  { cbn [numel foldr]. nia. } { rewrite Hqs. cbn [numel foldr]. lia. }
  destruct (reshape_infer_intro k0 [B * nh] [hd] N) as (k & Hk & Hks' & Hgk).
  { cbn [numel foldr]. nia. } { rewrite Hks. cbn [numel foldr]. lia. }
  destruct (reshape_infer_intro v0 [B * nh] [hd] N) as (v & Hv & Hvs' & Hgv).
  { cbn [numel foldr]. nia. } { rewrite Hvs. cbn [numel foldr]. lia. }
  assert (C / nh = hd) as Hdiv.
  { unfold C. rewrite Nat.mul_comm. apply Nat.div_mul. lia. }
  exists y, q, k, v. split; [done|]. split.
  { unfold MHSAttention.projected_qkv. rewrite Hx4. cbn [result_bind].
    rewrite Hy4. cbn [result_bind]. fold nh. rewrite decide_False by lia.
    rewrite Hdiv. fold N. rewrite Hy5. cbn [result_bind].
    rewrite Hy6. cbn [result_bind]. rewrite Hq0, Hk0, Hv0. cbn [result_bind].
    by rewrite Hq, Hk, Hv. }
  split; [done|]. split; [done|]. split; [done|].
  (* the projection of the view is the view of the projection *)
  assert (∀ b n o, b < B → n < N →
            get y4 [b; n / W; n mod W; o] = get y [b; n; o]) as Hv4.
  { intros b n o Hb Hn.
    pose proof (linear_get _ _ _ Hy4 [b; n / W; n mod W] o) as H1.
    pose proof (linear_get _ _ _ Hy [b; n] o) as H2.
    cbn [app] in H1, H2. rewrite H1, H2. f_equal.
    apply sum_n_ext. intros i Hi. f_equal. rewrite Hg4, Hx.
    pose proof (Nat.div_mod_eq n W). pose proof (Nat.mod_upper_bound n W).
    replace (ravel [B; H; W; C] [b; n / W; n mod W; i])
      with (ravel [B; N; C] [b; n; i]).
    2:{ cbn [ravel numel foldr]. unfold N. nia. }
    rewrite unravel_ravel; [done|]. rewrite Hin in Hi. in_bounds. }
  assert (∀ b n s a c, b < B → n < N → s < 3 → a < nh → c < hd →
            get y5 [b; n; s; a; c] = get y [b; n; (s * nh + a) * hd + c])
    as Hv5.
  { intros b n s a c Hb Hn Hs Ha Hc. rewrite Hg5, Hys4.
    pose proof (Nat.div_mod_eq n W). pose proof (Nat.mod_upper_bound n W).
    assert (n / W < H).
    { apply Nat.Div0.div_lt_upper_bound. unfold N in Hn. lia. }
    assert ((s * nh + a) * hd + c < 3 * C).
    { assert (s * nh + a < 3 * nh) by nia. unfold C. nia. }
    replace (ravel [B; N; 3; nh; hd] [b; n; s; a; c])
      with (ravel [B; H; W; 3 * C]
              [b; n / W; n mod W; (s * nh + a) * hd + c]).
    2:{ cbn [ravel numel foldr]. unfold N, C. nia. }
    rewrite unravel_ravel by in_bounds. by apply Hv4. }
  intros r p c Hr Hp Hc o b n a.
  destruct (split_offset B N nh o) as (Hb & Hn & Ha & Ho); [done..| |].
  { unfold o. nia. }
  fold b n a in Hb, Hn, Ha, Ho.
  rewrite Hgq, Hgk, Hgv, Hqs, Hks, Hvs.
  replace (ravel ([B * nh] ++ [N] ++ [hd]) [r; p; c])
    with (ravel [B; N; nh; hd] [b; n; a; c]).
  2:{ cbn [ravel numel foldr app]. 
      transitivity (o * hd + c); [rewrite Ho at 1; ring|unfold o; ring]. }
  rewrite unravel_ravel by in_bounds.
  destruct (Hg6 b n a c) as (-> & -> & ->).
  rewrite !Hv5 by (done || lia).
  split_and!; f_equal; f_equal; f_equal; f_equal; lia.
Qed.

(** Two heads of width 4 on a 2 x 2 grid: position 1 of row 0 is head 1
    of token 0, not head 0 of token 1. *)
Lemma X27_two_heads_on_a_2x2_grid :
  let self := {| MHSAttention.dim := 8; MHSAttention.num_heads := 2;
                 MHSAttention.rpe_ratio := Float64.of_Z 1;
                 MHSAttention.use_cls_token := false;
                 MHSAttention.freqs_cis := None |} in
  let l := Examples.linear_layer 8 24 in
  let x := Examples.ramp [1; 4; 8] in
  ∃ y q k v,
    linear l x = Ok y ∧
    MHSAttention.projected_qkv self l 1 4 8 2 2 x = Ok (q, k, v) ∧
    ∀ c, c < 4 → get q [0; 1; c] = get y [0; 0; 4 + c].
Proof.
  intros self l x.
  destruct (X27_MHSAttention_regroups_token_head_pairs self l 1 2 2 4 x)
    as (y & q & k & v & Hy & Hp & _ & _ & _ & Hg).
  - reflexivity.
  - lia.
  - simpl. lia.
  - simpl. lia.
  - lia.
  - reflexivity.
  - reflexivity.
  - exists y, q, k, v. split; [exact Hy|]. split; [exact Hp|].
    intros c Hc. destruct (Hg 0 1 c) as (Hq & _); [simpl; lia..|].
    exact Hq.
Defined.

End Extras_mhsa.

(** ** The tables of [GSAttention] *)

Module GS_table_facts.
Import Freqs_facts Table_facts Table2d_facts.


End GS_table_facts.

Section Extras_gs_tables.
Import Freqs_facts Cache_facts Table_facts Table2d_facts GS_table_facts.



End Extras_gs_tables.

(** ** Causality of [LAMABlock.forward] and of a stack of blocks *)

Module Block_facts.
Import Torch Torch_facts Broadcast_facts Arith_facts Causal_facts.










End Block_facts.

(** ** Masks whose visible sets are closed *)

Module Mask_closure_facts.
Import RAttention_mask_facts Mask_facts.

(** The lower-triangular mask is transitive. *)
Lemma create_causal_mask_closed (size i j k : nat) :
  i < size → j < size → k < size →
  visible (create_causal_mask size) i j →
  at2 (create_causal_mask size) j k = Some zero_bias →
  visible (create_causal_mask size) i k.
Proof.
  intros Hi Hj Hk Hij Hjk. unfold visible in *.
  rewrite at2_create_causal_mask in * by done.
  right. f_equal. rewrite decide_True; [done|].
  case_decide; [|done].
  destruct Hij as [->|Hij]; [done|]. case_decide; [lia|done].
Qed.

(** The 2D mask of a square grid is transitive. *)
Lemma casual_mask_2d_closed (H : nat) (M : mask) (i j k : nat) :
  RAttention.casual_mask_2d (H * H) = Ok M →
  i < H * H → j < H * H → k < H * H →
  visible M i j → at2 M j k = Some zero_bias → visible M i k.
Proof.
  intros HM Hi Hj Hk Hij Hjk.
  destruct (casual_mask_2d_ok H) as (M' & HM' & _ & Hat).
  assert (M' = M) as -> by congruence.
  unfold visible in *. rewrite !Hat in * by done.
  assert (RAttention.sees H j k = true) as Hs2
    by (destruct (RAttention.sees H j k); [done|discriminate]).
  assert (RAttention.sees H i j = true) as Hs1.
  { destruct Hij as [->|Hij]; [apply sees_refl|].
    destruct (RAttention.sees H i j); [done|discriminate]. }
  right. unfold RAttention.sees in *.
  apply andb_true_iff in Hs1 as [H1 H2]. apply andb_true_iff in Hs2 as [H3 H4].
  apply bool_decide_eq_true in H1, H2, H3, H4.
  by rewrite !bool_decide_eq_true_2 by lia.
Qed.

(** With a class token, a closed visible set is the set of all tokens. *)
Lemma pad_cls_closed_sees_all (n : nat) (m : mask) (i : nat) :
  length m = n → i ≤ n →
  (∀ j k, j ≤ n → k ≤ n →
     visible (pad_cls n m) i j → at2 (pad_cls n m) j k = Some zero_bias →
     visible (pad_cls n m) i k) →
  ∀ k, k ≤ n → visible (pad_cls n m) i k.
Proof.
  intros Hlen Hi Hclosed k Hk.
  destruct (at2_pad_cls n m) as (_ & Hr0 & Hc0 & _).
  apply (Hclosed 0 k); [lia|done| |by apply Hr0].
  destruct i as [|i]; [by left|]. right. apply Hc0. lia.
Qed.

End Mask_closure_facts.

Section Extras_block_causality.
Import Torch Torch_facts Broadcast_facts Arith_facts Causal_facts Block_facts.





End Extras_block_causality.

